(** * ClearCase client of rbtools: changeset reduction and diff synthesis

    A shallow embedding of [rbtools/clients/clearcase.py] (class
    [ClearCaseClient]) and of [read_text_file] from
    [rbtools/utils/filesystem.py].

    Python 2 byte strings ([str]) are Rocq [string]s, Python lists are lists,
    the two dictionaries of the branch reducer are [gmap]s, and the effects
    of the client (reading files, running [diff], [patch] and
    [cleartool describe], logging, raising) are threaded through a small
    trace-and-exception monad.  The host is POSIX: [cpath] is [posixpath] and
    [os.linesep] is a single line feed. *)

From Stdlib Require Import ZArith Ascii.
From Stdlib Require DecimalString DecimalNat.
From stdpp Require Import gmap strings list fin_maps sorting.

#[local] Set Warnings "-clear-no-such-hyp".

Open Scope Z_scope.

(** ** Python string primitives *)

Module Py.

Definition LF : ascii := "010"%char.
Definition CR : ascii := "013"%char.
Definition NUL : ascii := "000"%char.

(** [os.linesep] on a POSIX host. *)
Definition linesep : string := String LF "".

(** [s.startswith(p)] *)
Fixpoint startswith (s p : string) : bool :=
  match p, s with
  | "", _ => true
  | String a p', String b s' => if Ascii.eqb a b then startswith s' p' else false
  | String _ _, "" => false
  end.

(** [s.endswith(p)]: [p] is a prefix of some suffix reaching the end. *)
Fixpoint endswith (s p : string) : bool :=
  if String.eqb s p then true
  else match s with
       | "" => false
       | String _ s' => endswith s' p
       end.

(** [c in s] for a one-character [c]. *)
Fixpoint contains (c : ascii) (s : string) : bool :=
  match s with
  | "" => false
  | String a s' => if Ascii.eqb a c then true else contains c s'
  end.

(** [sep.join(l)] *)
Fixpoint join (sep : string) (l : list string) : string :=
  match l with
  | [] => ""
  | [x] => x
  | x :: l' => x +:+ sep +:+ join sep l'
  end.

(** [''.join(l)] *)
Definition concat (l : list string) : string := foldr String.app "" l.

(** [s.splitlines(keepends)] on a byte string: a line ends at a line feed,
    at a carriage return, or at a carriage return followed by a line feed;
    no empty last line is produced when the text ends with a terminator.
    [cur] is the line read so far. *)
Fixpoint splitlines_go (keepends : bool) (cur s : string) : list string :=
  match s with
  | "" => if String.eqb cur "" then [] else [cur]
  | String c r =>
      if Ascii.eqb c LF then
        (cur +:+ (if keepends then String LF "" else "")) :: splitlines_go keepends "" r
      else if Ascii.eqb c CR then
        match r with
        | String c' r' =>
            if Ascii.eqb c' LF then
              (cur +:+ (if keepends then String CR (String LF "") else ""))
                :: splitlines_go keepends "" r'
            else
              (cur +:+ (if keepends then String CR "" else ""))
                :: splitlines_go keepends "" r
        | "" => [cur +:+ (if keepends then String CR "" else "")]
        end
      else splitlines_go keepends (cur +:+ String c "") r
  end.

Definition splitlines (keepends : bool) (s : string) : list string :=
  splitlines_go keepends "" s.

(** The idiom shared by [_content_diff], [_patch] and [read_text_file]:
<<
    eof_endl = s.endswith('\n')
    l = s.splitlines()
    if eof_endl: l.append('')
>> *)
Definition lines_eof (s : string) : list string :=
  let eof_endl := endswith s (String LF "") in
  let l := splitlines false s in
  if eof_endl then l ++ [""] else l.

(** [posixpath.split(p)]: the text up to the last slash (with trailing
    slashes removed unless it consists of slashes only) and the text after
    the last slash. *)
Fixpoint split_go (s head cur : string) : string * string :=
  match s with
  | "" => (head, cur)
  | String c r =>
      if Ascii.eqb c "/" then split_go r (head +:+ cur +:+ "/") ""
      else split_go r head (cur +:+ String c "")
  end.

Fixpoint rstrip_slash (s : string) : string :=
  match s with
  | "" => ""
  | String c r =>
      let r' := rstrip_slash r in
      if String.eqb r' "" then (if Ascii.eqb c "/" then "" else String c "")
      else String c r'
  end.

Definition path_split (p : string) : string * string :=
  let '(head, tail) := split_go p "" "" in
  let stripped := rstrip_slash head in
  (if String.eqb stripped "" then head else stripped, tail).

(** [int(s)] of Python 2 in base 10: blanks around the literal (and between
    the sign and the digits) are skipped, the sign is optional, at least
    one decimal digit is required.  [None] stands for [ValueError]. *)
Fixpoint lstrip (s : string) : string :=
  match s with
  | String c r => if Ascii.is_space c then lstrip r else s
  | "" => ""
  end.

Definition digit (c : ascii) : option Z := Z.of_nat <$> Ascii.is_nat c.

Fixpoint digits_go (acc : Z) (s : string) : option Z :=
  match s with
  | "" => Some acc
  | String c r =>
      match digit c with
      | Some d => digits_go (10 * acc + d) r
      | None => if String.eqb (lstrip s) "" then Some acc else None
      end
  end.

Definition digits (s : string) : option Z :=
  match s with
  | String c _ => match digit c with Some _ => digits_go 0 s | None => None end
  | "" => None
  end.

Definition int (s : string) : option Z :=
  match lstrip s with
  | String "+" r => digits (lstrip r)
  | String "-" r => Z.opp <$> digits (lstrip r)
  | t => digits t
  end.

End Py.

(** ** Version model *)

(** The result of [_determine_version]: an [int], or [float('inf')] for a
    checked-out version. *)
Inductive ordinal : Type :=
  | Num (n : Z)
  | Inf.

Global Instance ordinal_eq_dec : EqDecision ordinal.
Proof. solve_decision. Defined.

Global Instance ordinal_countable : Countable ordinal :=
  inj_countable'
    (λ o, match o with Num n => Some n | Inf => None end)
    (λ x, match x with Some n => Num n | None => Inf end)
    (λ o, match o with Num _ => eq_refl | Inf => eq_refl end).

(** Python's [a > b] on these numbers. *)
Definition ord_gtb (a b : ordinal) : bool :=
  match a, b with
  | Inf, Inf => false
  | Inf, Num _ => true
  | Num _, Inf => false
  | Num x, Num y => y <? x
  end.

(** Python's [a <= b], the order [sorted] uses. *)
Definition ord_leb (a b : ordinal) : bool := negb (ord_gtb a b).

(** Python's [a == 0]. *)
Definition ord_is_zero (a : ordinal) : bool :=
  match a with Num 0 => true | _ => false end.

Definition ord_le (a b : ordinal) : Prop := ord_leb a b = true.
Definition ord_lt (a b : ordinal) : Prop := ord_gtb b a = true.

Definition CHECKEDOUT : string := "CHECKEDOUT".

(** [_determine_version]; [None] is the [ValueError] of [int]. *)
Definition _determine_version (version_path : string) : option ordinal :=
  let '(branch, number) := Py.path_split version_path in
  if String.eqb number CHECKEDOUT then Some Inf
  else Num <$> Py.int number.

(** [_construct_extended_path] *)
Definition _construct_extended_path (path version : string) : string :=
  if String.eqb version "" || Py.endswith version CHECKEDOUT then path
  else path +:+ "@@" +:+ version.

(** ** The world outside the client *)

(** What a path names in the (versioned) file system.  [Absent] covers every
    reason for [os.path.exists] to answer [False]; [Denied] is a file that is
    there but cannot be opened. *)
Inductive node : Type :=
  | Absent
  | Denied
  | Dir (entries : list string)
  | File (data : string).

(** The external collaborators.  A tool answering [None] ended with a status
    that [execute] does not tolerate. *)
Record env : Type := Env {
  fs : string → node;
  (** [diff [-uN] old new] on two files holding the given texts *)
  diff_tool : bool → string → string → option string;
  (** [patch -r rej -o out -i patch content]: standard output and the text
      left in the output file *)
  patch_tool : string → string → option (string * string);
  (** [cleartool describe -fmt %On path] *)
  describe_tool : string → option string
}.

Inductive command : Type :=
  | CmdDiff (unified : bool) (old new : string)
  | CmdPatch (content patch : string)
  | CmdDescribe (path : string).

Inductive event : Type :=
  | Debug (msg : string)
  | Exec (cmd : command).

Inductive exn : Type :=
  | IOError (file : string)
  | OSError (file : string)
  | ValueError (literal : string)
  | Die (cmd : command).

Inductive result (A : Type) : Type :=
  | Ok (a : A)
  | Raise (e : exn).
Arguments Ok {A} a.
Arguments Raise {A} e.

(** Computations: the trace of events so far goes in, an outcome and the
    extended trace come out. *)
Definition M (A : Type) : Type := list event → result A * list event.

Definition ret {A} (a : A) : M A := λ tr, (Ok a, tr).

Definition bind {A B} (c : M A) (k : A → M B) : M B :=
  λ tr, match c tr with
        | (Ok a, tr') => k a tr'
        | (Raise e, tr') => (Raise e, tr')
        end.

Definition raise {A} (e : exn) : M A := λ tr, (Raise e, tr).

Definition emit (ev : event) : M unit := λ tr, (Ok tt, tr ++ [ev]).

Notation "x <-- c ;; k" := (bind c (λ x, k))
  (at level 100, c at next level, right associativity).
Notation "c ;;; k" := (bind c (λ _, k))
  (at level 100, right associativity).

(** A [for x in l:] loop that updates the loop state [s]. *)
Fixpoint foldM {A S} (body : S → A → M S) (l : list A) (s : S) : M S :=
  match l with
  | [] => ret s
  | x :: l' => s' <-- body s x ;; foldM body l' s'
  end.

(** [logging.debug(msg)] *)
Definition debug (msg : string) : M unit := emit (Debug msg).

(** [execute(cmd)] for the three external commands. *)
Definition execute_diff (E : env) (unified : bool) (old new : string) : M string :=
  emit (Exec (CmdDiff unified old new)) ;;;
  match diff_tool E unified old new with
  | Some out => ret out
  | None => raise (Die (CmdDiff unified old new))
  end.

Definition execute_patch (E : env) (content patch : string) : M (string * string) :=
  emit (Exec (CmdPatch content patch)) ;;;
  match patch_tool E content patch with
  | Some out => ret out
  | None => raise (Die (CmdPatch content patch))
  end.

Definition execute_describe (E : env) (path : string) : M string :=
  emit (Exec (CmdDescribe path)) ;;;
  match describe_tool E path with
  | Some out => ret out
  | None => raise (Die (CmdDescribe path))
  end.

(** [cpath.isdir], [cpath.exists], [os.listdir], [open(f).read()] *)
Definition isdir (E : env) (f : string) : bool :=
  match fs E f with Dir _ => true | _ => false end.

Definition exists_ (E : env) (f : string) : bool :=
  match fs E f with Absent => false | _ => true end.

Definition listdir (E : env) (f : string) : M (list string) :=
  match fs E f with Dir l => ret l | _ => raise (OSError f) end.

Definition read_file (E : env) (f : string) : M string :=
  match fs E f with File data => ret data | _ => raise (IOError f) end.

(** ** [read_text_file] *)

Definition chunksize : nat := 1024.

(** The successive non-empty answers of [fd.read(n)]: [room] characters still
    fit into the chunk [cur] being filled. *)
Fixpoint chunks_go (n room : nat) (cur s : string) : list string :=
  match s with
  | "" => if String.eqb cur "" then [] else [cur]
  | String c r =>
      match room with
      | O => cur :: chunks_go n (Nat.pred n) (String c "") r
      | S room' => chunks_go n room' (cur +:+ String c "") r
      end
  end.

Definition chunks (n : nat) (s : string) : list string := chunks_go n n "" s.

(** The exit of the loop of [read_text_file]:
<<
      eof_endl = content.endswith('\n')
      content = content.splitlines(keepends)
      if not keepends and eof_endl:
          content.append('')
      return content
>> *)
Definition read_finish (keepends : bool) (content : string) : list string :=
  let eof_endl := Py.endswith content (String Py.LF "") in
  let l := Py.splitlines keepends content in
  if negb keepends && eof_endl then l ++ [""] else l.

(** The [while 1:] loop.  After the last chunk [fd.read] answers [''], which
    holds no NUL and ends the loop. *)
Fixpoint read_loop (keepends : bool) (reads : list string) (content : string)
  : option (list string) :=
  match reads with
  | [] => Some (read_finish keepends content)
  | chunk :: reads' =>
      if Py.contains Py.NUL chunk then None
      else if String.eqb chunk "" then Some (read_finish keepends content)
      else read_loop keepends reads' (content +:+ chunk)
  end.

(** [None] is Python's [None] (a binary file). *)
Definition read_text_file (E : env) (file : string) (keepends : bool)
  : M (option (list string)) :=
  match fs E file with
  | File data => ret (read_loop keepends (chunks chunksize data) "")
  | _ => raise (IOError file)
  end.

(** ** [zlib.crc32] *)

Definition crc_poly : Z := 0xEDB88320.

Definition crc_shift (c : Z) : Z :=
  if Z.testbit c 0 then Z.lxor (Z.shiftr c 1) crc_poly else Z.shiftr c 1.

Definition crc_byte (crc : Z) (b : ascii) : Z :=
  Nat.iter 8 crc_shift (Z.lxor crc (Z.of_N (N_of_ascii b))).

Fixpoint crc_update (crc : Z) (s : string) : Z :=
  match s with
  | "" => crc
  | String b r => crc_update (crc_byte crc b) r
  end.

(** Python 2 answers a signed 32-bit number. *)
Definition crc32 (s : string) : Z :=
  let u := Z.lxor (crc_update 0xFFFFFFFF s) 0xFFFFFFFF in
  if 2 ^ 31 <=? u then u - 2 ^ 32 else u.

(** ** Content differ and patch applicator *)

Definition TAB : string := String "009"%char "".

(** [needle in s] *)
Fixpoint find_sub (needle s : string) : bool :=
  if Py.startswith s needle then true
  else match s with
       | "" => false
       | String _ s' => find_sub needle s'
       end.

(** What [_diff] hands back: [None], the empty unicode string [u''], or a
    list of lines. *)
Inductive diff_out : Type :=
  | DNone
  | DEmptyU
  | DLines (l : list string).

(** Python truth of a list: [if l:] *)
Definition nonempty {A} (l : list A) : bool :=
  match l with [] => false | _ => true end.

(** The header fix-up at the end of [_content_diff]:
<<
      if unified and dl and len(dl) > 1:
          if dl[0].startswith('---') and dl[1].startswith('+++'):
              dl[0] = '--- %s\t' % old_file
              dl[1] = '+++ %s\t' % new_file
>> *)
Definition fix_headers (unified : bool) (old_file new_file : string)
    (dl : list string) : list string :=
  if unified && nonempty dl && (1 <? length dl)%nat then
    match dl with
    | l0 :: l1 :: rest =>
        if Py.startswith l0 "---" && Py.startswith l1 "+++" then
          ("--- " +:+ old_file +:+ TAB) :: ("+++ " +:+ new_file +:+ TAB) :: rest
        else dl
    | _ => dl
    end
  else dl.

(** [_content_diff] *)
Definition _content_diff (E : env) (old_content new_content : list string)
    (old_file new_file : string) (unified : bool) : M (list string) :=
  let old_tmp := Py.join Py.linesep old_content in
  let new_tmp := Py.join Py.linesep new_content in
  dl <-- execute_diff E unified old_tmp new_tmp ;;
  let dl := Py.lines_eof dl in
  ret (fix_headers unified old_file new_file dl).

(** [_patch] *)
Definition _patch (E : env) (content patch : list string) : M (list string) :=
  let content_file := Py.join Py.linesep content in
  let patch_file := Py.join Py.linesep patch in
  out <-- execute_patch E content_file patch_file ;;
  let '(output, patched) := out in
  (if find_sub "FAILED at" output then
     debug "patching content FAILED:" ;;; debug output
   else ret tt) ;;;
  ret (Py.lines_eof patched).

(** Python's [sorted] on strings and on version numbers. *)
Global Instance ord_le_dec : RelDecision ord_le.
Proof. intros a b. unfold ord_le. apply _. Defined.

Definition sorted_str (l : list string) : list string := merge_sort String.le l.
Definition sorted_ord (l : list ordinal) : list ordinal := merge_sort ord_le l.

(** One turn of the exclusion loop of [_diff]:
<<
      patched = self._patch(new_content, patch)
      if patched:
          new_content = patched
>> *)
Definition xpatch_step (E : env) (new_content patch : list string) : M (list string) :=
  patched <-- _patch E new_content patch ;;
  ret (if nonempty patched then patched else new_content).

(** The exclusion block of [_diff]:
<<
      if xpatches:
          for patch in reversed(xpatches):
              ...
>> *)
Definition apply_xpatches (E : env) (xpatches : option (list (list string)))
    (new_content : list string) : M (list string) :=
  match xpatches with
  | Some ((_ :: _) as xs) => foldM (xpatch_step E) (rev xs) new_content
  | _ => ret new_content
  end.

(** The first block of [_diff]: the two contents ([None] inside for a binary
    file), or [None] for the early [return None]. *)
Definition read_contents (E : env) (old_file new_file : string)
  : M (option (option (list string) * option (list string))) :=
  if isdir E new_file then
    old_l <-- listdir E old_file ;;
    new_l <-- listdir E new_file ;;
    ret (Some (Some (sorted_str old_l ++ [""]), Some (sorted_str new_l ++ [""])))
  else if exists_ E new_file then
    old_content <-- read_text_file E old_file false ;;
    new_content <-- read_text_file E new_file false ;;
    ret (Some (old_content, new_content))
  else
    debug ("File " +:+ new_file +:+ " does not exist or access is denied.") ;;;
    ret None.

(** [_diff] *)
Definition _diff (E : env) (old_file new_file : string)
    (xpatches : option (list (list string))) (unified : bool) : M diff_out :=
  contents <-- read_contents E old_file new_file ;;
  match contents with
  | None => ret DNone
  | Some (Some old_content, Some new_content) =>
      new_content <-- apply_xpatches E xpatches new_content ;;
      dl <-- _content_diff E old_content new_content old_file new_file unified ;;
      ret (DLines dl)
  | Some _ =>
      old_data <-- read_file E old_file ;;
      new_data <-- read_file E new_file ;;
      if bool_decide (crc32 old_data = crc32 new_data) then ret DEmptyU else ret DNone
  end.

(** ** Changeset reducers *)

Record options : Type := Options { xmerge : bool; opt_debug : bool }.

(** A raw record of the branch query: path, previous version, current
    version and hyperlink annotations. *)
Record change : Type := Change {
  c_path : string;
  c_previous : string;
  c_current : string;
  c_hlinks : string
}.

(** The value kept per path in [changelist]. *)
Record tracked : Type := Tracked {
  highest : ordinal;
  current : string;
  previous : string
}.

(** An entry handed to [do_diff]: old address, new address, exclusion
    fragments ([None] in checkout mode). *)
Definition entry : Type := string * string * option (list (list string)).

(** [HLINK_MERGE.match(hlinks)].  Writing Q for the double quote, the pattern
    is [QMerge@.*?Q <- Q.*Q]: the text starts with [QMerge@], later on the
    same line comes [Q <- Q], and later on that line a closing quote. *)
Definition QUOTE : ascii := "034"%char.

Fixpoint quote_on_line (s : string) : bool :=
  match s with
  | "" => false
  | String c r =>
      if Ascii.eqb c QUOTE then true
      else if Ascii.eqb c Py.LF then false
      else quote_on_line r
  end.

Definition strip_prefix (p s : string) : option string :=
  if Py.startswith s p then Some (String.substring (String.length p)
                                    (String.length s - String.length p) s)
  else None.

Definition ARROW : string := String QUOTE (" <- " +:+ String QUOTE "").

Fixpoint arrow_on_line (s : string) : bool :=
  (match strip_prefix ARROW s with
   | Some rest => quote_on_line rest
   | None => false
   end)
  || match s with
     | "" => false
     | String c r => if Ascii.eqb c Py.LF then false else arrow_on_line r
     end.

Definition hlink_merge_match (hlinks : string) : bool :=
  match strip_prefix (String QUOTE "Merge@") hlinks with
  | Some rest => arrow_on_line rest
  | None => false
  end.

(** [str(n)] for a length. *)
Definition str_of_nat (n : nat) : string :=
  DecimalString.NilZero.string_of_uint (Nat.to_uint n).

(** The two updates of [changelist] in the first loop of
    [_sanitize_branch_changeset]: the seeding
<<
      if path not in changelist:
          changelist[path] = {'highest': version_number,
                              'current': current, 'previous': previous}
>>
    and the tracking
<<
      if version_number == 0:
          changelist[path]['previous'] = previous
      elif version_number > changelist[path]['highest']:
          changelist[path]['highest'] = version_number
          changelist[path]['current'] = current
>> *)
Definition seed (path prev cur : string) (version_number : ordinal)
    (changelist : gmap string tracked) : gmap string tracked :=
  match changelist !! path with
  | None => <[path := Tracked version_number cur prev]> changelist
  | Some _ => changelist
  end.

Definition advance_tracked (prev cur : string) (version_number : ordinal)
    (t : tracked) : tracked :=
  if ord_is_zero version_number then Tracked (highest t) (current t) prev
  else if ord_gtb version_number (highest t) then Tracked version_number cur (previous t)
  else t.

Definition advance (path prev cur : string) (version_number : ordinal)
    (changelist : gmap string tracked) : gmap string tracked :=
  alter (advance_tracked prev cur version_number) path changelist.

(** The body of the first loop of [_sanitize_branch_changeset]. *)
Definition branch_step (E : env) (O : options)
    (st : gmap string tracked * gmap string (gmap ordinal (list string)))
    (r : change) : M (gmap string tracked * gmap string (gmap ordinal (list string))) :=
  let '(changelist, xpatchlist) := st in
  let '(Change path prev cur hlinks) := r in
  version_number <--
    match _determine_version cur with
    | Some v => ret v
    | None => raise (ValueError cur)
    end ;;
  let changelist := seed path prev cur version_number changelist in
  xpatchlist <--
    (if xmerge O && hlink_merge_match hlinks then
       let xpatchlist :=
         match xpatchlist !! path with
         | None => <[path := ∅]> xpatchlist
         | Some _ => xpatchlist
         end in
       diff <-- _diff E (_construct_extended_path path cur)
                       (_construct_extended_path path prev) None false ;;
       match diff with
       | DLines ((_ :: _) as d) => ret (alter (insert version_number d) path xpatchlist)
       | _ => ret xpatchlist
       end
     else ret xpatchlist) ;;
  ret (advance path prev cur version_number changelist, xpatchlist).

(** The list comprehension
<<
      [xpatchlist[path][i] for i in sorted(xpatchlist[path])]
>>
    together with the keys it walks through. *)
Definition xpatch_items (m : gmap ordinal (list string)) : list (ordinal * list string) :=
  omap (λ i, (λ d, (i, d)) <$> m !! i) (sorted_ord (map fst (map_to_list m))).

Definition xpatches_of (xpatchlist : gmap string (gmap ordinal (list string)))
    (path : string) : list (list string) :=
  match xpatchlist !! path with
  | Some m => map snd (xpatch_items m)
  | None => []
  end.

(** The tuple appended to [changeranges] for one item of [changelist]. *)
Definition entry_of (xpatchlist : gmap string (gmap ordinal (list string)))
    (item : string * tracked) : entry :=
  let '(path, version) := item in
  (_construct_extended_path path (previous version),
   _construct_extended_path path (current version),
   Some (xpatches_of xpatchlist path)).

(** The body of the second loop of [_sanitize_branch_changeset]. *)
Definition emit_step (O : options)
    (xpatchlist : gmap string (gmap ordinal (list string)))
    (changeranges : list entry) (item : string * tracked) : M (list entry) :=
  let e := entry_of xpatchlist item in
  (if opt_debug O then
     debug ("adding changelist item: (" +:+ e.1.1 +:+ ", " +:+ e.1.2 +:+ ", "
            +:+ str_of_nat (length (default [] e.2)) +:+ ")")
   else ret tt) ;;;
  ret (changeranges ++ [e]).

(** [_sanitize_branch_changeset]; [changelist.iteritems()] walks the
    dictionary in the order of [map_to_list]. *)
Definition _sanitize_branch_changeset (E : env) (O : options)
    (changeset : list change) : M (list entry) :=
  st <-- foldM (branch_step E O) changeset (∅, ∅) ;;
  let '(changelist, xpatchlist) := st in
  foldM (emit_step O xpatchlist) (map_to_list changelist) [].

(** [_sanitize_checkedout_changeset] on records (path, previous, current). *)
Definition _sanitize_checkedout_changeset
    (changeset : list (string * string * string)) : list entry :=
  map (λ '(path, prev, cur),
         (_construct_extended_path path prev,
          _construct_extended_path path cur,
          None)) changeset.

(** ** Diff assembler *)

(** [l.insert(i, x)]: past the end of the list it appends. *)
Definition list_insert_at {A} (i : nat) (x : A) (l : list A) : list A :=
  take i l ++ x :: drop i l.

Definition oid_line_of (old_oid new_oid : string) : string :=
  "==== " +:+ old_oid +:+ " " +:+ new_oid +:+ " ====".

(** The [if dl is None: ... elif not dl: ... else: ...] of [do_diff]. *)
Definition render (oid_line old_file new_file : string) (dl : diff_out) : list string :=
  match dl with
  | DNone =>
      [oid_line; "Binary files " +:+ old_file +:+ " and " +:+ new_file +:+ " differ"; ""]
  | DEmptyU | DLines [] =>
      [oid_line; "File " +:+ new_file +:+ " in your changeset is unmodified"; ""]
  | DLines dl => list_insert_at 2 oid_line dl
  end.

(** The body of the loop of [do_diff]. *)
Definition do_diff_step (E : env) (diff : list string) (e : entry) : M (list string) :=
  let '(old_file, new_file, xpatches) := e in
  old_oid <-- execute_describe E old_file ;;
  new_oid <-- execute_describe E new_file ;;
  dl <-- _diff E old_file new_file xpatches true ;;
  let oid_line := oid_line_of old_oid new_oid in
  ret (diff ++ [Py.join Py.linesep (render oid_line old_file new_file dl)]).

(** [do_diff]; the second component is Python's [None]. *)
Definition do_diff (E : env) (changeset : list entry) : M (string * option string) :=
  diff <-- foldM (do_diff_step E) changeset [] ;;
  ret (Py.concat diff, None).

(** The three kinds of result the assembler tells apart. *)
Inductive diff_kind : Type := Binary | Empty | Lines.

Definition kind_of (dl : diff_out) : diff_kind :=
  match dl with
  | DNone => Binary
  | DEmptyU | DLines [] => Empty
  | DLines _ => Lines
  end.

(** Running a computation from the empty trace. *)
Definition run {A} (c : M A) : result A * list event := c [].

(** The texts handed to the patch mechanism, in the order of the calls. *)
Definition patches_run (tr : list event) : list string :=
  omap (λ ev, match ev with Exec (CmdPatch _ p) => Some p | _ => None end) tr.

(** The messages logged, in order. *)
Definition logged (tr : list event) : list string :=
  omap (λ ev, match ev with Debug m => Some m | _ => None end) tr.

(** ** Vocabulary of the statements *)

(** The version number of a raw record. *)
Definition ord_of (r : change) : option ordinal := _determine_version (c_current r).

(** The records of one path, in the order of the changeset. *)
Definition records_of (path : string) (changeset : list change) : list change :=
  filter (λ r, c_path r = path) changeset.

(** A version that denotes the checked-out sentinel: its leaf segment is
    [CHECKEDOUT], which is the test of [_determine_version], the version
    model; such a version is numbered infinity. *)
Definition checked_out_sentinel (version : string) : Prop :=
  _determine_version version = Some Inf.

(** How a list of lines marks the end of the raw text [raw] it was split
    from: an empty last element when [raw] ends with a line feed, none when
    [raw] ends with an ordinary character. *)
Definition eof_marked (raw : string) (l : list string) : Prop :=
  (Py.endswith raw Py.linesep = true → last l = Some "")
  ∧ (Py.endswith raw Py.linesep = false →
     Py.endswith raw (String Py.CR "") = false → last l ≠ Some "").

(** The message [_diff] logs for a new address that is not there. *)
Definition absent_msg (new_file : string) : string :=
  "File " +:+ new_file +:+ " does not exist or access is denied.".

(** ** Sample worlds *)

(** A file system given by a list of named nodes. *)
Fixpoint fs_of (files : list (string * node)) (f : string) : node :=
  match files with
  | [] => Absent
  | (name, n) :: files' => if String.eqb name f then n else fs_of files' f
  end.

Definition oid_of (path : string) : option string := Some ("oid:" +:+ path).

Definition nl (s : string) : string := s +:+ Py.linesep.

(** A patch mechanism that leaves a line feed and a stray carriage return in
    its output file. *)
Definition world_cr : env :=
  Env (fs_of [])
      (λ _ _ _, Some "")
      (λ content _, Some ("", nl content +:+ String Py.CR ""))
      oid_of.

(** A patch mechanism that copies its input, and a diff mechanism that
    reports a one-line change. *)
Definition world_lf : env :=
  Env (fs_of [])
      (λ _ old new, if String.eqb old new then Some ""
                    else Some (nl "1c1" +:+ nl ("< " +:+ old) +:+ nl "---" +:+ nl ("> " +:+ new)))
      (λ content _, Some ("", nl content))
      oid_of.

(** No exclusion fragments to apply: [if xpatches:] is false. *)
Definition no_exclusion (xpatches : option (list (list string))) : Prop :=
  xpatches = None ∨ xpatches = Some [].

(** A few text and binary files, a diff mechanism that prints a hunk for two
    different texts of one line each (line feed included), and a patch
    mechanism that copies its input. *)
Definition unified_hunk (old new : string) : string :=
  nl ("--- /tmp/tmpA" +:+ TAB +:+ "2012-01-01") +:+
  nl ("+++ /tmp/tmpB" +:+ TAB +:+ "2012-01-02") +:+
  nl "@@ -1 +1 @@" +:+ "-" +:+ old +:+ "+" +:+ new.

Definition plain_hunk (old new : string) : string :=
  nl "1c1" +:+ "< " +:+ old +:+ nl "---" +:+ "> " +:+ new.

Definition world_files : env :=
  Env (fs_of [("a.txt", File (nl "x")); ("b.txt", File (nl "x"));
              ("c.txt", File (nl "y"));
              ("bin1", File (String Py.NUL "abc"));
              ("bin2", File (String Py.NUL "abd"));
              ("bin3", File (String Py.NUL "abc"));
              ("locked.txt", Denied)])
      (λ unified old new,
         if String.eqb old new then Some ""
         else Some (if unified then unified_hunk old new else plain_hunk old new))
      (λ content _, Some ("", content))
      oid_of.

(** A world with the given files and the tools of [world_files]. *)
Definition world_with (files : list (string * node)) : env :=
  Env (fs_of files) (diff_tool world_files) (patch_tool world_files) oid_of.

(** A patch mechanism that leaves its output file empty. *)
Definition world_empty_patch : env :=
  Env (fs_of []) (diff_tool world_files) (λ _ _, Some ("1 out of 1 hunk FAILED at 1", "")) oid_of.

(** ** Vocabulary of the branch reduction *)

(** [r] is the first record of [rs] that carries the largest version number
    of [rs]. *)
Definition first_max (rs : list change) (r : change) : Prop :=
  ∃ pre post o,
    rs = pre ++ r :: post ∧ ord_of r = Some o
    ∧ Forall (λ r', ∃ o', ord_of r' = Some o' ∧ ord_lt o' o) pre
    ∧ Forall (λ r', ∃ o', ord_of r' = Some o' ∧ ord_le o' o) post.

(** [r] is the last record of [rs] that carries the largest version number
    of [rs]. *)
Definition last_max (rs : list change) (r : change) : Prop :=
  ∃ pre post o,
    rs = pre ++ r :: post ∧ ord_of r = Some o
    ∧ Forall (λ r', ∃ o', ord_of r' = Some o' ∧ ord_le o' o) pre
    ∧ Forall (λ r', ∃ o', ord_of r' = Some o' ∧ ord_lt o' o) post.

(** [prev] is the previous version of the last record of [rs] numbered zero,
    or, when no record is numbered zero, of the first record of [rs]. *)
Definition baseline (rs : list change) (prev : string) : Prop :=
  (∃ pre r post,
     rs = pre ++ r :: post ∧ ord_of r = Some (Num 0)
     ∧ Forall (λ r', ord_of r' ≠ Some (Num 0)) post
     ∧ prev = c_previous r)
  ∨ (Forall (λ r', ord_of r' ≠ Some (Num 0)) rs
     ∧ ∃ r0 rest, rs = r0 :: rest ∧ prev = c_previous r0).

(** No version number of the changeset is negative. *)
Definition versions_nonneg (changeset : list change) : Prop :=
  Forall (λ r, ∀ o, ord_of r = Some o → ord_le (Num 0) o) changeset.

(** The fragment [d] was recorded for [path] under the version number [i]:
    some record of the path carries that number and a merge hyperlink, the
    exclusion option is on, and [d] is the non-empty plain diff from its
    current to its previous version. *)
Definition recorded (E : env) (O : options) (changeset : list change)
    (path : string) (i : ordinal) (d : list string) : Prop :=
  ∃ r, r ∈ changeset ∧ c_path r = path ∧ ord_of r = Some i
       ∧ xmerge O = true ∧ hlink_merge_match (c_hlinks r) = true ∧ d ≠ []
       ∧ ∃ tr0 tr1,
           _diff E (_construct_extended_path path (c_current r))
                   (_construct_extended_path path (c_previous r)) None false tr0
           = (Ok (DLines d), tr1).

(** The effect of one record on [changelist], and on the value kept for its
    path. *)
Definition track (changelist : gmap string tracked) (r : change) : gmap string tracked :=
  match ord_of r with
  | Some v =>
      advance (c_path r) (c_previous r) (c_current r) v
        (seed (c_path r) (c_previous r) (c_current r) v changelist)
  | None => changelist
  end.

Definition step_path (s : option tracked) (r : change) : option tracked :=
  match ord_of r with
  | Some v =>
      Some (advance_tracked (c_previous r) (c_current r) v
              (default (Tracked v (c_current r) (c_previous r)) s))
  | None => s
  end.

(** ** Sample changesets *)

(** Scenario B: three versions of [foo.c] on a branch, numbered 0, 1, 2. *)
Definition cs_scenario_b : list change :=
  [Change "foo.c" "/main/0" "/main/br/0" "";
   Change "foo.c" "/main/br/0" "/main/br/1" "";
   Change "foo.c" "/main/br/1" "/main/2" ""].

(** Two records of one path with the same version number on two branches of
    one type. *)
Definition tie_first : change := Change "foo.c" "/main/3" "/main/a/br/1" "".
Definition tie_last : change := Change "foo.c" "/main/a/4" "/main/b/br/1" "".
Definition cs_tie : list change := [tie_first; tie_last].

Definition no_options : options := Options false false.

(** A branch with two merge versions of [f.c]. *)
Definition merge_link : string :=
  String QUOTE "Merge@7" +:+ ARROW +:+ "f.c@@/main/other/3" +:+ String QUOTE "".

Definition world_merge : env :=
  world_with [("f.c@@/main/0", File (nl "base"));
              ("f.c@@/main/br/0", File (nl "base"));
              ("f.c@@/main/br/1", File (nl "one"));
              ("f.c@@/main/br/2", File (nl "two"))].

Definition cs_merge : list change :=
  [Change "f.c" "/main/0" "/main/br/0" "";
   Change "f.c" "/main/br/1" "/main/br/2" merge_link;
   Change "f.c" "/main/br/0" "/main/br/1" merge_link].

Definition merge_options : options := Options true false.

(** The fragments of [cs_merge] in [world_merge], with the version numbers
    they are recorded under. *)
Definition merge_items : list (ordinal * list string) :=
  [(Num 1, ["1c1"; "< one"; "---"; "> base"; ""]);
   (Num 2, ["1c1"; "< two"; "---"; "> one"; ""])].

(** ** Vocabulary of the assembler *)

Definition binary_placeholder (oid_line old_file new_file : string) : list string :=
  [oid_line; "Binary files " +:+ old_file +:+ " and " +:+ new_file +:+ " differ"; ""].

Definition unmodified_placeholder (oid_line new_file : string) : list string :=
  [oid_line; "File " +:+ new_file +:+ " in your changeset is unmodified"; ""].

(** [r] is the rendering of the entry [e]: the lines [render] makes of some
    result of [_diff] on the entry, joined by line separators. *)
Definition rendering_of (E : env) (e : entry) (r : string) : Prop :=
  ∃ old_oid new_oid dl tr0 tr1,
    describe_tool E e.1.1 = Some old_oid
    ∧ describe_tool E e.1.2 = Some new_oid
    ∧ _diff E e.1.1 e.1.2 e.2 true tr0 = (Ok dl, tr1)
    ∧ r = Py.join Py.linesep (render (oid_line_of old_oid new_oid) e.1.1 e.1.2 dl).

(** Scenario A and its neighbours: a modified text file, two different
    binary files, two equal text files. *)
Definition cs_mixed : list entry :=
  [("a.txt", "c.txt", None); ("bin1", "bin2", None); ("a.txt", "b.txt", None)].

Definition text_mixed : string :=
  nl ("--- a.txt" +:+ TAB) +:+ nl ("+++ c.txt" +:+ TAB) +:+
  nl "==== oid:a.txt oid:c.txt ====" +:+
  nl "@@ -1 +1 @@" +:+ nl "-x" +:+ nl "+y" +:+
  nl "==== oid:bin1 oid:bin2 ====" +:+
  nl "Binary files bin1 and bin2 differ" +:+
  nl "==== oid:a.txt oid:b.txt ====" +:+
  nl "File b.txt in your changeset is unmodified".

(** An entry whose new address is gone, followed by a modified text file. *)
Definition cs_new_gone : list entry :=
  [("a.txt", "gone.txt", None); ("a.txt", "c.txt", None)].

Definition text_new_gone : string :=
  nl "==== oid:a.txt oid:gone.txt ====" +:+
  nl "Binary files a.txt and gone.txt differ" +:+
  nl ("--- a.txt" +:+ TAB) +:+ nl ("+++ c.txt" +:+ TAB) +:+
  nl "==== oid:a.txt oid:c.txt ====" +:+
  nl "@@ -1 +1 @@" +:+ nl "-x" +:+ nl "+y".

(** An entry whose old address is gone, followed by a modified text file. *)
Definition cs_old_gone : list entry :=
  [("gone.txt", "a.txt", None); ("a.txt", "c.txt", None)].

(** ** Vocabulary of the exclusion *)

(** The commands run, in the order of the calls. *)
Definition commands_run (tr : list event) : list command :=
  omap (λ ev, match ev with Exec cmd => Some cmd | _ => None end) tr.

(** A computation whose outcome and events do not depend on the events
    before it. *)
Definition uniform {A} (c : M A) : Prop :=
  ∃ r evs, ∀ tr, c tr = (r, tr ++ evs).

(** The fragments [fragments] applied in turn to [content], the first of
    the list first: the calls of the patch mechanism this takes and the
    content it leaves.  Every fragment is applied to the content that the
    fragment before it left, which is what the patch mechanism made of it
    unless that is empty.  [None]: the patch mechanism failed. *)
Fixpoint applied_in_turn (E : env) (fragments : list (list string))
    (content : list string) : list command * option (list string) :=
  match fragments with
  | [] => ([], Some content)
  | patch :: rest =>
      let call := CmdPatch (Py.join Py.linesep content) (Py.join Py.linesep patch) in
      match patch_tool E (Py.join Py.linesep content) (Py.join Py.linesep patch) with
      | Some (_, raw) =>
          let patched := Py.lines_eof raw in
          let next :=
            applied_in_turn E rest (if nonempty patched then patched else content) in
          (call :: next.1, next.2)
      | None => ([call], None)
      end
  end.

(** [_diff], run from [tr] to [tr'] with the answer [l], applied the
    fragments [items] newest first: they were handed to the patch mechanism
    in the reverse of their order, which is the descending order of the
    version numbers they were recorded under, each applied to the content
    the one before it left and the first to the content of the new file;
    the diff mechanism then compared the old content with the content the
    last one left, and [l] is its answer. *)
Definition applied_newest_first (E : env) (old_file new_file : string)
    (unified : bool) (items : list (ordinal * list string))
    (tr : list event) (l : list string) (tr' : list event) : Prop :=
  ∃ old_content new_content final raw,
    read_contents E old_file new_file tr
    = (Ok (Some (Some old_content, Some new_content)), tr)
    ∧ (applied_in_turn E (map snd (rev items)) new_content).2 = Some final
    ∧ commands_run tr'
      = commands_run tr ++ (applied_in_turn E (map snd (rev items)) new_content).1
        ++ [CmdDiff unified (Py.join Py.linesep old_content) (Py.join Py.linesep final)]
    ∧ diff_tool E unified (Py.join Py.linesep old_content) (Py.join Py.linesep final)
      = Some raw
    ∧ l = fix_headers unified old_file new_file (Py.lines_eof raw)
    ∧ patches_run tr' = patches_run tr ++ map (λ it, Py.join Py.linesep it.2) (rev items)
    ∧ StronglySorted (flip ord_lt) (map fst (rev items)).

(** The files of [world_merge] with a patch mechanism that takes the two
    merges of [cs_merge] back: the fragment recorded under version 2 turns
    the text of version 2 into that of version 1, the fragment recorded
    under version 1 turns the text of version 1 into the base text; any
    other content is left as it is. *)
Definition world_patching : env :=
  Env (fs world_merge) (diff_tool world_files)
      (λ content patch,
         Some ("",
               if String.eqb patch (plain_hunk (nl "two") (nl "one"))
                  && String.eqb content (nl "two") then nl "one"
               else if String.eqb patch (plain_hunk (nl "one") (nl "base"))
                       && String.eqb content (nl "one") then nl "base"
               else content))
      oid_of.

(** ** The queries and the entry points *)

(** [s.split(sep)] for a separator of one character: never empty. *)
Fixpoint str_split_go (sep : ascii) (cur s : string) : list string :=
  match s with
  | "" => [cur]
  | String c r =>
      if Ascii.eqb c sep then cur :: str_split_go sep "" r
      else str_split_go sep (cur +:+ String c "") r
  end.

Definition str_split (sep : ascii) (s : string) : list string :=
  str_split_go sep "" s.

Definition TABC : ascii := "009"%char.

(** [_construct_changeset].  [exclude_re] is [None] when no pattern was
    given, and otherwise tells whether [exclude_re.search] finds a match. *)
Definition construct_step (exclude_re : option (string → bool))
    (changeset : list (list string)) (info : string) : M (list (list string)) :=
  let change := str_split TABC info in
  let path := hd "" change in
  if from_option (λ re, re path) false exclude_re then
    debug ("excluding " +:+ path +:+ " from diff") ;;; ret changeset
  else ret (changeset ++ [change]).

Definition _construct_changeset (exclude_re : option (string → bool))
    (output : string) : M (list (list string)) :=
  foldM (construct_step exclude_re) (Py.splitlines false output) [].

(** The loop of [_sanitize_checkedout_changeset] on the lists
    [_construct_changeset] makes: [for path, previous, current in changeset]
    raises [ValueError] on a list that has not three elements. *)
Definition checkedout_step (changeranges : list entry) (change : list string)
  : M (list entry) :=
  match change with
  | [path; prev; cur] =>
      ret (changeranges ++ [(_construct_extended_path path prev,
                              _construct_extended_path path cur,
                              None)])
  | _ => raise (ValueError (Py.join TAB change))
  end.

Definition sanitize_checkedout_records (changeset : list (list string))
  : M (list entry) :=
  foldM checkedout_step changeset [].

(** [get_checkedout_changeset], from the output of the [lscheckout] query
    on. *)
Definition get_checkedout_changeset (exclude_re : option (string → bool))
    (output : string) : M (list entry) :=
  changeset <--
    (if String.eqb output "" then ret []
     else _construct_changeset exclude_re output) ;;
  sanitize_checkedout_records changeset.

(** The first loop of [_sanitize_branch_changeset] on such lists:
    [for path, previous, current, hlinks in changeset] raises [ValueError] on
    a list that has not four elements. *)
Definition branch_step_raw (E : env) (O : options)
    (st : gmap string tracked * gmap string (gmap ordinal (list string)))
    (change : list string)
  : M (gmap string tracked * gmap string (gmap ordinal (list string))) :=
  match change with
  | [path; prev; cur; hlinks] => branch_step E O st (Change path prev cur hlinks)
  | _ => raise (ValueError (Py.join TAB change))
  end.

Definition sanitize_branch_records (E : env) (O : options)
    (changeset : list (list string)) : M (list entry) :=
  st <-- foldM (branch_step_raw E O) changeset (∅, ∅) ;;
  let '(changelist, xpatchlist) := st in
  foldM (emit_step O xpatchlist) (map_to_list changelist) [].

(** [get_branch_changeset], from the output of the [find] query on. *)
Definition get_branch_changeset (E : env) (O : options)
    (exclude_re : option (string → bool)) (output : string) : M (list entry) :=
  changeset <--
    (if String.eqb output "" then ret []
     else _construct_changeset exclude_re output) ;;
  sanitize_branch_records E O changeset.

(** [diff]: [tracking] is [options.tracking], [output] the output of the
    query the mode runs. *)
Definition diff (E : env) (O : options) (exclude_re : option (string → bool))
    (tracking : string) (output : string) : M (string * option string) :=
  changeset <--
    (if negb (String.eqb tracking "") then get_branch_changeset E O exclude_re output
     else get_checkedout_changeset exclude_re output) ;;
  do_diff E changeset.

(** The slices [l[0::2]] and [l[1::2]]. *)
Fixpoint slice_even {A} (l : list A) : list A :=
  match l with
  | [] => []
  | x :: l' => x :: match l' with [] => [] | _ :: l'' => slice_even l'' end
  end.

Definition slice_odd {A} (l : list A) : list A :=
  match l with [] => [] | _ :: l' => slice_even l' end.

(** The loop of [do_diff] on a list of pairs: the target
    [old_file, new_file, xpatches] asks for three values, and unpacking a
    pair raises [ValueError] before anything else is done. *)
Definition do_diff_pair_step (diff : list string) (pair : string * string)
  : M (list string) :=
  raise (ValueError "need more than 2 values to unpack").

Definition do_diff_pairs (changeset : list (string * string))
  : M (string * option string) :=
  diff <-- foldM do_diff_pair_step changeset [] ;;
  ret (Py.concat diff, None).

(** [diff_between_revisions] *)
Definition diff_between_revisions (revision_range : string)
  : M (string * option string) :=
  let revision_range := str_split ";"%char revision_range in
  let changeset := zip (slice_even revision_range) (slice_odd revision_range) in
  r <-- do_diff_pairs changeset ;;
  ret (r.1, None).

(** ** Vocabulary of the queries *)

(** Whether [_construct_changeset] drops a split line. *)
Definition excluded (exclude_re : option (string → bool)) (change : list string) : bool :=
  from_option (λ re, re (hd "" change)) false exclude_re.

(** The split lines of [output], and those that are kept. *)
Definition split_lines (output : string) : list (list string) :=
  map (str_split TABC) (Py.splitlines false output).

Definition kept_lines (exclude_re : option (string → bool)) (output : string)
  : list (list string) :=
  filter (λ change, excluded exclude_re change = false) (split_lines output).

(** The messages logged for the lines that are dropped. *)
Definition excluded_log (exclude_re : option (string → bool)) (output : string)
  : list event :=
  map (λ change, Debug ("excluding " +:+ hd "" change +:+ " from diff"))
      (filter (λ change, excluded exclude_re change = true) (split_lines output)).

(** The entry of a line of three fields. *)
Definition entry3 (change : list string) : option entry :=
  match change with
  | [path; prev; cur] =>
      Some (_construct_extended_path path prev, _construct_extended_path path cur, None)
  | _ => None
  end.

(** A computation that never runs the patch mechanism, whatever its
    outcome. *)
Definition no_patch {A} (c : M A) : Prop :=
  ∀ tr, patches_run (c tr).2 = patches_run tr.

(** ** Sample query outputs *)

Definition row (fields : list string) : string := nl (Py.join TAB fields).

(** A pattern that matches object files. *)
Definition exclude_objects : option (string → bool) :=
  Some (λ path, Py.endswith path ".o").

Definition out_checkouts : string :=
  row ["foo.c"; "/main/3"; "/main/CHECKEDOUT"] +:+
  row ["bar.o"; "/main/1"; "/main/CHECKEDOUT"] +:+
  row ["dir/baz.h"; "/main/br/2"; "/main/br/CHECKEDOUT"].

(** The same with an empty line at the end. *)
Definition out_blank_line : string := out_checkouts +:+ nl "".

(** Two checked-out files next to their previous versions. *)
Definition world_checkout : env :=
  world_with [("foo.c@@/main/3", File (nl "x")); ("foo.c", File (nl "y"));
              ("dir/baz.h@@/main/br/2", File (nl "x")); ("dir/baz.h", File (nl "x"))].

(** ** Vocabulary of the text reader *)

(** A line that holds no line terminator. *)
Definition no_eol (line : string) : Prop :=
  Py.contains Py.LF line = false ∧ Py.contains Py.CR line = false.

(** The text [s] with every line feed turned into a carriage return and a
    line feed. *)
Fixpoint to_crlf (s : string) : string :=
  match s with
  | "" => ""
  | String c r =>
      if Ascii.eqb c Py.LF then String Py.CR (String Py.LF (to_crlf r))
      else String c (to_crlf r)
  end.

(** A text file with two lines and the same text with the line ends of
    another system. *)
Definition world_eol : env :=
  world_with [("unix.txt", File (nl "x" +:+ nl "y"));
              ("dos.txt", File (to_crlf (nl "x" +:+ nl "y")))].

(** ** Vocabulary of the version model *)

(** A text of decimal digits. *)
Definition all_digits (s : string) : Prop :=
  ∀ c, Py.contains c s = true → is_Some (Py.digit c).

(** [str(n)] as the digits of a numeral. *)
Definition dec (d : Decimal.uint) : string :=
  DecimalString.NilEmpty.string_of_uint d.

(** Two worlds that list the same two directories in different orders. *)
Definition fs_listing_a : string → node :=
  fs_of [("old_dir", Dir ["b.c"; "a.c"]); ("new_dir", Dir ["c.c"; "a.c"; "b.c"])].

Definition fs_listing_b : string → node :=
  fs_of [("old_dir", Dir ["a.c"; "b.c"]); ("new_dir", Dir ["b.c"; "c.c"; "a.c"])].

(** A record of [foo.c] that is checked out on the branch, after two
    versions. *)
Definition cs_checkedout : list change :=
  [Change "foo.c" "/main/0" "/main/br/0" "";
   Change "foo.c" "/main/br/1" "/main/br/CHECKEDOUT" "";
   Change "foo.c" "/main/br/0" "/main/br/1" ""].

(** Records of two files, interleaved. *)
Definition cs_two_paths : list change :=
  [Change "foo.c" "/main/0" "/main/br/0" "";
   Change "bar.c" "/main/4" "/main/br/1" "";
   Change "foo.c" "/main/br/0" "/main/br/1" "";
   Change "bar.c" "/main/br/1" "/main/br/2" ""].

(** A record whose version has no number. *)
Definition cs_bad_version : list change :=
  [Change "foo.c" "/main/0" "/main/br/0" "";
   Change "foo.c" "/main/br/0" "/main/br/LATEST" "";
   Change "bar.c" "/main/4" "/main/br/1" ""].

(** * The helpers of [rbtools/utils/filesystem.py] *)

(** [get_config_value(configs, name)]: the value of [name] in the first
    configuration that has the key, and [None] when none has it.  [none]
    is Python's [None], a value like any other: a configuration may hold it
    under a name. *)
Fixpoint get_config_value {V} (none : V) (configs : list (gmap string V))
    (name : string) : V :=
  match configs with
  | [] => none
  | c :: configs =>
      match c !! name with
      | Some v => v
      | None => get_config_value none configs name
      end
  end.

(** [os.path.dirname(p)] of [posixpath]: the head of [posixpath.split]. *)
Definition dirname (p : string) : string := (Py.path_split p).1.

(** [os.sep] on a POSIX host. *)
Definition sep : string := "/".

(** [walk_parents(path)], run to its end: the list of the paths the
    generator yields.  [os.path.splitdrive(path)[1]] is [path] itself on a
    POSIX host.  One unit of [fuel] is used for every test of the loop
    condition; [None] says that the fuel did not suffice. *)
Fixpoint walk_parents (fuel : nat) (path : string) : option (list string) :=
  match fuel with
  | O => None
  | S fuel =>
      if negb (String.eqb path sep)
      then cons path <$> walk_parents fuel (dirname path)
      else Some []
  end.

(** [diff_stats(diff)]: the body of the loop, then the function. *)
Definition diff_stats_step (counts : Z * Z * Z) (line : string) : Z * Z * Z :=
  let '(fls_count, ins_count, del_count) := counts in
  (fls_count + (if Py.startswith line "+++ " then 1 else 0),
   ins_count + (if Py.startswith line "+ " then 1 else 0),
   del_count + (if Py.startswith line "- " then 1 else 0)).

Definition diff_stats (diff : string) : Z * Z * Z :=
  foldl diff_stats_step (0, 0, 0) (Py.splitlines false diff).

(** ** Vocabulary of the file system helpers *)

(** A path that starts with one slash, and not with two. *)
Definition rooted (p : string) : bool :=
  Py.startswith p "/" && negb (Py.startswith p "//").

(** [p] starts the path [q]. *)
Definition path_prefix (p q : string) : Prop := Py.startswith q p = true.

(** The sum of two triples of counts. *)
Definition add_stats (a b : Z * Z * Z) : Z * Z * Z :=
  (a.1.1 + b.1.1, a.1.2 + b.1.2, a.2 + b.2).

(** The values of the sample configurations. *)
Inductive pyval : Type :=
  | PyNone
  | PyStr (s : string).

(** Configurations of a user: the one of the working directory, then the
    ones of its parents. *)
Definition configs_sample : list (gmap string pyval) :=
  [ {[ "REVIEWBOARD_URL" := PyStr "http://here" ]};
    {[ "REVIEWBOARD_URL" := PyStr "http://parent"; "REPOSITORY" := PyStr "vob" ]} ].

(** * Properties *)

(** ** Strings *)

Section strings.
Implicit Types s t u : string.

Lemma str_app_nil_r s : s +:+ "" = s.
Proof. induction s as [|a s IH]; [done|]. by rewrite <-IH at 2. Qed.

Lemma str_app_assoc s t u : (s +:+ t) +:+ u = s +:+ t +:+ u.
Proof. induction s as [|a s IH]; [done|]. change (String a ((s +:+ t) +:+ u) = String a (s +:+ t +:+ u)). by rewrite IH. Qed.

Lemma str_app_length s t :
  String.length (s +:+ t) = (String.length s + String.length t)%nat.
Proof. induction s as [|a s IH]; [done|]. change (S (String.length (s +:+ t)) = S (String.length s + String.length t)). by rewrite IH. Qed.

Lemma str_app_snoc s a t : (s +:+ String a "") +:+ t = s +:+ String a t.
Proof. by rewrite str_app_assoc. Qed.

Lemma str_eqb_false s t : s ≠ t → String.eqb s t = false.
Proof. by intros ?%String.eqb_neq. Qed.

Lemma endswith_unfold s p :
  Py.endswith s p =
  if String.eqb s p then true
  else match s with "" => false | String _ s' => Py.endswith s' p end.
Proof. by destruct s. Qed.

(** [endswith] finds a prefix that completes the pattern. *)
Lemma endswith_spec s p : Py.endswith s p = true ↔ ∃ pre, s = pre +:+ p.
Proof.
  induction s as [|a s IH]; rewrite endswith_unfold.
  - destruct (String.eqb_spec "" p) as [<-|Hne].
    + split; [by exists ""|done].
    + split; [done|]. intros [[|b pre] Hp]; [|done]. by destruct Hne.
  - destruct (String.eqb_spec (String a s) p) as [<-|Hne].
    + split; [by exists ""|done].
    + rewrite IH. split.
      * intros [pre ->]. by exists (String a pre).
      * intros [[|b pre] Hp]; [by destruct Hne|].
        injection Hp as -> ->. by exists pre.
Qed.

Lemma endswith_app s p : Py.endswith (s +:+ p) p = true.
Proof. apply endswith_spec. by exists s. Qed.

End strings.

(** ** The primitives on sample inputs *)

Example path_split_ex :
  Py.path_split "/main/br/12" = ("/main/br", "12")
  ∧ Py.path_split "/7" = ("/", "7")
  ∧ Py.path_split "7" = ("", "7")
  ∧ Py.path_split "//a//b" = ("//a", "b").
Proof. repeat split; reflexivity. Qed.

Example splitlines_ex :
  Py.splitlines false (nl "a" +:+ nl "b") = ["a"; "b"]
  ∧ Py.splitlines false "" = []
  ∧ Py.splitlines false (nl "") = [""]
  ∧ Py.splitlines false (String "a" (String Py.CR (String Py.LF "b"))) = ["a"; "b"]
  ∧ Py.splitlines false (String "a" (String Py.CR "b")) = ["a"; "b"]
  ∧ Py.splitlines true (String "a" (String Py.CR (String Py.LF "b")))
    = [String "a" (String Py.CR (String Py.LF "")); "b"].
Proof. repeat split; reflexivity. Qed.

Example lines_eof_ex :
  Py.lines_eof (nl "a" +:+ nl "b") = ["a"; "b"; ""]
  ∧ Py.lines_eof (nl "a" +:+ "b") = ["a"; "b"]
  ∧ Py.lines_eof "" = [].
Proof. repeat split; reflexivity. Qed.

Example int_ex :
  Py.int "12" = Some 12 ∧ Py.int " +12 " = Some 12 ∧ Py.int "- 5" = Some (-5)
  ∧ Py.int "007" = Some 7 ∧ Py.int "1 2" = None ∧ Py.int "" = None
  ∧ Py.int "-" = None ∧ Py.int "br" = None.
Proof. repeat split; reflexivity. Qed.

Example determine_version_ex :
  _determine_version "/main/br/12" = Some (Num 12)
  ∧ _determine_version "/main/CHECKEDOUT" = Some Inf
  ∧ _determine_version "/main/br" = None
  ∧ _determine_version "/main/0" = Some (Num 0).
Proof. repeat split; reflexivity. Qed.

Example construct_extended_path_ex :
  _construct_extended_path "foo.c" "/main/3" = "foo.c@@/main/3"
  ∧ _construct_extended_path "foo.c" "/main/CHECKEDOUT" = "foo.c"
  ∧ _construct_extended_path "foo.c" "" = "foo.c".
Proof. repeat split; reflexivity. Qed.

Example hlink_merge_match_ex :
  hlink_merge_match merge_link = true
  ∧ hlink_merge_match "" = false
  ∧ hlink_merge_match (String QUOTE "Merge@7" +:+ ARROW +:+ "open") = false
  ∧ hlink_merge_match (" " +:+ merge_link) = false.
Proof. repeat split; reflexivity. Qed.

Example crc32_check : crc32 "123456789" = 0xCBF43926 - 2 ^ 32.
Proof. vm_compute. reflexivity. Qed.

Example chunks_ex :
  chunks 3 "abcdefg" = ["abc"; "def"; "g"] ∧ chunks 3 "abc" = ["abc"] ∧ chunks 3 "" = [].
Proof. repeat split; reflexivity. Qed.

Example sorted_ex :
  sorted_ord [Inf; Num 3; Num 1; Num 2] = [Num 1; Num 2; Num 3; Inf]
  ∧ sorted_str ["b"; "a"; "B"] = ["B"; "a"; "b"].
Proof. split; vm_compute; reflexivity. Qed.

Example checkedout_ex :
  _sanitize_checkedout_changeset [("foo.c", "/main/3", "/main/CHECKEDOUT")]
  = [("foo.c@@/main/3", "foo.c", None)].
Proof. reflexivity. Qed.

(** ** The monad *)

Lemma bind_ok {A B} (c : M A) (k : A → M B) tr b tr' :
  bind c k tr = (Ok b, tr') ↔ ∃ a tr1, c tr = (Ok a, tr1) ∧ k a tr1 = (Ok b, tr').
Proof.
  unfold bind. destruct (c tr) as [[a|e] tr1]; split.
  - eauto.
  - by intros (? & ? & [= -> ->] & ?).
  - done.
  - by intros (? & ? & ? & ?).
Qed.

Lemma bind_raise {A B} (c : M A) (k : A → M B) tr e tr' :
  c tr = (Raise e, tr') → bind c k tr = (Raise e, tr').
Proof. unfold bind. by intros ->. Qed.

Lemma bind_step {A B} (c : M A) (k : A → M B) tr a tr1 :
  c tr = (Ok a, tr1) → bind c k tr = k a tr1.
Proof. unfold bind. by intros ->. Qed.

Lemma ret_ok {A} (a b : A) tr tr' : ret a tr = (Ok b, tr') ↔ a = b ∧ tr = tr'.
Proof. unfold ret. split; [by intros [= -> ->]|by intros [-> ->]]. Qed.

Lemma execute_diff_ok E u o n tr out tr' :
  execute_diff E u o n tr = (Ok out, tr')
  ↔ diff_tool E u o n = Some out ∧ tr' = tr ++ [Exec (CmdDiff u o n)].
Proof.
  unfold execute_diff, bind, emit, ret, raise.
  destruct (diff_tool E u o n); simpl; (split; [intros H; by simplify_eq | intros [? ?]; by simplify_eq]).
Qed.

Lemma execute_patch_ok E c p tr out tr' :
  execute_patch E c p tr = (Ok out, tr')
  ↔ patch_tool E c p = Some out ∧ tr' = tr ++ [Exec (CmdPatch c p)].
Proof.
  unfold execute_patch, bind, emit, ret, raise.
  destruct (patch_tool E c p); simpl; (split; [intros H; by simplify_eq | intros [? ?]; by simplify_eq]).
Qed.

Lemma execute_describe_ok E f tr out tr' :
  execute_describe E f tr = (Ok out, tr')
  ↔ describe_tool E f = Some out ∧ tr' = tr ++ [Exec (CmdDescribe f)].
Proof.
  unfold execute_describe, bind, emit, ret, raise.
  destruct (describe_tool E f); simpl; (split; [intros H; by simplify_eq | intros [? ?]; by simplify_eq]).
Qed.

(** A run of a loop, taken apart at its first turn. *)
Lemma foldM_cons_ok {A S} (body : S → A → M S) x l s tr s' tr' :
  foldM body (x :: l) s tr = (Ok s', tr')
  ↔ ∃ s1 tr1, body s x tr = (Ok s1, tr1) ∧ foldM body l s1 tr1 = (Ok s', tr').
Proof. apply bind_ok. Qed.

Lemma foldM_app_ok {A S} (body : S → A → M S) l1 l2 s tr s' tr' :
  foldM body (l1 ++ l2) s tr = (Ok s', tr')
  ↔ ∃ s1 tr1, foldM body l1 s tr = (Ok s1, tr1) ∧ foldM body l2 s1 tr1 = (Ok s', tr').
Proof.
  revert s tr. induction l1 as [|x l1 IH]; intros s tr; simpl.
  - split; [eauto|]. by intros (? & ? & [= -> ->] & ?).
  - rewrite bind_ok. split.
    + intros (s1 & tr1 & Hx & Hl). apply IH in Hl as (s2 & tr2 & ? & ?).
      exists s2, tr2. split; [|done]. apply bind_ok. eauto.
    + intros (s2 & tr2 & (s1 & tr1 & ? & ?)%bind_ok & ?).
      exists s1, tr1. split; [done|]. apply IH. eauto.
Qed.

(** ** Version model *)

Lemma split_go_tail s head cur h t :
  Py.split_go s head cur = (h, t) → ∃ pre, cur +:+ s = pre +:+ t.
Proof.
  revert head cur. induction s as [|c r IH]; intros head cur Hs; simpl in Hs.
  - injection Hs as _ <-. exists "". by rewrite str_app_nil_r.
  - destruct (Ascii.eqb c "/").
    + apply IH in Hs as [pre Hpre]. exists (cur +:+ String c pre).
      change ("" +:+ r) with r in Hpre. clear IH. subst r.
      by rewrite str_app_assoc.
    + apply IH in Hs as [pre Hpre]. exists pre. by rewrite <-Hpre, str_app_snoc.
Qed.

(** The sentinel as [_determine_version] reads it is a sentinel for
    [_construct_extended_path] too. *)
Lemma determine_version_inf_endswith v :
  _determine_version v = Some Inf → Py.endswith v CHECKEDOUT = true.
Proof.
  unfold _determine_version, Py.path_split.
  destruct (Py.split_go v "" "") as [head number] eqn:Hs.
  destruct (String.eqb_spec number CHECKEDOUT) as [->|_].
  - intros _. apply split_go_tail in Hs as [pre Hpre].
    apply endswith_spec. by exists pre.
  - by destruct (Py.int number).
Qed.

Lemma construct_extended_path_checkedout path v :
  _determine_version v = Some Inf → _construct_extended_path path v = path.
Proof.
  intros Hv%determine_version_inf_endswith. unfold _construct_extended_path.
  rewrite Hv. by destruct (String.eqb v "").
Qed.

Lemma construct_extended_path_suffixed path version :
  path +:+ "@@" +:+ version ≠ path.
Proof.
  intros Heq. apply (f_equal String.length) in Heq.
  rewrite !str_app_length in Heq. simpl in Heq. lia.
Qed.

(** C9, as the code has it.  [_construct_extended_path path version] is
    the bare [path] when [version] is empty or denotes the checked-out
    sentinel, and more widely exactly when it is empty or ends with the
    characters of the sentinel; in every other case it is [path], two at
    signs and [version]. *)
Theorem construct_extended_path_bare path version :
  (version = "" ∨ checked_out_sentinel version →
   _construct_extended_path path version = path)
  ∧ (_construct_extended_path path version = path
     ↔ version = "" ∨ Py.endswith version CHECKEDOUT = true)
  ∧ (_construct_extended_path path version = path
     ∨ _construct_extended_path path version = path +:+ "@@" +:+ version).
Proof.
  split.
  { intros [->|Hv]; [done|]. by apply construct_extended_path_checkedout. }
  unfold _construct_extended_path.
  destruct (String.eqb_spec version "") as [->|Hne]; simpl.
  - split; [split|]; auto.
  - destruct (Py.endswith version CHECKEDOUT) eqn:Hend.
    + split; [split|]; auto.
    + split; [|by right]. split.
      * intros Heq. by apply construct_extended_path_suffixed in Heq.
      * by intros [?|?].
Qed.

Lemma construct_extended_path_bare_witness :
  _construct_extended_path "foo.c" "/main/br/CHECKEDOUT" = "foo.c".
Proof.
  apply (proj1 (construct_extended_path_bare "foo.c" "/main/br/CHECKEDOUT")).
  right. reflexivity.
Defined.

(** C9, as stated, fails in its only-if half: the version
    [/main/xCHECKEDOUT] is not empty and its leaf is not the sentinel (the
    version model raises [ValueError] on it), and yet the bare path comes
    back, because the guard looks at the last characters of the version. *)
Lemma construct_extended_path_bare_counterexample :
  _construct_extended_path "foo.c" "/main/xCHECKEDOUT" = "foo.c"
  ∧ _determine_version "/main/xCHECKEDOUT" = None
  ∧ ¬ ("/main/xCHECKEDOUT" = "" ∨ checked_out_sentinel "/main/xCHECKEDOUT").
Proof.
  split; [reflexivity|]. split; [reflexivity|].
  intros [H|H]; [discriminate|]. vm_compute in H. discriminate.
Qed.

(** ** Splitting into lines and joining again *)

Section lines.
Implicit Types s cur raw : string.

Local Abbreviation ends_in c s := (Py.endswith s (String c "")).

Lemma ends_in_cons c a r :
  ends_in c (String a r) = if String.eqb r "" then Ascii.eqb a c else ends_in c r.
Proof.
  rewrite endswith_unfold. simpl.
  destruct (Ascii.eqb a c), r; try done; by rewrite endswith_unfold.
Qed.

Lemma ends_in_tail c a r : ends_in c (String a r) = false → ends_in c r = false.
Proof. rewrite ends_in_cons. by destruct r. Qed.

Lemma join_cons sep x l :
  Py.join sep (x :: l) = if nonempty l then x +:+ sep +:+ Py.join sep l else x.
Proof. by destruct l. Qed.

Lemma splitlines_go_nil keepends cur s :
  Py.splitlines_go keepends cur s = [] → cur = "" ∧ s = "".
Proof.
  revert cur. induction s as [|c r IH]; intros cur; simpl.
  - by destruct (String.eqb_spec cur "").
  - destruct (Ascii.eqb c Py.LF); [done|].
    destruct (Ascii.eqb c Py.CR).
    + destruct r as [|c' r']; [done|]. by destruct (Ascii.eqb c' Py.LF).
    + intros [Hcur _]%IH. by destruct cur.
Qed.

(** Without carriage returns the lines, joined by line feeds, are the text
    again. *)
Lemma splitlines_go_join s cur :
  Py.contains Py.CR s = false →
  Py.join Py.linesep
    (Py.splitlines_go false cur s ++ (if ends_in Py.LF s then [""] else []))
  = cur +:+ s.
Proof.
  revert cur. induction s as [|c r IH]; intros cur Hcr.
  - simpl. rewrite str_app_nil_r. by destruct (String.eqb_spec cur "") as [->|].
  - simpl in Hcr. rewrite Ascii.eqb_sym in Hcr.
    destruct (Ascii.eqb Py.CR c) eqn:Hc; [done|]. rewrite Ascii.eqb_sym in Hc.
    specialize (IH "" Hcr) as IH0. rewrite ends_in_cons.
    cbn [Py.splitlines_go]. rewrite Hc.
    destruct (Ascii.eqb_spec c Py.LF) as [->|Hlf].
    + rewrite str_app_nil_r, <-app_comm_cons, join_cons.
      destruct r as [|c' r']; [done|].
      change (String.eqb (String c' r') "") with false. cbv iota.
      destruct (Py.splitlines_go false "" (String c' r') ++ _) eqn:HL.
      * by apply app_eq_nil in HL as [[_ [=]]%splitlines_go_nil _].
      * simpl nonempty. cbv iota. by rewrite IH0.
    + destruct r as [|c' r'].
      * simpl. rewrite app_nil_r.
        by destruct (String.eqb_spec (cur +:+ String c "") "") as [->|].
      * change (String.eqb (String c' r') "") with false. cbv iota.
        rewrite IH by done. by rewrite str_app_snoc.
Qed.

Lemma lines_eof_join raw :
  Py.contains Py.CR raw = false → Py.join Py.linesep (Py.lines_eof raw) = raw.
Proof.
  intros Hcr. rewrite <-(splitlines_go_join raw "" Hcr) at 2.
  unfold Py.lines_eof, Py.splitlines, Py.linesep.
  destruct (ends_in Py.LF raw); by rewrite ?app_nil_r.
Qed.

(** A text whose last character ends no line leaves a non-empty last
    line. *)
Lemma splitlines_go_last n s cur :
  (String.length s ≤ n)%nat →
  ends_in Py.LF s = false → ends_in Py.CR s = false →
  last (Py.splitlines_go false cur s) ≠ Some "".
Proof.
  revert s cur. induction n as [|n IH]; intros s cur Hn Hlf Hcr.
  { destruct s; [|simpl in Hn; lia]. simpl.
    by destruct (String.eqb_spec cur "") as [->|]; [|intros [=]]. }
  destruct s as [|c r].
  { simpl. by destruct (String.eqb_spec cur "") as [->|]; [|intros [=]]. }
  simpl in Hn. pose proof (ends_in_tail _ _ _ Hlf) as Hlf'.
  pose proof (ends_in_tail _ _ _ Hcr) as Hcr'.
  assert (∀ x L, L ≠ [] → last L ≠ Some "" → last (x :: L) ≠ Some "") as Hcons.
  { intros x [|y L]; [done|]. by intros _. }
  cbn [Py.splitlines_go]. destruct (Ascii.eqb_spec c Py.LF) as [->|Hc1].
  - rewrite str_app_nil_r. apply Hcons; [|apply IH; [lia|done..]].
    intros [_ ->]%splitlines_go_nil. by vm_compute in Hlf.
  - destruct (Ascii.eqb_spec c Py.CR) as [->|Hc2].
    + destruct r as [|c' r']; [by vm_compute in Hcr|].
      rewrite str_app_nil_r. destruct (Ascii.eqb_spec c' Py.LF) as [->|Hc3].
      * simpl in Hn. apply Hcons; [|apply IH; [lia|by eapply ends_in_tail..]].
        intros [_ ->]%splitlines_go_nil. by vm_compute in Hlf.
      * apply Hcons; [|apply IH; [simpl in Hn |- *; lia|done..]].
        by intros [_ [=]]%splitlines_go_nil.
    + apply IH; [lia|done..].
Qed.

Lemma lines_eof_marked raw : eof_marked raw (Py.lines_eof raw).
Proof.
  unfold eof_marked, Py.lines_eof, Py.linesep. split.
  - intros ->. by rewrite last_snoc.
  - intros Hlf Hcr. rewrite Hlf. by eapply splitlines_go_last.
Qed.

(** The header fix-up keeps the end-of-file mark. *)
Lemma fix_headers_last unified old_file new_file dl :
  last (fix_headers unified old_file new_file dl) = Some "" ↔ last dl = Some "".
Proof.
  unfold fix_headers. destruct (_ && _ && _); [|done].
  destruct dl as [|l0 [|l1 rest]]; [done..|].
  destruct (Py.startswith l0 "---"); [|done].
  destruct (Py.startswith l1 "+++") eqn:Hl1; [|done]. simpl andb. cbv iota.
  destruct rest as [|l2 rest]; [|done]. simpl. split; [done|].
  intros [= ->]. by vm_compute in Hl1.
Qed.

End lines.

(** What [_patch] and [_content_diff] return in terms of the tools' raw
    output. *)
Lemma patch_ok E content patch tr l tr' :
  _patch E content patch tr = (Ok l, tr') →
  ∃ output raw,
    patch_tool E (Py.join Py.linesep content) (Py.join Py.linesep patch)
      = Some (output, raw)
    ∧ l = Py.lines_eof raw.
Proof.
  unfold _patch. intros ([output raw] & tr1 & [Hp _]%execute_patch_ok & Hk)%bind_ok.
  apply bind_ok in Hk as ([] & tr2 & _ & [<- _]%ret_ok). eauto.
Qed.

Lemma content_diff_ok E oc nc old_file new_file unified tr l tr' :
  _content_diff E oc nc old_file new_file unified tr = (Ok l, tr') ↔
  ∃ raw,
    diff_tool E unified (Py.join Py.linesep oc) (Py.join Py.linesep nc) = Some raw
    ∧ tr' = tr ++ [Exec (CmdDiff unified (Py.join Py.linesep oc) (Py.join Py.linesep nc))]
    ∧ l = fix_headers unified old_file new_file (Py.lines_eof raw).
Proof.
  unfold _content_diff. rewrite bind_ok. split.
  - intros (raw & tr1 & [Hd ->]%execute_diff_ok & [<- <-]%ret_ok). eauto.
  - intros (raw & Hd & -> & ->). exists raw, (tr ++ [Exec (CmdDiff unified (Py.join Py.linesep oc) (Py.join Py.linesep nc))]).
    split; [by apply execute_diff_ok|done].
Qed.

(** ** The final newline through [_patch] and [_content_diff] *)

(** C7, as the code has it.  The list returned by [_patch] and by
    [_content_diff] ends with an empty element whenever the raw output of the
    tool ends with a line feed; it has no such element when the raw output
    ends with neither a line feed nor a carriage return; and when the raw
    output holds no carriage return, joining the lines with line feeds gives
    the raw output back (for [_content_diff]: the lines before the header
    fix-up, which are the returned lines when [unified] is off). *)
Theorem eof_newline_roundtrip E :
  (∀ content patch tr l tr',
     _patch E content patch tr = (Ok l, tr') →
     ∃ output raw,
       patch_tool E (Py.join Py.linesep content) (Py.join Py.linesep patch)
         = Some (output, raw)
       ∧ eof_marked raw l
       ∧ (Py.contains Py.CR raw = false → Py.join Py.linesep l = raw))
  ∧ (∀ oc nc old_file new_file unified tr l tr',
       _content_diff E oc nc old_file new_file unified tr = (Ok l, tr') →
       ∃ raw,
         diff_tool E unified (Py.join Py.linesep oc) (Py.join Py.linesep nc) = Some raw
         ∧ eof_marked raw l
         ∧ l = fix_headers unified old_file new_file (Py.lines_eof raw)
         ∧ (Py.contains Py.CR raw = false →
            Py.join Py.linesep (Py.lines_eof raw) = raw)).
Proof.
  split.
  - intros content patch tr l tr' (output & raw & Hp & ->)%patch_ok.
    exists output, raw. split; [done|].
    split; [apply lines_eof_marked|apply lines_eof_join].
  - intros oc nc old_file new_file unified tr l tr'
      (raw & Hd & _ & ->)%content_diff_ok.
    exists raw. split; [done|]. split; [|split; [done|apply lines_eof_join]].
    destruct (lines_eof_marked raw) as [Hyes Hno]. split.
    + intros Hlf. apply fix_headers_last. auto.
    + intros Hlf Hcr Hlast%fix_headers_last. by apply Hno.
Qed.

Lemma eof_newline_roundtrip_witness :
  (∃ output raw,
     patch_tool world_lf "a" "p" = Some (output, raw)
     ∧ eof_marked raw ["a"; ""]
     ∧ (Py.contains Py.CR raw = false → Py.join Py.linesep ["a"; ""] = raw))
  ∧ (∃ raw,
       diff_tool world_lf false "a" "b" = Some raw
       ∧ eof_marked raw ["1c1"; "< a"; "---"; "> b"; ""]
       ∧ ["1c1"; "< a"; "---"; "> b"; ""]
         = fix_headers false "old" "new" (Py.lines_eof raw)
       ∧ (Py.contains Py.CR raw = false →
          Py.join Py.linesep (Py.lines_eof raw) = raw)).
Proof.
  split.
  - apply (proj1 (eof_newline_roundtrip world_lf) ["a"] ["p"] []
             ["a"; ""] [Exec (CmdPatch "a" "p")]).
    reflexivity.
  - apply (proj2 (eof_newline_roundtrip world_lf) ["a"] ["b"] "old" "new" false []
             ["1c1"; "< a"; "---"; "> b"; ""] [Exec (CmdDiff false "a" "b")]).
    reflexivity.
Defined.

(** C7, as stated, fails on a carriage return: the output file read by
    [_patch] here ends with a line feed followed by a carriage return, so it
    does not end with a newline, and yet the returned list ends with an empty
    element; joining the list does not give the output back. *)
Lemma eof_newline_counterexample :
  let raw := nl "a" +:+ String Py.CR "" in
  patch_tool world_cr "a" "p" = Some ("", raw)
  ∧ Py.endswith raw Py.linesep = false
  ∧ run (_patch world_cr ["a"] ["p"]) = (Ok ["a"; ""], [Exec (CmdPatch "a" "p")])
  ∧ last ["a"; ""] = Some ""
  ∧ Py.join Py.linesep ["a"; ""] ≠ raw.
Proof. repeat split; done. Qed.

(** ** [read_text_file] *)

Lemma contains_app c s t :
  Py.contains c (s +:+ t) = Py.contains c s || Py.contains c t.
Proof.
  induction s as [|a s IH]; [done|].
  change (Py.contains c (String a (s +:+ t)) = Py.contains c (String a s) || Py.contains c t).
  simpl. by destruct (Ascii.eqb a c).
Qed.

(** The reads of a file are non-empty, add up to its data, and show a NUL
    exactly when the data holds one. *)
Lemma chunks_go_spec n room cur s :
  (0 < n)%nat → (String.length cur + room = n)%nat →
  Forall (λ chunk, chunk ≠ "") (chunks_go n room cur s)
  ∧ Py.concat (chunks_go n room cur s) = cur +:+ s
  ∧ existsb (Py.contains Py.NUL) (chunks_go n room cur s)
    = Py.contains Py.NUL (cur +:+ s).
Proof.
  intros Hn. revert room cur. induction s as [|c r IH]; intros room cur Hroom.
  - simpl. rewrite str_app_nil_r. destruct (String.eqb_spec cur "") as [->|Hcur].
    + done.
    + repeat split; [by repeat constructor|simpl..].
      * by rewrite str_app_nil_r.
      * by rewrite orb_false_r.
  - destruct room as [|room]; simpl.
    + destruct (IH (Nat.pred n) (String c "")) as (Hne & Hcat & Hnul).
      { simpl. lia. }
      repeat split.
      * constructor; [|done]. intros ->. simpl in Hroom. lia.
      * unfold Py.concat in *. simpl. by rewrite Hcat.
      * rewrite Hnul, !contains_app. simpl. by destruct (Ascii.eqb c Py.NUL).
    + destruct (IH room (cur +:+ String c "")) as (Hne & Hcat & Hnul).
      { rewrite str_app_length. simpl. lia. }
      by rewrite Hcat, Hnul, !str_app_snoc.
Qed.

Lemma read_loop_spec keepends reads content :
  Forall (λ chunk, chunk ≠ "") reads →
  read_loop keepends reads content
  = if existsb (Py.contains Py.NUL) reads then None
    else Some (read_finish keepends (content +:+ Py.concat reads)).
Proof.
  intros Hne. revert content. induction Hne as [|chunk reads Hchunk _ IH];
    intros content; simpl.
  - by rewrite str_app_nil_r.
  - destruct (Py.contains Py.NUL chunk); [done|].
    rewrite (str_eqb_false _ _ Hchunk). simpl. rewrite IH.
    unfold Py.concat. by rewrite str_app_assoc.
Qed.

(** The loop in one step: [None] for data with a NUL, the lines otherwise. *)
Lemma read_loop_chunks keepends data :
  read_loop keepends (chunks chunksize data) ""
  = if Py.contains Py.NUL data then None else Some (read_finish keepends data).
Proof.
  destruct (chunks_go_spec chunksize chunksize "" data) as (Hne & Hcat & Hnul).
  { unfold chunksize. lia. }
  { done. }
  unfold chunks. by rewrite read_loop_spec, Hnul, Hcat.
Qed.

Lemma read_finish_lines data : read_finish false data = Py.lines_eof data.
Proof. done. Qed.

Lemma read_text_file_ok E file data tr :
  fs E file = File data →
  read_text_file E file false tr
  = (Ok (if Py.contains Py.NUL data then None else Some (Py.lines_eof data)), tr).
Proof.
  intros Hf. unfold read_text_file. by rewrite Hf, read_loop_chunks.
Qed.

(** ** The content differ *)

(** A new address that is not there: logged, [None], no exception. *)
Lemma diff_absent E old_file new_file xpatches unified tr :
  fs E new_file = Absent →
  _diff E old_file new_file xpatches unified tr
  = (Ok DNone, tr ++ [Debug (absent_msg new_file)]).
Proof.
  intros Hnew. unfold _diff, read_contents, isdir, exists_. by rewrite Hnew.
Qed.

(** An old address that cannot be read while the new one is a file: the
    exception of [open] leaves [_diff]. *)
Lemma diff_old_unreadable E old_file new_file data xpatches unified tr :
  fs E new_file = File data →
  (∀ old_data, fs E old_file ≠ File old_data) →
  _diff E old_file new_file xpatches unified tr = (Raise (IOError old_file), tr).
Proof.
  intros Hnew Hold. unfold _diff, read_contents, isdir, exists_. rewrite Hnew.
  unfold bind at 1 2. unfold read_text_file.
  destruct (fs E old_file) as [| | |old_data] eqn:Ho; [done..|]. by destruct (Hold old_data).
Qed.

(** Two files of which one holds a NUL: the checksums decide. *)
Lemma diff_binary E old_file new_file old_data new_data xpatches unified tr :
  fs E old_file = File old_data → fs E new_file = File new_data →
  Py.contains Py.NUL old_data = true ∨ Py.contains Py.NUL new_data = true →
  _diff E old_file new_file xpatches unified tr
  = (Ok (if bool_decide (crc32 old_data = crc32 new_data) then DEmptyU else DNone), tr).
Proof.
  intros Hold Hnew Hnul.
  unfold _diff, read_contents, isdir, exists_, bind, read_text_file, read_file, ret.
  rewrite Hnew, Hold, !read_loop_chunks.
  destruct Hnul as [-> | ->]; [|destruct (Py.contains Py.NUL old_data)];
    by case_bool_decide.
Qed.

(** Two text files: exclusion, then the line diff. *)
Lemma diff_text E old_file new_file old_data new_data xpatches unified tr :
  fs E old_file = File old_data → fs E new_file = File new_data →
  Py.contains Py.NUL old_data = false → Py.contains Py.NUL new_data = false →
  _diff E old_file new_file xpatches unified tr
  = (new_content <-- apply_xpatches E xpatches (Py.lines_eof new_data) ;;
     dl <-- _content_diff E (Py.lines_eof old_data) new_content
              old_file new_file unified ;;
     ret (DLines dl)) tr.
Proof.
  intros Hold Hnew Ho Hn.
  unfold _diff, read_contents, isdir, exists_, read_text_file.
  rewrite Hnew, Hold, !read_loop_chunks, Ho, Hn. done.
Qed.

(** ** Text and binary contents *)

Lemma apply_xpatches_none E xpatches new_content tr :
  no_exclusion xpatches →
  apply_xpatches E xpatches new_content tr = (Ok new_content, tr).
Proof. by intros [-> | ->]. Qed.

(** C6. A file with a NUL byte is read as binary ([None]).  For two files of
    which one is binary, [_diff] answers the empty result when the CRC-32
    checksums agree and the binary result when they differ, and never a list
    of lines.  For two identical text files (no exclusion fragments, a diff
    mechanism that prints nothing for equal inputs) [_diff] answers the
    empty list of lines, which the assembler treats as the empty result; so
    does [_content_diff] for any two identical contents. *)
Theorem diff_binary_or_identical E old_file new_file old_data new_data
    xpatches unified tr
    (Hold : fs E old_file = File old_data)
    (Hnew : fs E new_file = File new_data) :
  (∀ file data tr0,
     fs E file = File data → Py.contains Py.NUL data = true →
     read_text_file E file false tr0 = (Ok None, tr0))
  ∧ (Py.contains Py.NUL old_data = true ∨ Py.contains Py.NUL new_data = true →
     ∃ r, _diff E old_file new_file xpatches unified tr = (Ok r, tr)
          ∧ (kind_of r = Empty ↔ crc32 old_data = crc32 new_data)
          ∧ (kind_of r = Binary ↔ crc32 old_data ≠ crc32 new_data)
          ∧ ∀ l, r ≠ DLines l)
  ∧ (Py.contains Py.NUL old_data = false → new_data = old_data →
     no_exclusion xpatches →
     diff_tool E unified (Py.join Py.linesep (Py.lines_eof old_data))
                         (Py.join Py.linesep (Py.lines_eof old_data)) = Some "" →
     ∃ tr', _diff E old_file new_file xpatches unified tr = (Ok (DLines []), tr')
            ∧ kind_of (DLines []) = Empty)
  ∧ (∀ content tr0,
       diff_tool E unified (Py.join Py.linesep content) (Py.join Py.linesep content)
         = Some "" →
       ∃ tr', _content_diff E content content old_file new_file unified tr0
              = (Ok [], tr')).
Proof.
  split; [|split; [|split]]; cycle 3.
  { intros content tr0 Hrefl. eexists. apply content_diff_ok.
    exists "". split; [done|]. split; [done|]. by destruct unified. }
  - intros file data tr0 Hf Hnul. by rewrite (read_text_file_ok _ _ _ _ Hf), Hnul.
  - intros Hnul. eexists. split; [by apply diff_binary|].
    case_bool_decide as Hcrc; simpl; naive_solver.
  - intros Hnul -> Hx Hrefl.
    rewrite (diff_text _ _ _ _ _ _ _ _ Hold Hnew Hnul Hnul).
    rewrite (bind_step _ _ _ _ _ (apply_xpatches_none _ _ _ _ Hx)).
    set (text := Py.join Py.linesep (Py.lines_eof old_data)) in *.
    exists (tr ++ [Exec (CmdDiff unified text text)]). split; [|done]. apply bind_ok.
    exists (fix_headers unified old_file new_file (Py.lines_eof "")),
      (tr ++ [Exec (CmdDiff unified text text)]).
    split; [|by destruct unified]. apply content_diff_ok. eauto.
Qed.

Lemma diff_binary_or_identical_witness :
  (∃ r, _diff world_files "bin1" "bin2" None true [] = (Ok r, [])
        ∧ kind_of r = Binary)
  ∧ (∃ r, _diff world_files "bin1" "bin3" None true [] = (Ok r, [])
          ∧ kind_of r = Empty)
  ∧ (∃ tr', _diff world_files "a.txt" "b.txt" None true [] = (Ok (DLines []), tr')
            ∧ kind_of (DLines []) = Empty).
Proof.
  split; [|split].
  - destruct (diff_binary_or_identical world_files "bin1" "bin2"
                (String Py.NUL "abc") (String Py.NUL "abd") None true []
                eq_refl eq_refl) as (_ & Hbin & _ & _).
    destruct (Hbin (or_introl eq_refl)) as (r & Hr & _ & Hb & _).
    exists r. split; [exact Hr|]. apply Hb. vm_compute. discriminate.
  - destruct (diff_binary_or_identical world_files "bin1" "bin3"
                (String Py.NUL "abc") (String Py.NUL "abc") None true []
                eq_refl eq_refl) as (_ & Hbin & _ & _).
    destruct (Hbin (or_introl eq_refl)) as (r & Hr & He & _).
    exists r. split; [exact Hr|]. apply He. reflexivity.
  - destruct (diff_binary_or_identical world_files "a.txt" "b.txt"
                (nl "x") (nl "x") None true [] eq_refl eq_refl) as (_ & _ & Htxt & _).
    apply Htxt; [reflexivity|reflexivity|left; reflexivity|reflexivity].
Defined.

(** ** The exclusion loop *)

Lemma patches_run_app tr1 tr2 :
  patches_run (tr1 ++ tr2) = patches_run tr1 ++ patches_run tr2.
Proof. apply omap_app. Qed.

Lemma patch_trace E content patch tr l tr' :
  _patch E content patch tr = (Ok l, tr') →
  patches_run tr' = patches_run tr ++ [Py.join Py.linesep patch].
Proof.
  unfold _patch. intros ([output raw] & tr1 & [_ ->]%execute_patch_ok & Hk)%bind_ok.
  apply bind_ok in Hk as ([] & tr2 & Hlog & [_ <-]%ret_ok).
  destruct (find_sub "FAILED at" output).
  - unfold debug, emit, bind in Hlog. injection Hlog as <-.
    by rewrite !patches_run_app, !app_nil_r.
  - apply ret_ok in Hlog as [_ <-]. by rewrite patches_run_app.
Qed.

Lemma xpatch_step_ok E new_content patch tr c tr' :
  xpatch_step E new_content patch tr = (Ok c, tr') ↔
  ∃ patched, _patch E new_content patch tr = (Ok patched, tr')
             ∧ c = if nonempty patched then patched else new_content.
Proof.
  unfold xpatch_step. rewrite bind_ok. split.
  - intros (patched & tr1 & Hp & [<- <-]%ret_ok). eauto.
  - intros (patched & Hp & ->). by exists patched, tr'.
Qed.

(** The loop hands the fragments to the patch mechanism one after the other,
    in the order of the list it walks. *)
Lemma xpatch_loop_trace E patches new_content tr c tr' :
  foldM (xpatch_step E) patches new_content tr = (Ok c, tr') →
  patches_run tr' = patches_run tr ++ map (Py.join Py.linesep) patches.
Proof.
  revert new_content tr. induction patches as [|p patches IH]; intros c0 tr.
  - intros [_ <-]%ret_ok. by rewrite app_nil_r.
  - intros (c1 & tr1 & (patched & Hp%patch_trace & _)%xpatch_step_ok & Hl%IH)%foldM_cons_ok.
    rewrite Hl, Hp. by rewrite <-app_assoc.
Qed.

(** The loop never trades content for nothing. *)
Lemma xpatch_loop_nonempty E patches new_content tr c tr' :
  foldM (xpatch_step E) patches new_content tr = (Ok c, tr') →
  new_content ≠ [] → c ≠ [].
Proof.
  revert new_content tr. induction patches as [|p patches IH]; intros c0 tr.
  - by intros [<- _]%ret_ok.
  - intros (c1 & tr1 & (patched & _ & ->)%xpatch_step_ok & Hl)%foldM_cons_ok Hc0.
    apply (IH _ _ Hl). by destruct patched.
Qed.

Lemma xpatch_loop_all_empty E patches new_content tr c tr' :
  foldM (xpatch_step E) patches new_content tr = (Ok c, tr') →
  (∀ c0 p tr0 l tr1, p ∈ patches → _patch E c0 p tr0 = (Ok l, tr1) → l = []) →
  c = new_content.
Proof.
  revert new_content tr. induction patches as [|p patches IH]; intros c0 tr.
  - by intros [<- _]%ret_ok.
  - intros (c1 & tr1 & (patched & Hp & ->)%xpatch_step_ok & Hl)%foldM_cons_ok Hall.
    rewrite (Hall _ _ _ _ _ (list_elem_of_here _ _) Hp) in Hl. simpl in Hl.
    apply (IH _ _ Hl). intros ????? Hin. apply Hall. by right.
Qed.

Lemma apply_xpatches_ok E xpatches new_content tr c tr' :
  apply_xpatches E xpatches new_content tr = (Ok c, tr') ↔
  foldM (xpatch_step E) (rev (default [] xpatches)) new_content tr = (Ok c, tr').
Proof. destruct xpatches as [[|x xs]|]; split; intros H; exact H. Qed.

(** C10. In the exclusion block of [_diff] a patch step that yields no lines
    leaves the content as it was; hence content that was not empty is not
    empty after the block, and if every step yields no lines the content
    handed to the line diff is the content read from the file. *)
Theorem exclusion_keeps_content E xpatches new_content tr c tr'
    (Hrun : apply_xpatches E xpatches new_content tr = (Ok c, tr')) :
  (∀ c0 patch tr0 tr1,
     _patch E c0 patch tr0 = (Ok [], tr1) →
     xpatch_step E c0 patch tr0 = (Ok c0, tr1))
  ∧ (new_content ≠ [] → c ≠ [])
  ∧ ((∀ c0 patch tr0 l tr1,
        patch ∈ default [] xpatches →
        _patch E c0 patch tr0 = (Ok l, tr1) → l = []) →
     c = new_content).
Proof.
  apply apply_xpatches_ok in Hrun. split; [|split].
  - intros c0 patch tr0 tr1 Hp. apply xpatch_step_ok. by exists [].
  - by eapply xpatch_loop_nonempty.
  - intros Hall. eapply xpatch_loop_all_empty; [done|].
    intros c0 p tr0 l tr1 Hin. apply Hall.
    by apply list_elem_of_In, in_rev, list_elem_of_In.
Qed.

Lemma exclusion_keeps_content_witness :
  xpatch_step world_empty_patch ["x"; ""] ["1d0"; "< x"] []
  = (Ok ["x"; ""],
     [Exec (CmdPatch (nl "x") (nl "1d0" +:+ "< x"));
      Debug "patching content FAILED:"; Debug "1 out of 1 hunk FAILED at 1"])
  ∧ ["x"; ""] ≠ ([] : list string).
Proof.
  destruct (exclusion_keeps_content world_empty_patch
              (Some [["1d0"; "< x"]; ["2d1"; "< y"]]) ["x"; ""] [] ["x"; ""]
              [Exec (CmdPatch (nl "x") (nl "2d1" +:+ "< y"));
               Debug "patching content FAILED:"; Debug "1 out of 1 hunk FAILED at 1";
               Exec (CmdPatch (nl "x") (nl "1d0" +:+ "< x"));
               Debug "patching content FAILED:"; Debug "1 out of 1 hunk FAILED at 1"]
              eq_refl) as (Hstep & Hne & _).
  split.
  - apply Hstep. reflexivity.
  - apply Hne. discriminate.
Defined.

(** ** Version numbers and their order *)

Global Instance ord_le_total : Total ord_le.
Proof.
  intros [x|] [y|]; unfold ord_le, ord_leb; simpl; auto.
  destruct (Z.ltb_spec y x), (Z.ltb_spec x y); auto; lia.
Qed.

Global Instance ord_le_trans : Transitive ord_le.
Proof.
  intros [x|] [y|] [z|]; unfold ord_le, ord_leb; simpl; try done.
  destruct (Z.ltb_spec y x), (Z.ltb_spec z y), (Z.ltb_spec z x); try done; lia.
Qed.

Lemma ord_le_refl a : ord_le a a.
Proof. destruct a as [x|]; unfold ord_le, ord_leb; simpl; [|done]. by rewrite Z.ltb_irrefl. Qed.

Lemma ord_le_neq_lt a b : ord_le a b → a ≠ b → ord_lt a b.
Proof.
  destruct a as [x|], b as [y|]; unfold ord_le, ord_leb, ord_lt; simpl; try done.
  destruct (Z.ltb_spec y x), (Z.ltb_spec x y); try done.
  intros _ Hne. destruct Hne. f_equal. lia.
Qed.

Lemma ord_lt_le a b : ord_lt a b → ord_le a b.
Proof.
  destruct a as [x|], b as [y|]; unfold ord_le, ord_leb, ord_lt; simpl; try done.
  destruct (Z.ltb_spec y x), (Z.ltb_spec x y); try done. lia.
Qed.

Lemma ord_le_lt_trans a b c : ord_le a b → ord_lt b c → ord_lt a c.
Proof.
  destruct a as [x|], b as [y|], c as [z|]; unfold ord_le, ord_leb, ord_lt; simpl; try done.
  destruct (Z.ltb_spec y x), (Z.ltb_spec y z), (Z.ltb_spec x z); try done. lia.
Qed.

Lemma ord_not_gt_le a b : ord_gtb a b = false → ord_le a b.
Proof. unfold ord_le, ord_leb. by intros ->. Qed.

Lemma ord_zero_le a : ord_le (Num 0) a → ord_is_zero a = false → ord_lt (Num 0) a.
Proof.
  intros Hle Hz. apply ord_le_neq_lt; [done|]. intros <-. done.
Qed.

Lemma StronglySorted_le_lt (l : list ordinal) :
  StronglySorted ord_le l → NoDup l → StronglySorted ord_lt l.
Proof.
  induction 1 as [|a l Hl IH Ha]; intros Hnd; [constructor|].
  apply NoDup_cons in Hnd as [Hnotin Hnd]. constructor; [by apply IH|].
  rewrite Forall_forall in Ha |- *. intros b Hb.
  apply ord_le_neq_lt; [by apply Ha|]. intros ->. by apply Hnotin.
Qed.

Lemma StronglySorted_rev {A} (R : relation A) (l : list A) :
  StronglySorted R l → StronglySorted (flip R) (rev l).
Proof.
  induction 1 as [|a l Hl IH Ha]; simpl; [constructor|].
  apply StronglySorted_app. split; [|split; [done|repeat constructor]].
  intros x1 x2 Hx1 ->%list_elem_of_singleton. unfold flip.
  rewrite Forall_forall in Ha. by apply Ha, list_elem_of_In, in_rev, list_elem_of_In.
Qed.

(** ** The fragments of one path *)

Lemma omap_lookup_keys (m : gmap ordinal (list string)) (keys : list ordinal) :
  (∀ i, i ∈ keys → is_Some (m !! i)) →
  map fst (omap (λ i, (λ d, (i, d)) <$> m !! i) keys) = keys.
Proof.
  induction keys as [|i keys IH]; intros Hall; [done|]. simpl.
  destruct (Hall i) as [d Hd]; [by left|]. rewrite Hd. simpl. f_equal.
  apply IH. intros j Hj. apply Hall. by right.
Qed.

Lemma sorted_ord_keys (m : gmap ordinal (list string)) :
  let keys := sorted_ord (map fst (map_to_list m)) in
  StronglySorted ord_lt keys ∧ ∀ i, i ∈ keys ↔ is_Some (m !! i).
Proof.
  intros keys.
  assert (keys ≡ₚ (map_to_list m).*1) as Hperm by apply merge_sort_Permutation.
  split.
  - apply StronglySorted_le_lt; [apply StronglySorted_merge_sort; apply _|].
    rewrite Hperm. apply NoDup_fst_map_to_list.
  - intros i. rewrite Hperm, list_elem_of_fmap. split.
    + intros ([j d] & -> & Hin%elem_of_map_to_list). by exists d.
    + intros [d Hd]. exists (i, d). by rewrite elem_of_map_to_list.
Qed.

(** The emitted fragments of a path come in strictly ascending order of the
    version numbers they were recorded under, one per recorded number. *)
Lemma xpatch_items_spec (m : gmap ordinal (list string)) :
  StronglySorted ord_lt (map fst (xpatch_items m))
  ∧ ∀ i d, (i, d) ∈ xpatch_items m ↔ m !! i = Some d.
Proof.
  destruct (sorted_ord_keys m) as [Hsorted Hkeys]. unfold xpatch_items. split.
  - rewrite omap_lookup_keys; [done|]. intros i. apply Hkeys.
  - intros i d. rewrite list_elem_of_omap. split.
    + intros (j & _ & Hj). destruct (m !! j) eqn:Hm; by simplify_eq/=.
    + intros Hd. exists i. rewrite Hd. split; [|done]. apply Hkeys. by exists d.
Qed.

(** ** The branch reducer *)

Section reducer.
Context (E : env) (O : options).

Implicit Types (cl : gmap string tracked)
               (xl : gmap string (gmap ordinal (list string)))
               (r : change) (tr : list event).

(** One turn of the first loop, taken apart. *)
Lemma branch_step_ok cl xl r tr cl' xl' tr' :
  branch_step E O (cl, xl) r tr = (Ok (cl', xl'), tr') →
  ∃ v, ord_of r = Some v
    ∧ cl' = track cl r
    ∧ (xl' = xl
       ∨ xmerge O = true ∧ hlink_merge_match (c_hlinks r) = true
         ∧ ∃ xl0, (xl0 = xl ∨ xl !! c_path r = None ∧ xl0 = <[c_path r := ∅]> xl)
             ∧ (xl' = xl0
                ∨ ∃ d tr0 tr1,
                    d ≠ []
                    ∧ _diff E (_construct_extended_path (c_path r) (c_current r))
                              (_construct_extended_path (c_path r) (c_previous r))
                              None false tr0 = (Ok (DLines d), tr1)
                    ∧ xl' = alter (insert v d) (c_path r) xl0)).
Proof.
  destruct r as [path prev cur hlinks]. unfold branch_step, track, ord_of. simpl.
  intros (v & tr1 & Hv & Hk)%bind_ok.
  destruct (_determine_version cur) as [v'|]; [|done].
  apply ret_ok in Hv as [-> <-].
  apply bind_ok in Hk as (xl1 & tr2 & Hx & [[= <- <-] _]%ret_ok).
  exists v. split; [done|]. split; [done|].
  destruct (xmerge O); [|left; by apply ret_ok in Hx as [-> _]].
  destruct (hlink_merge_match hlinks); [|left; by apply ret_ok in Hx as [-> _]].
  right. split; [done|]. split; [done|]. simpl in Hx.
  set (xl0 := match xl !! path with None => <[path:=∅]> xl | Some _ => xl end) in *.
  exists xl0. split.
  { subst xl0. destruct (xl !! path); auto. }
  apply bind_ok in Hx as (diff & tr3 & Hd & Hr).
  destruct diff as [| |[|l d]]; try (left; by apply ret_ok in Hr as [-> _]).
  right. apply ret_ok in Hr as [<- _]. by exists (l :: d), tr, tr3.
Qed.

(** The first loop leaves in [changelist] what [track] computes record by
    record, and every record has a version number. *)
Lemma branch_loop_changelist l cl xl tr cl' xl' tr' :
  foldM (branch_step E O) l (cl, xl) tr = (Ok (cl', xl'), tr') →
  cl' = foldl track cl l ∧ Forall (λ r, is_Some (ord_of r)) l.
Proof.
  revert cl xl tr. induction l as [|r l IH]; intros cl xl tr.
  - intros [[= <- <-] _]%ret_ok. by split.
  - intros ([cl1 xl1] & tr1 & (v & Hv & -> & _)%branch_step_ok & Hl%IH)%foldM_cons_ok.
    destruct Hl as [-> Hall]. split; [done|]. constructor; [by exists v|done].
Qed.

(** Every fragment kept in [xpatchlist] was recorded by a record of the
    changeset. *)
Lemma branch_loop_recorded l seen cl xl tr cl' xl' tr' :
  foldM (branch_step E O) l (cl, xl) tr = (Ok (cl', xl'), tr') →
  (∀ path m i d, xl !! path = Some m → m !! i = Some d →
                 recorded E O seen path i d) →
  ∀ path m i d, xl' !! path = Some m → m !! i = Some d →
                recorded E O (seen ++ l) path i d.
Proof.
  revert seen cl xl tr. induction l as [|r l IH]; intros seen cl xl tr.
  - intros [[= <- <-] _]%ret_ok. by rewrite app_nil_r.
  - intros ([cl1 xl1] & tr1 & Hstep & Hl)%foldM_cons_ok Hinv.
    replace (seen ++ r :: l) with ((seen ++ [r]) ++ l) by by rewrite <-app_assoc.
    apply (IH _ _ _ _ Hl). clear IH Hl.
    assert (∀ path i d, recorded E O seen path i d →
                        recorded E O (seen ++ [r]) path i d) as Hmono.
    { intros path i d (r0 & Hin & H). exists r0. split; [|done].
      apply elem_of_app. by left. }
    apply branch_step_ok in Hstep as (v & Hv & _ & Hxl).
    destruct Hxl as [->|(Hx & Hm & xl0 & Hxl0 & Hxl1)]; [by eauto|].
    assert (∀ path m i d, xl0 !! path = Some m → m !! i = Some d →
                          recorded E O (seen ++ [r]) path i d) as Hinv0.
    { destruct Hxl0 as [->|[Hnone ->]]; [by eauto|].
      intros path m i d Hp Hi. destruct (decide (c_path r = path)) as [<-|Hne].
      - rewrite lookup_insert_eq in Hp. by simplify_eq.
      - rewrite lookup_insert_ne in Hp by done. eauto. }
    destruct Hxl1 as [->|(d0 & tr0 & tr2 & Hd0 & Hdiff & ->)]; [done|].
    intros path m i d Hp Hi. destruct (decide (c_path r = path)) as [<-|Hne].
    + rewrite lookup_alter_eq in Hp.
      destruct (xl0 !! c_path r) as [m0|] eqn:Hm0; [|done].
      simpl in Hp. injection Hp as <-.
      destruct (decide (v = i)) as [<-|Hvi].
      * rewrite lookup_insert_eq in Hi. injection Hi as <-.
        exists r. split; [apply elem_of_app; right; by left|].
        repeat (split; [done|]). eauto.
      * rewrite lookup_insert_ne in Hi by done. eauto.
    + rewrite lookup_alter_ne in Hp by done. eauto.
Qed.

(** The second loop appends one entry per item and cannot fail. *)
Lemma emit_loop_ok xl items acc tr :
  ∃ tr', foldM (emit_step O xl) items acc tr
         = (Ok (acc ++ map (entry_of xl) items), tr').
Proof.
  revert acc tr. induction items as [|item items IH]; intros acc tr; simpl.
  - exists tr. by rewrite app_nil_r.
  - unfold emit_step at 1.
    destruct (opt_debug O); unfold bind, debug, emit, ret; simpl;
      match goal with |- ∃ _, foldM _ _ ?a ?t = _ =>
        destruct (IH a t) as [tr' ->] end;
      exists tr'; by rewrite <-app_assoc.
Qed.

Lemma sanitize_branch_ok changeset tr out tr' :
  _sanitize_branch_changeset E O changeset tr = (Ok out, tr') →
  ∃ xl tr1,
    foldM (branch_step E O) changeset (∅, ∅) tr
      = (Ok (foldl track ∅ changeset, xl), tr1)
    ∧ Forall (λ r, is_Some (ord_of r)) changeset
    ∧ out = map (entry_of xl) (map_to_list (foldl track ∅ changeset)).
Proof.
  unfold _sanitize_branch_changeset.
  intros ([cl xl] & tr1 & Hloop & Hemit)%bind_ok.
  destruct (branch_loop_changelist _ _ _ _ _ _ _ Hloop) as [-> Hall].
  exists xl, tr1. split; [done|]. split; [done|].
  destruct (emit_loop_ok xl (map_to_list (foldl track ∅ changeset)) [] tr1) as [tr2 Heq].
  rewrite Heq in Hemit. by injection Hemit as <- _.
Qed.

(** Without the exclusion option the reducer returns for every changeset
    whose versions can all be read. *)
Lemma branch_loop_plain l cl xl tr :
  xmerge O = false → Forall (λ r, is_Some (ord_of r)) l →
  foldM (branch_step E O) l (cl, xl) tr = (Ok (foldl track cl l, xl), tr).
Proof.
  intros Hx Hall. revert cl. induction Hall as [|r l [v Hv] _ IH]; intros cl; [done|].
  simpl. rewrite <-IH. apply bind_step.
  destruct r as [path prev cur hlinks]. unfold branch_step, track, ord_of in *.
  simpl in *. by rewrite Hv, Hx.
Qed.

Lemma sanitize_branch_total changeset tr :
  xmerge O = false → Forall (λ r, is_Some (ord_of r)) changeset →
  ∃ tr', _sanitize_branch_changeset E O changeset tr
         = (Ok (map (entry_of ∅) (map_to_list (foldl track ∅ changeset))), tr').
Proof.
  intros Hx Hall. unfold _sanitize_branch_changeset.
  rewrite (bind_step _ _ _ _ _ (branch_loop_plain _ ∅ ∅ tr Hx Hall)).
  apply emit_loop_ok.
Qed.

End reducer.

(** ** What the reducer keeps per path *)

Lemma ord_gtb_irrefl a : ord_gtb a a = false.
Proof. destruct a as [x|]; simpl; [apply Z.ltb_irrefl|done]. Qed.

Lemma ord_is_zero_true a : ord_is_zero a = true ↔ a = Num 0.
Proof. destruct a as [[| |]|]; simpl; split; by try done. Qed.

Lemma track_lookup cl r p :
  track cl r !! p = if decide (c_path r = p) then step_path (cl !! p) r else cl !! p.
Proof.
  unfold track, step_path. destruct (ord_of r) as [v|]; [|by case_decide].
  unfold advance, seed. case_decide as Hp.
  - subst p. rewrite lookup_alter_eq.
    destruct (cl !! c_path r) as [t|] eqn:Hcl; [by rewrite Hcl|].
    by rewrite lookup_insert_eq.
  - rewrite lookup_alter_ne by done.
    destruct (cl !! c_path r); [done|]. by rewrite lookup_insert_ne.
Qed.

Lemma foldl_track_lookup l cl p :
  foldl track cl l !! p = foldl step_path (cl !! p) (records_of p l).
Proof.
  revert cl. induction l as [|r l IH]; intros cl; [done|].
  unfold records_of. rewrite filter_cons. simpl. rewrite IH, track_lookup.
  by case_decide.
Qed.

Lemma foldl_track_dom l cl :
  Forall (λ r, is_Some (ord_of r)) l →
  dom (foldl track cl l) = dom cl ∪ list_to_set (map c_path l).
Proof.
  intros Hall. revert cl. induction Hall as [|r l [v Hv] _ IH]; intros cl; simpl.
  - set_solver.
  - rewrite IH. assert (dom (track cl r) = {[c_path r]} ∪ dom cl) as ->; [|set_solver].
    apply set_eq. intros p. rewrite elem_of_union, elem_of_singleton, !elem_of_dom.
    rewrite track_lookup. unfold step_path. rewrite Hv. case_decide; naive_solver.
Qed.

Section per_path.

Lemma first_max_bound rs r o :
  first_max rs r → ord_of r = Some o →
  Forall (λ r', ∃ o', ord_of r' = Some o' ∧ ord_le o' o) rs.
Proof.
  intros (pre & post & o0 & -> & Ho0 & Hpre & Hpost) Ho.
  assert (o0 = o) as -> by congruence.
  apply Forall_app. split; [|constructor; [|done]].
  - eapply Forall_impl; [done|]. intros r' (o' & ? & ?%ord_lt_le). eauto.
  - exists o. split; [done|]. apply ord_le_refl.
Qed.

Lemma baseline_snoc rs prev x :
  baseline rs prev → ord_of x ≠ Some (Num 0) → baseline (rs ++ [x]) prev.
Proof.
  intros [(pre & r & post & -> & Hr & Hpost & ->)|(Hall & r0 & rest & -> & ->)] Hx.
  - left. exists pre, r, (post ++ [x]). rewrite <-app_assoc. split; [done|].
    split; [done|]. split; [|done]. apply Forall_app. by split; [|constructor].
  - right. split; [apply Forall_app; by split; [|constructor]|].
    by exists r0, (rest ++ [x]).
Qed.

Lemma first_max_snoc_le rs r o x ox :
  first_max rs r → ord_of r = Some o → ord_of x = Some ox → ord_le ox o →
  first_max (rs ++ [x]) r.
Proof.
  intros (pre & post & o0 & -> & Ho0 & Hpre & Hpost) Ho Hox Hle.
  assert (o0 = o) as -> by congruence.
  exists pre, (post ++ [x]), o. rewrite <-app_assoc. split; [done|].
  split; [done|]. split; [done|]. apply Forall_app. split; [done|].
  constructor; [|done]. by exists ox.
Qed.

(** The value kept for a path after its records [rs]. *)
Lemma step_path_fold rs :
  rs ≠ [] →
  Forall (λ r, ∃ o, ord_of r = Some o ∧ ord_le (Num 0) o) rs →
  ∃ t r, foldl step_path None rs = Some t
         ∧ first_max rs r ∧ ord_of r = Some (highest t)
         ∧ current t = c_current r
         ∧ baseline rs (previous t).
Proof.
  induction rs as [|x l IH] using rev_ind; [done|]. intros _ Hall.
  apply Forall_app in Hall as [Hl Hx]. apply Forall_singleton in Hx as (o & Ho & Hnn).
  rewrite foldl_app. simpl.
  assert (l = [] ∨ l ≠ []) as [->|Hne] by (destruct l; auto).
  - (* the first record of the path *)
    simpl. unfold step_path. rewrite Ho. simpl.
    exists (Tracked o (c_current x) (c_previous x)), x.
    split.
    { unfold advance_tracked. simpl. rewrite ord_gtb_irrefl. by destruct (ord_is_zero o). }
    split; [exists [], [], o; by repeat split|]. split; [done|]. split; [done|].
    simpl. destruct (ord_is_zero o) eqn:Hz.
    + apply ord_is_zero_true in Hz as ->. left. exists [], x, []. by repeat split.
    + right. split; [|by exists x, []]. constructor; [|done].
      intros Heq. rewrite Ho in Heq. by injection Heq as ->.
  - (* a later record *)
    destruct (IH Hne Hl) as (t & r & -> & Hmax & Hr & Hcur & Hbase).
    unfold step_path at 1. rewrite Ho. simpl.
    unfold advance_tracked. destruct (ord_is_zero o) eqn:Hz.
    + apply ord_is_zero_true in Hz as ->.
      eexists _, r. split; [done|]. simpl.
      assert (ord_le (Num 0) (highest t)) as Hle.
      { pose proof (first_max_bound _ _ _ Hmax Hr) as _.
        destruct Hmax as (pre & post & o1 & Hl1 & Ho1 & _).
        rewrite Forall_forall in Hl. destruct (Hl r) as (o2 & Ho2 & Hle).
        { rewrite Hl1. apply elem_of_app. right. by left. }
        congruence. }
      split; [by eapply first_max_snoc_le|]. split; [done|]. split; [done|].
      left. exists l, x, []. by repeat split.
    + assert (ord_of x ≠ Some (Num 0)) as Hx0.
      { intros Heq. rewrite Ho in Heq. by injection Heq as ->. }
      destruct (ord_gtb o (highest t)) eqn:Hgt.
      * eexists _, x. split; [done|]. simpl. split; [|by auto using baseline_snoc].
        exists l, [], o. split; [done|]. split; [done|]. split; [|done].
        eapply Forall_impl; [by eapply first_max_bound|].
        intros r' (o' & Ho' & Hle). exists o'. split; [done|].
        by eapply ord_le_lt_trans.
      * exists t, r. split; [done|].
        split; [eapply first_max_snoc_le; eauto using ord_not_gt_le|].
        auto using baseline_snoc.
Qed.

End per_path.

(** ** The reduced entry of a path *)

Lemma records_of_nonempty path changeset :
  path ∈ map c_path changeset → records_of path changeset ≠ [].
Proof.
  intros (r & -> & Hin)%list_elem_of_fmap Hnil.
  assert (r ∈ records_of (c_path r) changeset) as Hr.
  { apply list_elem_of_filter. by split. }
  rewrite Hnil in Hr. by apply not_elem_of_nil in Hr.
Qed.

(** C1, as the code has it.  When no version number is negative, a branch
    reduction that returns emits one entry per path, and for every path of
    the changeset an entry whose new address is the path qualified with the
    current version of the first record carrying the largest version number
    of the path, and whose old address is the path qualified with the
    previous version of the last record numbered zero, or of the first
    record of the path when none is numbered zero. *)
Theorem branch_reduction_tip_and_baseline E O changeset tr out tr'
    (Hrun : _sanitize_branch_changeset E O changeset tr = (Ok out, tr'))
    (Hnonneg : versions_nonneg changeset) :
  length out = size (list_to_set (map c_path changeset) : gset string)
  ∧ ∀ path, path ∈ map c_path changeset →
      ∃ r_tip prev xpatches,
        first_max (records_of path changeset) r_tip
        ∧ baseline (records_of path changeset) prev
        ∧ (_construct_extended_path path prev,
           _construct_extended_path path (c_current r_tip),
           xpatches) ∈ out.
Proof.
  apply sanitize_branch_ok in Hrun as (xl & tr1 & _ & Hparsed & ->). split.
  - rewrite length_map, length_map_to_list.
    pose proof (foldl_track_dom _ ∅ Hparsed) as Hdom.
    rewrite dom_empty_L, (left_id_L ∅ (∪)) in Hdom. by rewrite <-Hdom, size_dom.
  - intros path Hpath.
    destruct (step_path_fold (records_of path changeset))
      as (t & r & Hfold & Hmax & _ & Hcur & Hbase).
    { by apply records_of_nonempty. }
    { unfold records_of. apply Forall_forall. intros r [_ Hin]%list_elem_of_filter.
      unfold versions_nonneg in Hnonneg. rewrite Forall_forall in Hparsed, Hnonneg.
      destruct (Hparsed r Hin) as [o Ho]. exists o. split; [done|]. by apply (Hnonneg r Hin). }
    exists r, (previous t), (Some (xpatches_of xl path)).
    split; [done|]. split; [done|]. rewrite <-Hcur.
    apply list_elem_of_In, in_map_iff. exists (path, t). split; [done|].
    apply list_elem_of_In, elem_of_map_to_list.
    by rewrite foldl_track_lookup, lookup_empty.
Qed.

Lemma branch_reduction_tip_and_baseline_witness :
  length [("foo.c@@/main/0", "foo.c@@/main/2", Some ([] : list (list string)))]
  = size (list_to_set (map c_path cs_scenario_b) : gset string)
  ∧ ∀ path, path ∈ map c_path cs_scenario_b →
      ∃ r_tip prev xpatches,
        first_max (records_of path cs_scenario_b) r_tip
        ∧ baseline (records_of path cs_scenario_b) prev
        ∧ (_construct_extended_path path prev,
           _construct_extended_path path (c_current r_tip),
           xpatches) ∈ [("foo.c@@/main/0", "foo.c@@/main/2", Some ([] : list (list string)))].
Proof.
  apply (branch_reduction_tip_and_baseline (world_with []) no_options
           cs_scenario_b [] _ []).
  - vm_compute. reflexivity.
  - unfold versions_nonneg, cs_scenario_b.
    repeat constructor; intros o [= <-]; reflexivity.
Defined.

(** Scenario B of the specification. *)
Example scenario_b :
  run (_sanitize_branch_changeset (world_with []) no_options cs_scenario_b)
  = (Ok [("foo.c@@/main/0", "foo.c@@/main/2", Some [])], []).
Proof. vm_compute. reflexivity. Qed.

(** C1, as stated, fails on a tie: of two records with the same largest
    version number the reducer keeps the current version of the one seen
    first, not of the one seen last. *)
Lemma branch_reduction_tie_counterexample :
  run (_sanitize_branch_changeset (world_with []) no_options cs_tie)
  = (Ok [("foo.c@@/main/3", "foo.c@@/main/a/br/1", Some [])], [])
  ∧ versions_nonneg cs_tie
  ∧ last_max (records_of "foo.c" cs_tie) tie_last
  ∧ ¬ ∃ r_tip prev xpatches,
        last_max (records_of "foo.c" cs_tie) r_tip
        ∧ (_construct_extended_path "foo.c" prev,
           _construct_extended_path "foo.c" (c_current r_tip),
           xpatches) ∈ [("foo.c@@/main/3", "foo.c@@/main/a/br/1",
                         Some ([] : list (list string)))].
Proof.
  split; [vm_compute; reflexivity|]. split.
  { repeat constructor; intros o [= <-]; reflexivity. }
  assert (records_of "foo.c" cs_tie = [tie_first; tie_last]) as -> by reflexivity.
  split.
  - exists [tie_first], [], (Num 1). repeat split; [|done].
    constructor; [|done]. by exists (Num 1).
  - intros (r & prev & xps & (pre & post & o & Hrs & Ho & Hpre & Hpost) & Hin).
    apply list_elem_of_singleton in Hin. injection Hin as _ Hcur _.
    destruct pre as [|r1 [|r2 pre]].
    + injection Hrs as <- <-. vm_compute in Ho. injection Ho as <-.
      apply Forall_cons in Hpost as [(o' & Ho' & Hlt) _].
      vm_compute in Ho'. injection Ho' as <-. by vm_compute in Hlt.
    + injection Hrs as _ <- _. by vm_compute in Hcur.
    + injection Hrs as _ _ Hrs. by destruct pre.
Qed.

(** ** The order of the exclusion fragments *)

Lemma read_contents_trace E old_file new_file tr contents tr' :
  read_contents E old_file new_file tr = (Ok contents, tr') →
  patches_run tr' = patches_run tr.
Proof.
  unfold read_contents, listdir, read_text_file.
  destruct (isdir E new_file); [|destruct (exists_ E new_file)].
  - destruct (fs E old_file); unfold bind, raise, ret; try done.
    destruct (fs E new_file); by intros [= _ ->].
  - destruct (fs E old_file); unfold bind, raise, ret; try done.
    destruct (fs E new_file); by intros [= _ ->].
  - unfold bind, debug, emit, ret. intros [= _ <-].
    by rewrite patches_run_app, app_nil_r.
Qed.

(** Whenever [_diff] gets as far as a list of lines, it has handed the
    fragments to the patch mechanism in the reverse of the order of
    [xpatches], and nothing else. *)
Lemma diff_patches_run E old_file new_file xpatches unified tr l tr' :
  _diff E old_file new_file xpatches unified tr = (Ok (DLines l), tr') →
  patches_run tr' = patches_run tr
                    ++ map (Py.join Py.linesep) (rev (default [] xpatches)).
Proof.
  unfold _diff. intros (contents & tr1 & Hread%read_contents_trace & Hk)%bind_ok.
  destruct contents as [[[oc|] [nc|]]|].
  - apply bind_ok in Hk as (nc' & tr2 & Hx%apply_xpatches_ok%xpatch_loop_trace & Hk).
    apply bind_ok in Hk as (dl & tr3 & (_ & _ & -> & _)%content_diff_ok & [_ <-]%ret_ok).
    by rewrite patches_run_app, app_nil_r, Hx, Hread.
  - apply bind_ok in Hk as (? & ? & _ & (? & ? & _ & Hk)%bind_ok).
    by case_bool_decide.
  - apply bind_ok in Hk as (? & ? & _ & (? & ? & _ & Hk)%bind_ok).
    by case_bool_decide.
  - apply bind_ok in Hk as (? & ? & _ & (? & ? & _ & Hk)%bind_ok).
    by case_bool_decide.
  - done.
Qed.

Lemma map_snd_rev {A B} (items : list (A * B)) (f : B → string) :
  map f (rev (map snd items)) = map (λ it, f it.2) (rev items).
Proof. by rewrite <-map_rev, map_map. Qed.

(** ** Computations that do not look at the trace *)

Lemma uniform_ret {A} (a : A) : uniform (ret a).
Proof. exists (Ok a), []. intros tr. unfold ret. by rewrite app_nil_r. Qed.

Lemma uniform_raise {A} e : uniform (raise e : M A).
Proof. exists (Raise e), []. intros tr. unfold raise. by rewrite app_nil_r. Qed.

Lemma uniform_emit ev : uniform (emit ev).
Proof. by exists (Ok tt), [ev]. Qed.

Lemma uniform_bind {A B} (c : M A) (k : A → M B) :
  uniform c → (∀ a, uniform (k a)) → uniform (bind c k).
Proof.
  intros ([a|e] & evs & Hc) Hk.
  - destruct (Hk a) as (r & evs' & Hka). exists r, (evs ++ evs').
    intros tr. unfold bind. by rewrite Hc, Hka, <-app_assoc.
  - exists (Raise e), evs. intros tr. unfold bind. by rewrite Hc.
Qed.

Lemma uniform_foldM {A S} (body : S → A → M S) (l : list A) (s : S) :
  (∀ s x, uniform (body s x)) → uniform (foldM body l s).
Proof.
  intros Hbody. revert s. induction l as [|x l IH]; intros s; simpl.
  - apply uniform_ret.
  - apply uniform_bind; auto.
Qed.

Lemma uniform_det {A} (c : M A) tr0 r0 tr1 tr r tr' :
  uniform c → c tr0 = (r0, tr1) → c tr = (r, tr') → r = r0.
Proof. intros (r1 & evs & Hc). rewrite !Hc. by intros [= <- _] [= <- _]. Qed.

Ltac uniform_steps :=
  repeat first [ apply uniform_ret | apply uniform_raise | apply uniform_emit
               | apply uniform_bind; [|intros ?] ].

Lemma uniform_read_contents E old_file new_file :
  uniform (read_contents E old_file new_file).
Proof.
  unfold read_contents, listdir, read_text_file, debug.
  destruct (isdir E new_file); [|destruct (exists_ E new_file)];
    destruct (fs E old_file), (fs E new_file); uniform_steps.
Qed.

Lemma uniform_patch E content patch : uniform (_patch E content patch).
Proof.
  unfold _patch, execute_patch, debug. apply uniform_bind.
  - apply uniform_bind; [apply uniform_emit|intros _].
    destruct (patch_tool E _ _); uniform_steps.
  - intros [output patched]. destruct (find_sub "FAILED at" output); uniform_steps.
Qed.

Lemma uniform_apply_xpatches E xpatches new_content :
  uniform (apply_xpatches E xpatches new_content).
Proof.
  unfold apply_xpatches. destruct xpatches as [[|x xs]|]; try apply uniform_ret.
  apply uniform_foldM. intros c patch. unfold xpatch_step.
  apply uniform_bind; [apply uniform_patch|intros; apply uniform_ret].
Qed.

Lemma uniform_content_diff E oc nc old_file new_file unified :
  uniform (_content_diff E oc nc old_file new_file unified).
Proof.
  unfold _content_diff, execute_diff. apply uniform_bind; [|intros; apply uniform_ret].
  apply uniform_bind; [apply uniform_emit|intros _].
  destruct (diff_tool E unified _ _); uniform_steps.
Qed.

Lemma uniform_diff E old_file new_file xpatches unified :
  uniform (_diff E old_file new_file xpatches unified).
Proof.
  unfold _diff. apply uniform_bind; [apply uniform_read_contents|].
  intros [[[oc|] [nc|]]|]; try apply uniform_ret.
  - apply uniform_bind; [apply uniform_apply_xpatches|intros nc'].
    apply uniform_bind; [apply uniform_content_diff|intros; apply uniform_ret].
  - unfold read_file. destruct (fs E old_file), (fs E new_file);
      uniform_steps; case_bool_decide; uniform_steps.
  - unfold read_file. destruct (fs E old_file), (fs E new_file);
      uniform_steps; case_bool_decide; uniform_steps.
  - unfold read_file. destruct (fs E old_file), (fs E new_file);
      uniform_steps; case_bool_decide; uniform_steps.
Qed.

(** ** The fragments, applied in turn *)

Lemma commands_run_app tr1 tr2 :
  commands_run (tr1 ++ tr2) = commands_run tr1 ++ commands_run tr2.
Proof. apply omap_app. Qed.

Lemma patch_run E content patch tr l tr' :
  _patch E content patch tr = (Ok l, tr') →
  ∃ output raw,
    patch_tool E (Py.join Py.linesep content) (Py.join Py.linesep patch)
    = Some (output, raw)
    ∧ l = Py.lines_eof raw
    ∧ commands_run tr'
      = commands_run tr
        ++ [CmdPatch (Py.join Py.linesep content) (Py.join Py.linesep patch)].
Proof.
  unfold _patch, execute_patch, bind, emit, debug, ret, raise.
  destruct (patch_tool E _ _) as [[output raw]|]; [|done].
  destruct (find_sub "FAILED at" output); intros [= <- <-]; exists output, raw;
    (split; [done|]); (split; [done|]);
    rewrite ?commands_run_app; simpl; by rewrite ?app_nil_r.
Qed.

(** The loop of the exclusion block does what [applied_in_turn] says. *)
Lemma xpatch_loop_in_turn E fragments : ∀ content tr final tr',
  foldM (xpatch_step E) fragments content tr = (Ok final, tr') →
  (applied_in_turn E fragments content).2 = Some final
  ∧ commands_run tr' = commands_run tr ++ (applied_in_turn E fragments content).1.
Proof.
  induction fragments as [|patch rest IH]; intros content tr final tr'.
  - intros [<- <-]%ret_ok. simpl. by rewrite app_nil_r.
  - intros (c1 & tr1 & Hstep & Hrest)%foldM_cons_ok.
    unfold xpatch_step in Hstep.
    apply bind_ok in Hstep as (patched & tr2 & Hpatch & [<- <-]%ret_ok).
    apply patch_run in Hpatch as (output & raw & Htool & -> & Htr).
    apply IH in Hrest as [Hfinal Hcalls].
    cbn [applied_in_turn]. rewrite Htool. cbn [fst snd].
    split; [done|]. by rewrite Hcalls, Htr, <-app_assoc.
Qed.

Lemma read_contents_text E old_file new_file tr oc nc tr' :
  read_contents E old_file new_file tr = (Ok (Some (Some oc, Some nc)), tr') →
  tr' = tr.
Proof.
  unfold read_contents, listdir, read_text_file, debug.
  destruct (isdir E new_file); [|destruct (exists_ E new_file)];
    destruct (fs E old_file), (fs E new_file);
    unfold bind, ret, raise, emit; by intros [= ].
Qed.

(** Whenever [_diff] gets as far as a list of lines, it has applied the
    fragments in turn, the last of [xpatches] first, to the content of the
    new file, and compared the old content with what they left. *)
Lemma diff_applies_in_turn E old_file new_file
    (items : list (ordinal * list string)) unified tr l tr' :
  StronglySorted ord_lt (map fst items) →
  _diff E old_file new_file (Some (map snd items)) unified tr = (Ok (DLines l), tr') →
  applied_newest_first E old_file new_file unified items tr l tr'.
Proof.
  intros Hasc Hrun. pose proof (diff_patches_run _ _ _ _ _ _ _ _ Hrun) as Hpatches.
  simpl in Hpatches. rewrite map_snd_rev in Hpatches.
  unfold _diff in Hrun. apply bind_ok in Hrun as (contents & tr1 & Hread & Hk).
  destruct contents as [[[oc|] [nc|]]|].
  - pose proof (read_contents_text _ _ _ _ _ _ _ Hread) as ->.
    apply bind_ok in Hk as (final & tr2 & Hx & Hk).
    apply bind_ok in Hk as (dl & tr3 & (raw & Htool & -> & ->)%content_diff_ok
                            & [[= <-] <-]%ret_ok).
    assert ((applied_in_turn E (map snd (rev items)) nc).2 = Some final
            ∧ commands_run tr2
              = commands_run tr ++ (applied_in_turn E (map snd (rev items)) nc).1)
      as [Hfinal Hcalls].
    { rewrite map_rev. unfold apply_xpatches in Hx.
      destruct (map snd items) as [|x xs] eqn:Hxs.
      - apply ret_ok in Hx as [<- <-]. simpl. by rewrite app_nil_r.
      - by apply xpatch_loop_in_turn. }
    exists oc, nc, final, raw. split; [done|]. split; [done|]. split.
    { rewrite commands_run_app, Hcalls. simpl. by rewrite <-app_assoc. }
    split; [done|]. split; [done|]. split; [done|].
    rewrite map_rev. by apply StronglySorted_rev.
  - apply bind_ok in Hk as (? & ? & _ & (? & ? & _ & Hk)%bind_ok).
    by case_bool_decide.
  - apply bind_ok in Hk as (? & ? & _ & (? & ? & _ & Hk)%bind_ok).
    by case_bool_decide.
  - apply bind_ok in Hk as (? & ? & _ & (? & ? & _ & Hk)%bind_ok).
    by case_bool_decide.
  - done.
Qed.

(** ** Every recorded fragment is kept *)

Lemma branch_step_keeps E O cl xl r tr cl' xl' tr' path m i :
  branch_step E O (cl, xl) r tr = (Ok (cl', xl'), tr') →
  xl !! path = Some m → is_Some (m !! i) →
  ∃ m', xl' !! path = Some m' ∧ is_Some (m' !! i).
Proof.
  intros (v & _ & _ & Hxl)%branch_step_ok Hm Hi.
  destruct Hxl as [->|(_ & _ & xl0 & Hxl0 & Hxl1)]; [by eauto|].
  assert (xl0 !! path = Some m) as Hm0.
  { destruct Hxl0 as [->|[Hnone ->]]; [done|].
    rewrite lookup_insert_ne; [done|]. intros <-. by rewrite Hnone in Hm. }
  destruct Hxl1 as [->|(d & _ & _ & _ & _ & ->)]; [by eauto|].
  destruct (decide (c_path r = path)) as [<-|Hne].
  - rewrite lookup_alter_eq, Hm0. simpl. eexists. split; [done|].
    destruct (decide (v = i)) as [<-|Hvi].
    + by rewrite lookup_insert_eq.
    + by rewrite lookup_insert_ne.
  - rewrite lookup_alter_ne by done. eauto.
Qed.

Lemma branch_loop_keeps E O l : ∀ cl xl tr cl' xl' tr' path m i,
  foldM (branch_step E O) l (cl, xl) tr = (Ok (cl', xl'), tr') →
  xl !! path = Some m → is_Some (m !! i) →
  ∃ m', xl' !! path = Some m' ∧ is_Some (m' !! i).
Proof.
  induction l as [|r l IH]; intros cl xl tr cl' xl' tr' path m i.
  - intros [[= <- <-] _]%ret_ok. eauto.
  - intros ([cl1 xl1] & tr1 & Hstep & Hl)%foldM_cons_ok Hm Hi.
    destruct (branch_step_keeps _ _ _ _ _ _ _ _ _ _ _ _ Hstep Hm Hi) as (m1 & Hm1 & Hi1).
    by eapply IH.
Qed.

Lemma branch_step_records E O cl xl r tr cl' xl' tr' i d tr0 tr1 :
  branch_step E O (cl, xl) r tr = (Ok (cl', xl'), tr') →
  ord_of r = Some i → xmerge O = true → hlink_merge_match (c_hlinks r) = true →
  d ≠ [] →
  _diff E (_construct_extended_path (c_path r) (c_current r))
          (_construct_extended_path (c_path r) (c_previous r)) None false tr0
  = (Ok (DLines d), tr1) →
  ∃ m, xl' !! c_path r = Some m ∧ is_Some (m !! i).
Proof.
  destruct r as [path prev cur hlinks]. unfold branch_step, ord_of. simpl.
  intros Hstep Hv Hx Hm Hd Hdiff. rewrite Hv, Hx, Hm in Hstep. simpl in Hstep.
  apply bind_ok in Hstep as (v & tr2 & [<- <-]%ret_ok & Hk).
  apply bind_ok in Hk as (xl1 & tr3 & Hrec & [[= <- <-] _]%ret_ok).
  apply bind_ok in Hrec as (diff & tr4 & Hrun & Hret).
  pose proof (uniform_det _ _ _ _ _ _ _ (uniform_diff _ _ _ _ _) Hdiff Hrun) as [= ->].
  destruct d as [|x d]; [done|]. apply ret_ok in Hret as [<- _].
  rewrite lookup_alter_eq.
  destruct (xl !! path) as [m0|] eqn:Hm0.
  - rewrite Hm0. simpl. eexists. split; [done|]. by rewrite lookup_insert_eq.
  - rewrite lookup_insert_eq. simpl. eexists. split; [done|]. by rewrite lookup_insert_eq.
Qed.

Lemma branch_loop_records E O l : ∀ cl xl tr cl' xl' tr' path i d,
  foldM (branch_step E O) l (cl, xl) tr = (Ok (cl', xl'), tr') →
  recorded E O l path i d →
  ∃ m, xl' !! path = Some m ∧ is_Some (m !! i).
Proof.
  induction l as [|r l IH]; intros cl xl tr cl' xl' tr' path i d.
  - intros _ (r & Hin & _). by apply not_elem_of_nil in Hin.
  - intros ([cl1 xl1] & tr1 & Hstep & Hl)%foldM_cons_ok
           (r0 & Hin & Hpath & Hv & Hx & Hm & Hd & tr0 & tr2 & Hdiff).
    apply elem_of_cons in Hin as [->|Hin].
    + subst path.
      destruct (branch_step_records _ _ _ _ _ _ _ _ _ _ _ _ _ Hstep Hv Hx Hm Hd Hdiff)
        as (m & Hm1 & Hi1).
      by eapply branch_loop_keeps.
    + eapply IH; [done|]. exists r0. repeat (split; [done|]). eauto.
Qed.

(** C4. The branch reducer emits, for every path of the changeset, one
    entry that carries the fragments recorded for that path: all of them
    (one for every version number a fragment was recorded under) and no
    others, in strictly ascending order of the version numbers they were
    recorded under.  [_diff] applies them to the content of the new file in
    the reverse order, that is in strictly descending order of those
    numbers: each fragment is applied to the content the one before it
    left, and the diff is taken of the content the last one left. *)
Theorem exclusion_fragments_order E O changeset tr out tr'
    (Hrun : _sanitize_branch_changeset E O changeset tr = (Ok out, tr')) :
  ∃ fragments : string → list (ordinal * list string),
    (∀ e, e ∈ out ↔
          ∃ path t, foldl track ∅ changeset !! path = Some t
                    ∧ e = (_construct_extended_path path (previous t),
                           _construct_extended_path path (current t),
                           Some (map snd (fragments path))))
    ∧ ∀ path, path ∈ map c_path changeset →
        is_Some (foldl track ∅ changeset !! path)
        ∧ StronglySorted ord_lt (map fst (fragments path))
        ∧ (∀ i d, (i, d) ∈ fragments path → recorded E O changeset path i d)
        ∧ (∀ i d, recorded E O changeset path i d → ∃ d', (i, d') ∈ fragments path)
        ∧ ∀ E' old_file new_file unified tr0 l tr1,
            _diff E' old_file new_file (Some (map snd (fragments path))) unified tr0
            = (Ok (DLines l), tr1) →
            applied_newest_first E' old_file new_file unified (fragments path)
              tr0 l tr1.
Proof.
  apply sanitize_branch_ok in Hrun as (xl & tr1 & Hloop & Hparsed & ->).
  exists (λ path, match xl !! path with Some m => xpatch_items m | None => [] end).
  assert (∀ path, xpatches_of xl path
                  = map snd match xl !! path with
                            | Some m => xpatch_items m
                            | None => []
                            end) as Hxp.
  { intros path. unfold xpatches_of. by destruct (xl !! path). }
  split.
  - intros e. rewrite list_elem_of_fmap. split.
    + intros ([path t] & -> & Hin%elem_of_map_to_list). exists path, t.
      split; [done|]. unfold entry_of. by rewrite Hxp.
    + intros (path & t & Hin & ->). exists (path, t).
      split; [|by apply elem_of_map_to_list]. unfold entry_of. by rewrite Hxp.
  - intros path Hpath.
    assert (StronglySorted ord_lt
              (map fst match xl !! path with
                       | Some m => xpatch_items m
                       | None => []
                       end)) as Hsorted.
    { destruct (xl !! path); [apply xpatch_items_spec|constructor]. }
    split.
    { apply elem_of_dom. rewrite (foldl_track_dom _ _ Hparsed).
      apply elem_of_union. right. by apply elem_of_list_to_set. }
    split; [done|]. split; [|split].
    + intros i d Hin. destruct (xl !! path) as [m|] eqn:Hm;
        [|by apply not_elem_of_nil in Hin].
      apply xpatch_items_spec in Hin.
      pose proof (branch_loop_recorded E O _ [] _ _ _ _ _ _ Hloop) as Hrec.
      eapply (Hrec ltac:(done)); eauto.
    + intros i d Hrec.
      destruct (branch_loop_records _ _ _ _ _ _ _ _ _ _ _ _ Hloop Hrec)
        as (m & -> & [d' Hd']).
      exists d'. by apply xpatch_items_spec.
    + intros E' old_file new_file unified tr0 l tr2 Hdiff.
      by apply diff_applies_in_turn.
Qed.

Lemma exclusion_fragments_order_witness :
  ∃ fragments : string → list (ordinal * list string),
    (∀ e, e ∈ [("f.c@@/main/0", "f.c@@/main/br/2", Some (map snd merge_items))] ↔
          ∃ path t, foldl track ∅ cs_merge !! path = Some t
                    ∧ e = (_construct_extended_path path (previous t),
                           _construct_extended_path path (current t),
                           Some (map snd (fragments path))))
    ∧ ∀ path, path ∈ map c_path cs_merge →
        is_Some (foldl track ∅ cs_merge !! path)
        ∧ StronglySorted ord_lt (map fst (fragments path))
        ∧ (∀ i d, (i, d) ∈ fragments path →
                  recorded world_merge merge_options cs_merge path i d)
        ∧ (∀ i d, recorded world_merge merge_options cs_merge path i d →
                  ∃ d', (i, d') ∈ fragments path)
        ∧ ∀ E' old_file new_file unified tr0 l tr1,
            _diff E' old_file new_file (Some (map snd (fragments path))) unified tr0
            = (Ok (DLines l), tr1) →
            applied_newest_first E' old_file new_file unified (fragments path)
              tr0 l tr1.
Proof.
  apply (exclusion_fragments_order world_merge merge_options cs_merge []
           [("f.c@@/main/0", "f.c@@/main/br/2", Some (map snd merge_items))]
           [Exec (CmdDiff false (nl "two") (nl "one"));
            Exec (CmdDiff false (nl "one") (nl "base"))]).
  vm_compute. reflexivity.
Defined.

(** C5, as the code has it.  Given fragments in ascending order of the
    version numbers they were recorded under, [_diff] applies them in
    descending order of those numbers, the fragment of the newest merge
    first: it hands them to the patch mechanism in that order, each with
    the content the one before it left and the first with the content of
    the new file, and takes the diff of the content the last one left. *)
Theorem exclusion_applied_newest_first E old_file new_file
    (items : list (ordinal * list string)) unified tr l tr'
    (Hasc : StronglySorted ord_lt (map fst items))
    (Hrun : _diff E old_file new_file (Some (map snd items)) unified tr
            = (Ok (DLines l), tr')) :
  applied_newest_first E old_file new_file unified items tr l tr'.
Proof. by apply diff_applies_in_turn. Qed.

Lemma exclusion_applied_newest_first_witness :
  applied_newest_first world_patching "f.c@@/main/0" "f.c@@/main/br/2" true
    merge_items [] []
    [Exec (CmdPatch (nl "two") (plain_hunk (nl "two") (nl "one")));
     Exec (CmdPatch (nl "one") (plain_hunk (nl "one") (nl "base")));
     Exec (CmdDiff true (nl "base") (nl "base"))].
Proof.
  apply (exclusion_applied_newest_first world_patching
           "f.c@@/main/0" "f.c@@/main/br/2" merge_items true [] []).
  - repeat constructor.
  - vm_compute. reflexivity.
Defined.

(** C5, as stated, fails: the reducer emits the fragment recorded under
    version 1 before the one recorded under version 2, and [_diff] runs the
    patch mechanism on the fragment of version 2 first. *)
Lemma exclusion_oldest_first_counterexample :
  run (_sanitize_branch_changeset world_merge merge_options cs_merge)
  = (Ok [("f.c@@/main/0", "f.c@@/main/br/2", Some (map snd merge_items))],
     [Exec (CmdDiff false (nl "two") (nl "one"));
      Exec (CmdDiff false (nl "one") (nl "base"))])
  ∧ patches_run (run (_diff world_merge "f.c@@/main/0" "f.c@@/main/br/2"
                        (Some (map snd merge_items)) true)).2
    = [plain_hunk (nl "two") (nl "one"); plain_hunk (nl "one") (nl "base")]
  ∧ patches_run (run (_diff world_merge "f.c@@/main/0" "f.c@@/main/br/2"
                        (Some (map snd merge_items)) true)).2
    ≠ map (λ it, Py.join Py.linesep it.2) merge_items.
Proof. split; [|split]; vm_compute; [reflexivity..|discriminate]. Qed.

(** ** The diff assembler *)

Lemma do_diff_step_ok E acc old_file new_file xpatches tr acc' tr' :
  do_diff_step E acc (old_file, new_file, xpatches) tr = (Ok acc', tr') ↔
  ∃ old_oid new_oid dl,
    describe_tool E old_file = Some old_oid
    ∧ describe_tool E new_file = Some new_oid
    ∧ _diff E old_file new_file xpatches true
        (tr ++ [Exec (CmdDescribe old_file); Exec (CmdDescribe new_file)])
      = (Ok dl, tr')
    ∧ acc' = acc ++ [Py.join Py.linesep
                       (render (oid_line_of old_oid new_oid) old_file new_file dl)].
Proof.
  unfold do_diff_step. rewrite bind_ok. split.
  - intros (old_oid & tr1 & [Ho ->]%execute_describe_ok & Hk).
    apply bind_ok in Hk as (new_oid & tr2 & [Hn ->]%execute_describe_ok & Hk).
    apply bind_ok in Hk as (dl & tr3 & Hd & [<- <-]%ret_ok).
    rewrite <-app_assoc in Hd. by exists old_oid, new_oid, dl.
  - intros (old_oid & new_oid & dl & Ho & Hn & Hd & ->).
    exists old_oid, (tr ++ [Exec (CmdDescribe old_file)]).
    split; [by apply execute_describe_ok|]. apply bind_ok.
    exists new_oid, ((tr ++ [Exec (CmdDescribe old_file)]) ++ [Exec (CmdDescribe new_file)]).
    split; [by apply execute_describe_ok|]. apply bind_ok.
    exists dl, tr'. by rewrite <-app_assoc.
Qed.

Lemma do_diff_loop_ok E changeset acc tr acc' tr' :
  foldM (do_diff_step E) changeset acc tr = (Ok acc', tr') →
  ∃ renderings, acc' = acc ++ renderings ∧ Forall2 (rendering_of E) changeset renderings.
Proof.
  revert acc tr. induction changeset as [|[[old_file new_file] xps] cs IH]; intros acc tr.
  - intros [<- _]%ret_ok. exists []. by rewrite app_nil_r.
  - intros (acc1 & tr1 & Hstep & (rs & -> & Hrs)%IH)%foldM_cons_ok.
    apply do_diff_step_ok in Hstep as (old_oid & new_oid & dl & Ho & Hn & Hd & ->).
    eexists (_ :: rs). rewrite <-app_assoc. split; [done|].
    constructor; [|done].
    by exists old_oid, new_oid, dl,
      (tr ++ [Exec (CmdDescribe old_file); Exec (CmdDescribe new_file)]), tr1.
Qed.

(** [do_diff] returns whenever the identities can be looked up and [_diff]
    returns on every entry. *)
Lemma do_diff_loop_total E changeset acc tr :
  Forall (λ e : entry,
            is_Some (describe_tool E e.1.1) ∧ is_Some (describe_tool E e.1.2)
            ∧ ∀ tr0, ∃ dl tr1, _diff E e.1.1 e.1.2 e.2 true tr0 = (Ok dl, tr1))
         changeset →
  ∃ acc' tr', foldM (do_diff_step E) changeset acc tr = (Ok acc', tr').
Proof.
  intros Hall. revert acc tr.
  induction Hall as [|[[old_file new_file] xps] cs ([oo Ho] & [on Hn] & Hd) _ IH];
    intros acc tr; [by eexists _, _|].
  simpl in *.
  destruct (Hd (tr ++ [Exec (CmdDescribe old_file); Exec (CmdDescribe new_file)]))
    as (dl & tr1 & Hdl).
  destruct (IH (acc ++ [Py.join Py.linesep
                          (render (oid_line_of oo on) old_file new_file dl)]) tr1)
    as (acc' & tr' & Hrest).
  exists acc', tr'. rewrite <-Hrest. apply bind_step, do_diff_step_ok.
  by exists oo, on, dl.
Qed.

Lemma do_diff_total E changeset tr :
  Forall (λ e : entry,
            is_Some (describe_tool E e.1.1) ∧ is_Some (describe_tool E e.1.2)
            ∧ ∀ tr0, ∃ dl tr1, _diff E e.1.1 e.1.2 e.2 true tr0 = (Ok dl, tr1))
         changeset →
  ∃ text tr', do_diff E changeset tr = (Ok (text, None), tr').
Proof.
  intros Hall. destruct (do_diff_loop_total E changeset [] tr Hall) as (acc & tr' & Hloop).
  exists (Py.concat acc), tr'. unfold do_diff. by rewrite (bind_step _ _ _ _ _ Hloop).
Qed.

(** The three shapes of a rendering. *)
Lemma render_shapes oid_line old_file new_file dl :
  In oid_line (render oid_line old_file new_file dl)
  ∧ match kind_of dl with
    | Binary =>
        render oid_line old_file new_file dl
        = binary_placeholder oid_line old_file new_file
    | Empty =>
        render oid_line old_file new_file dl
        = unmodified_placeholder oid_line new_file
    | Lines =>
        ∀ h1 h2 rest, dl = DLines (h1 :: h2 :: rest) →
          render oid_line old_file new_file dl = h1 :: h2 :: oid_line :: rest
    end.
Proof.
  destruct dl as [| |[|h1 l]]; try (split; [by left|done]).
  split.
  - change (In oid_line (take 2 (h1 :: l) ++ oid_line :: drop 2 (h1 :: l))).
    apply in_app_iff. right. by left.
  - by intros ? ? ? [= -> ->].
Qed.

(** With a header pair in the raw output of the diff mechanism, the first
    two lines returned by [_content_diff] name the two addresses. *)
Lemma fix_headers_pair old_file new_file l0 l1 rest :
  Py.startswith l0 "---" = true → Py.startswith l1 "+++" = true →
  fix_headers true old_file new_file (l0 :: l1 :: rest)
  = ("--- " +:+ old_file +:+ TAB) :: ("+++ " +:+ new_file +:+ TAB) :: rest.
Proof. unfold fix_headers. simpl. by intros -> ->. Qed.

(** C8. When [do_diff] returns, its text is the concatenation of one
    rendering per entry, in the order of the entries; every rendering holds
    the identity line of its entry; it is the identity line, the line
    [Binary files <old> and <new> differ] and an empty line for a binary
    result, the identity line, the line
    [File <new> in your changeset is unmodified] and an empty line for an
    empty result, and for a hunk of lines the hunk with the identity line
    put in as third line, after its two header lines. *)
Theorem assembler_renderings E changeset tr text parent tr'
    (Hrun : do_diff E changeset tr = (Ok (text, parent), tr')) :
  parent = None
  ∧ ∃ renderings,
      text = Py.concat renderings
      ∧ length renderings = length changeset
      ∧ Forall2 (rendering_of E) changeset renderings
      ∧ ∀ oid_line old_file new_file dl,
          In oid_line (render oid_line old_file new_file dl)
          ∧ match kind_of dl with
            | Binary =>
                render oid_line old_file new_file dl
                = binary_placeholder oid_line old_file new_file
            | Empty =>
                render oid_line old_file new_file dl
                = unmodified_placeholder oid_line new_file
            | Lines =>
                ∀ h1 h2 rest, dl = DLines (h1 :: h2 :: rest) →
                  render oid_line old_file new_file dl = h1 :: h2 :: oid_line :: rest
            end.
Proof.
  unfold do_diff in Hrun.
  apply bind_ok in Hrun as (diff & tr1 & Hloop & [[= <- <-] _]%ret_ok).
  split; [done|]. apply do_diff_loop_ok in Hloop as (rs & -> & Hrs).
  exists rs. split; [done|]. split; [by rewrite (Forall2_length _ _ _ Hrs)|].
  split; [done|]. apply render_shapes.
Qed.

Lemma assembler_renderings_witness :
  (None : option string) = None
  ∧ ∃ renderings,
      text_mixed = Py.concat renderings
      ∧ length renderings = length cs_mixed
      ∧ Forall2 (rendering_of world_files) cs_mixed renderings
      ∧ ∀ oid_line old_file new_file dl,
          In oid_line (render oid_line old_file new_file dl)
          ∧ match kind_of dl with
            | Binary =>
                render oid_line old_file new_file dl
                = binary_placeholder oid_line old_file new_file
            | Empty =>
                render oid_line old_file new_file dl
                = unmodified_placeholder oid_line new_file
            | Lines =>
                ∀ h1 h2 rest, dl = DLines (h1 :: h2 :: rest) →
                  render oid_line old_file new_file dl = h1 :: h2 :: oid_line :: rest
            end.
Proof.
  apply (assembler_renderings world_files cs_mixed [] text_mixed None
           [Exec (CmdDescribe "a.txt"); Exec (CmdDescribe "c.txt");
            Exec (CmdDiff true (nl "x") (nl "y"));
            Exec (CmdDescribe "bin1"); Exec (CmdDescribe "bin2");
            Exec (CmdDescribe "a.txt"); Exec (CmdDescribe "b.txt");
            Exec (CmdDiff true (nl "x") (nl "x"))]).
  vm_compute. reflexivity.
Defined.

(** Scenario A of the specification: one modified text file gives one hunk
    with its identity line after the two header lines. *)
Example scenario_a :
  (run (do_diff world_files [("a.txt", "c.txt", None)])).1
  = Ok (nl ("--- a.txt" +:+ TAB) +:+ nl ("+++ c.txt" +:+ TAB) +:+
        nl "==== oid:a.txt oid:c.txt ====" +:+
        nl "@@ -1 +1 @@" +:+ nl "-x" +:+ nl "+y", None).
Proof. vm_compute. reflexivity. Qed.

(** ** Addresses that are gone *)

(** C2, as the code has it.  For an entry whose new address is absent (and
    whose two identities can be looked up) [_diff] logs the condition and
    answers [None] without raising, and the loop of [do_diff] goes on with
    the remaining entries, having appended the rendering
    [Binary files <old> and <new> differ] for this one. *)
Theorem missing_new_file_is_skipped E old_file new_file xpatches rest acc tr
    old_oid new_oid
    (Hnew : fs E new_file = Absent)
    (Hold_oid : describe_tool E old_file = Some old_oid)
    (Hnew_oid : describe_tool E new_file = Some new_oid) :
  let tr1 := tr ++ [Exec (CmdDescribe old_file); Exec (CmdDescribe new_file)] in
  let tr2 := tr1 ++ [Debug (absent_msg new_file)] in
  _diff E old_file new_file xpatches true tr1 = (Ok DNone, tr2)
  ∧ foldM (do_diff_step E) ((old_file, new_file, xpatches) :: rest) acc tr
    = foldM (do_diff_step E) rest
        (acc ++ [Py.join Py.linesep
                   (binary_placeholder (oid_line_of old_oid new_oid) old_file new_file)])
        tr2.
Proof.
  intros tr1 tr2. split; [by apply diff_absent|].
  simpl. apply bind_step. apply do_diff_step_ok.
  exists old_oid, new_oid, DNone. repeat split; try done. by apply diff_absent.
Qed.

Lemma missing_new_file_is_skipped_witness :
  _diff world_files "a.txt" "gone.txt" None true
    [Exec (CmdDescribe "a.txt"); Exec (CmdDescribe "gone.txt")]
  = (Ok DNone,
     [Exec (CmdDescribe "a.txt"); Exec (CmdDescribe "gone.txt");
      Debug (absent_msg "gone.txt")])
  ∧ foldM (do_diff_step world_files) cs_new_gone [] []
    = foldM (do_diff_step world_files) [("a.txt", "c.txt", None)]
        [nl "==== oid:a.txt oid:gone.txt ====" +:+
         nl "Binary files a.txt and gone.txt differ"]
        [Exec (CmdDescribe "a.txt"); Exec (CmdDescribe "gone.txt");
         Debug (absent_msg "gone.txt")].
Proof.
  apply (missing_new_file_is_skipped world_files "a.txt" "gone.txt" None
           [("a.txt", "c.txt", None)] [] [] "oid:a.txt" "oid:gone.txt"
           eq_refl eq_refl eq_refl).
Defined.

(** C2, as stated, fails for an old address that is gone: reading it raises
    and the whole of [do_diff] ends with the exception, the next entry
    untouched. *)
Lemma missing_old_file_counterexample :
  fs world_files "gone.txt" = Absent
  ∧ run (do_diff world_files cs_old_gone)
    = (Raise (IOError "gone.txt"),
       [Exec (CmdDescribe "gone.txt"); Exec (CmdDescribe "a.txt")]).
Proof. split; vm_compute; reflexivity. Qed.

(** C3, as the code has it.  For an entry whose new address is absent,
    [_diff] logs the condition and answers [None] without raising, whatever
    the format asked for, and the assembler renders the entry as the
    identity line, the line [Binary files <old> and <new> differ] and an
    empty line. *)
Theorem missing_new_file_placeholder E old_file new_file xpatches acc tr
    old_oid new_oid
    (Hnew : fs E new_file = Absent)
    (Hold_oid : describe_tool E old_file = Some old_oid)
    (Hnew_oid : describe_tool E new_file = Some new_oid) :
  (∀ unified tr0,
     _diff E old_file new_file xpatches unified tr0
     = (Ok DNone, tr0 ++ [Debug (absent_msg new_file)]))
  ∧ ∃ tr',
      do_diff_step E acc (old_file, new_file, xpatches) tr
      = (Ok (acc ++ [Py.join Py.linesep
                       (binary_placeholder (oid_line_of old_oid new_oid)
                          old_file new_file)]), tr')
      ∧ logged tr' = logged tr ++ [absent_msg new_file].
Proof.
  split; [intros; by apply diff_absent|].
  eexists. split.
  - apply do_diff_step_ok. exists old_oid, new_oid, DNone.
    repeat split; try done. by apply diff_absent.
  - unfold logged. rewrite !omap_app. simpl. by rewrite app_nil_r.
Qed.

Lemma missing_new_file_placeholder_witness :
  ∃ tr',
    do_diff_step world_files [] ("a.txt", "gone.txt", None) []
    = (Ok [nl "==== oid:a.txt oid:gone.txt ====" +:+
           nl "Binary files a.txt and gone.txt differ"], tr')
    ∧ logged tr' = [absent_msg "gone.txt"].
Proof.
  apply (missing_new_file_placeholder world_files "a.txt" "gone.txt" None [] []
           "oid:a.txt" "oid:gone.txt" eq_refl eq_refl eq_refl).
Defined.

(** C3, as stated, fails in its last part: the placeholder put in for a new
    address that is gone is the one for binary files that differ, not the
    one for an unmodified file.  (A new address that is there but cannot be
    opened is not caught at all: the exception of [open] leaves [_diff].) *)
Lemma missing_new_file_counterexample :
  fs world_files "gone.txt" = Absent
  ∧ (run (do_diff world_files cs_new_gone)).1 = Ok (text_new_gone, None)
  ∧ render "==== oid:a.txt oid:gone.txt ====" "a.txt" "gone.txt" DNone
    = binary_placeholder "==== oid:a.txt oid:gone.txt ====" "a.txt" "gone.txt"
  ∧ binary_placeholder "==== oid:a.txt oid:gone.txt ====" "a.txt" "gone.txt"
    ≠ unmodified_placeholder "==== oid:a.txt oid:gone.txt ====" "gone.txt"
  ∧ fs world_files "locked.txt" = Denied
  ∧ run (_diff world_files "a.txt" "locked.txt" None true)
    = (Raise (IOError "locked.txt"), []).
Proof. repeat split; try (vm_compute; reflexivity). discriminate. Qed.

(** ** The queries *)

Lemma construct_loop exclude_re (lines : list string) acc tr :
  foldM (construct_step exclude_re) lines acc tr
  = (Ok (acc ++ filter (λ change, excluded exclude_re change = false)
                   (map (str_split TABC) lines)),
     tr ++ map (λ change, Debug ("excluding " +:+ hd "" change +:+ " from diff"))
             (filter (λ change, excluded exclude_re change = true)
                (map (str_split TABC) lines))).
Proof.
  revert acc tr. induction lines as [|info lines IH]; intros acc tr.
  - simpl. by rewrite !app_nil_r.
  - cbn [foldM map]. rewrite !filter_cons. unfold construct_step at 1.
    fold (excluded exclude_re (str_split TABC info)).
    destruct (excluded exclude_re (str_split TABC info)) eqn:Hex.
    + rewrite decide_False, decide_True by done.
      unfold bind at 1 2, debug, emit, ret. cbn [fst snd]. rewrite IH.
      by rewrite <-app_assoc.
    + rewrite decide_True, decide_False by done.
      unfold bind at 1, ret at 1. rewrite IH. by rewrite <-app_assoc.
Qed.

(** X1. [_construct_changeset] cannot fail: it returns the split lines of the
    output whose first field the pattern does not match, in their order, and
    logs one message for every line it drops; without a pattern it keeps
    every line. *)
Theorem construct_changeset_filters exclude_re output tr :
  _construct_changeset exclude_re output tr
  = (Ok (kept_lines exclude_re output), tr ++ excluded_log exclude_re output)
  ∧ Forall (λ change, excluded exclude_re change = false) (kept_lines exclude_re output)
  ∧ kept_lines exclude_re output `sublist_of` split_lines output
  ∧ kept_lines None output = split_lines output.
Proof.
  split; [apply construct_loop|]. split; [|split].
  - apply Forall_forall. by intros change [? _]%list_elem_of_filter.
  - apply sublist_filter.
  - unfold kept_lines. induction (split_lines output) as [|c l IH]; [done|].
    by rewrite filter_cons, decide_True, IH.
Qed.

Lemma construct_changeset_or_empty exclude_re output tr :
  (if String.eqb output "" then ret [] else _construct_changeset exclude_re output) tr
  = (Ok (kept_lines exclude_re output), tr ++ excluded_log exclude_re output).
Proof.
  destruct (String.eqb_spec output "") as [->|_]; [|apply construct_loop].
  unfold ret. by rewrite app_nil_r.
Qed.

Lemma checkedout_loop_ok (changeset : list (list string)) acc tr :
  Forall (λ change, length change = 3%nat) changeset →
  foldM checkedout_step changeset acc tr = (Ok (acc ++ omap entry3 changeset), tr)
  ∧ length (omap entry3 changeset) = length changeset.
Proof.
  intros Hall. revert acc. induction Hall as [|change cs Hlen _ IH]; intros acc.
  - simpl. by rewrite app_nil_r.
  - destruct change as [|path [|prev [|cur [|]]]]; try done.
    cbn [foldM omap entry3]. unfold checkedout_step at 1, bind at 1, ret at 1.
    destruct (IH (acc ++ [(_construct_extended_path path prev,
                           _construct_extended_path path cur, None)])) as [-> Hl].
    split; [by rewrite <-app_assoc|].
    change (S (length (omap entry3 cs)) = S (length cs)). by rewrite Hl.
Qed.

Lemma checkedout_loop_raise (pre post : list (list string)) bad acc tr :
  Forall (λ change, length change = 3%nat) pre → length bad ≠ 3%nat →
  foldM checkedout_step (pre ++ bad :: post) acc tr
  = (Raise (ValueError (Py.join TAB bad)), tr).
Proof.
  intros Hpre Hbad. revert acc. induction Hpre as [|change cs Hlen _ IH]; intros acc.
  - simpl. apply bind_raise. by destruct bad as [|a [|b [|c [|]]]].
  - destruct change as [|path [|prev [|cur [|]]]]; try done.
    cbn [foldM app]. unfold checkedout_step at 1, bind at 1, ret at 1. apply IH.
Qed.

(** X2. When every kept line of the output of the checkout query has three
    fields, [get_checkedout_changeset] returns one entry per kept line, in
    the order of the lines, each without exclusion fragments; lines the
    pattern matches give no entry. *)
Theorem checkedout_query_entries exclude_re output tr
    (Hfields : Forall (λ change, length change = 3%nat) (kept_lines exclude_re output)) :
  get_checkedout_changeset exclude_re output tr
  = (Ok (omap entry3 (kept_lines exclude_re output)),
     tr ++ excluded_log exclude_re output)
  ∧ length (omap entry3 (kept_lines exclude_re output))
    = length (kept_lines exclude_re output)
  ∧ Forall (λ e : entry, e.2 = None) (omap entry3 (kept_lines exclude_re output)).
Proof.
  unfold get_checkedout_changeset.
  rewrite (bind_step _ _ _ _ _ (construct_changeset_or_empty exclude_re output tr)).
  destruct (checkedout_loop_ok _ [] (tr ++ excluded_log exclude_re output) Hfields)
    as [Hrun Hlen].
  split; [done|]. split; [done|].
  apply Forall_forall. intros e (change & _ & He)%list_elem_of_omap.
  destruct change as [|path [|prev [|cur [|]]]]; simplify_eq/=; done.
Qed.

(** X3. A kept line that has not three fields makes
    [get_checkedout_changeset] raise [ValueError]; an empty line of the
    output is such a line. *)
Theorem checkedout_query_malformed exclude_re output tr pre bad post
    (Hkept : kept_lines exclude_re output = pre ++ bad :: post)
    (Hpre : Forall (λ change, length change = 3%nat) pre)
    (Hbad : length bad ≠ 3%nat) :
  get_checkedout_changeset exclude_re output tr
  = (Raise (ValueError (Py.join TAB bad)), tr ++ excluded_log exclude_re output).
Proof.
  unfold get_checkedout_changeset.
  rewrite (bind_step _ _ _ _ _ (construct_changeset_or_empty exclude_re output tr)).
  rewrite Hkept. by apply checkedout_loop_raise.
Qed.

Lemma checkedout_query_entries_witness :
  get_checkedout_changeset exclude_objects out_checkouts []
  = (Ok [("foo.c@@/main/3", "foo.c", None);
         ("dir/baz.h@@/main/br/2", "dir/baz.h", None)],
     [Debug "excluding bar.o from diff"])
  ∧ 2%nat = 2%nat
  ∧ Forall (λ e : entry, e.2 = None)
      [("foo.c@@/main/3", "foo.c", None : option (list (list string)));
       ("dir/baz.h@@/main/br/2", "dir/baz.h", None)].
Proof.
  apply (checkedout_query_entries exclude_objects out_checkouts []).
  vm_compute. repeat constructor.
Defined.

Lemma checkedout_query_malformed_witness :
  get_checkedout_changeset exclude_objects out_blank_line []
  = (Raise (ValueError ""), [Debug "excluding bar.o from diff"]).
Proof.
  apply (checkedout_query_malformed exclude_objects out_blank_line []
           [["foo.c"; "/main/3"; "/main/CHECKEDOUT"];
            ["dir/baz.h"; "/main/br/2"; "/main/br/CHECKEDOUT"]] [""] []).
  - vm_compute. reflexivity.
  - repeat constructor.
  - vm_compute. discriminate.
Defined.

(** ** Computations that never run the patch mechanism *)

Lemma no_patch_ret {A} (a : A) : no_patch (ret a).
Proof. by intros tr. Qed.

Lemma no_patch_raise {A} e : no_patch (raise e : M A).
Proof. by intros tr. Qed.

Lemma no_patch_debug msg : no_patch (debug msg).
Proof. intros tr. unfold debug, emit. simpl. by rewrite patches_run_app, app_nil_r. Qed.

Lemma no_patch_bind_post {A B} (c : M A) (k : A → M B) :
  no_patch c → (∀ tr a tr', c tr = (Ok a, tr') → no_patch (k a)) →
  no_patch (bind c k).
Proof.
  intros Hc Hk tr. unfold bind. specialize (Hc tr).
  destruct (c tr) as [[a|e] tr'] eqn:Hrun; [|done].
  simpl in Hc. rewrite <-Hc. by eapply Hk.
Qed.

Lemma no_patch_bind {A B} (c : M A) (k : A → M B) :
  no_patch c → (∀ a, no_patch (k a)) → no_patch (bind c k).
Proof. intros Hc Hk. apply no_patch_bind_post; auto. Qed.

Lemma no_patch_foldM {A S} (body : S → A → M S) (l : list A) (s : S) :
  Forall (λ x, ∀ s, no_patch (body s x)) l → no_patch (foldM body l s).
Proof.
  intros Hall. revert s. induction Hall as [|x l Hx _ IH]; intros s.
  - apply no_patch_ret.
  - simpl. apply no_patch_bind; auto.
Qed.

Lemma no_patch_execute_diff E u o n : no_patch (execute_diff E u o n).
Proof.
  intros tr. unfold execute_diff, bind, emit.
  destruct (diff_tool E u o n); simpl; by rewrite patches_run_app, app_nil_r.
Qed.

Lemma no_patch_execute_describe E f : no_patch (execute_describe E f).
Proof.
  intros tr. unfold execute_describe, bind, emit.
  destruct (describe_tool E f); simpl; by rewrite patches_run_app, app_nil_r.
Qed.

Lemma no_patch_read_contents E old_file new_file :
  no_patch (read_contents E old_file new_file).
Proof.
  unfold read_contents, listdir, read_text_file.
  destruct (isdir E new_file); [|destruct (exists_ E new_file)].
  - destruct (fs E old_file), (fs E new_file);
      repeat first [apply no_patch_bind; [|intros ?] | apply no_patch_ret
                   | apply no_patch_raise].
  - destruct (fs E old_file), (fs E new_file);
      repeat first [apply no_patch_bind; [|intros ?] | apply no_patch_ret
                   | apply no_patch_raise].
  - apply no_patch_bind; [apply no_patch_debug|intros; apply no_patch_ret].
Qed.

Lemma no_patch_content_diff E oc nc old_file new_file unified :
  no_patch (_content_diff E oc nc old_file new_file unified).
Proof.
  unfold _content_diff.
  apply no_patch_bind; [apply no_patch_execute_diff|intros; apply no_patch_ret].
Qed.

(** Without fragments [_diff] does not run the patch mechanism. *)
Lemma no_patch_diff E old_file new_file xpatches unified :
  no_exclusion xpatches → no_patch (_diff E old_file new_file xpatches unified).
Proof.
  intros Hx. unfold _diff. apply no_patch_bind; [apply no_patch_read_contents|].
  intros [[[oc|] [nc|]]|]; try apply no_patch_ret.
  - apply no_patch_bind.
    { intros tr. by rewrite apply_xpatches_none. }
    intros nc'. apply no_patch_bind; [apply no_patch_content_diff|].
    intros; apply no_patch_ret.
  - unfold read_file. destruct (fs E old_file), (fs E new_file);
      repeat first [apply no_patch_bind; [|intros ?] | apply no_patch_ret
                   | apply no_patch_raise | case_bool_decide].
  - unfold read_file. destruct (fs E old_file), (fs E new_file);
      repeat first [apply no_patch_bind; [|intros ?] | apply no_patch_ret
                   | apply no_patch_raise | case_bool_decide].
  - unfold read_file. destruct (fs E old_file), (fs E new_file);
      repeat first [apply no_patch_bind; [|intros ?] | apply no_patch_ret
                   | apply no_patch_raise | case_bool_decide].
Qed.

Lemma no_patch_do_diff E (changeset : list entry) :
  Forall (λ e : entry, no_exclusion e.2) changeset → no_patch (do_diff E changeset).
Proof.
  intros Hall. unfold do_diff. apply no_patch_bind; [|intros; apply no_patch_ret].
  apply no_patch_foldM. eapply Forall_impl; [done|].
  intros [[old_file new_file] xps] Hx acc. unfold do_diff_step.
  apply no_patch_bind; [apply no_patch_execute_describe|intros old_oid].
  apply no_patch_bind; [apply no_patch_execute_describe|intros new_oid].
  apply no_patch_bind; [by apply no_patch_diff|intros; apply no_patch_ret].
Qed.

Lemma no_patch_branch_step E O st r : no_patch (branch_step E O st r).
Proof.
  destruct st as [cl xl], r as [path prev cur hlinks]. unfold branch_step.
  apply no_patch_bind.
  { destruct (_determine_version cur); [apply no_patch_ret|apply no_patch_raise]. }
  intros v. apply no_patch_bind; [|intros; apply no_patch_ret].
  destruct (xmerge O && hlink_merge_match hlinks); [|apply no_patch_ret].
  apply no_patch_bind; [apply no_patch_diff; by left|].
  intros [| |[|l d]]; apply no_patch_ret.
Qed.

Lemma no_patch_sanitize_branch_records E O changeset :
  no_patch (sanitize_branch_records E O changeset).
Proof.
  unfold sanitize_branch_records. apply no_patch_bind.
  - apply no_patch_foldM, Forall_forall. intros change _ st.
    unfold branch_step_raw.
    destruct change as [|a [|b [|c [|d [|]]]]];
      first [apply no_patch_raise | apply no_patch_branch_step].
  - intros [cl xl]. apply no_patch_foldM, Forall_forall. intros item _ acc.
    unfold emit_step. apply no_patch_bind; [|intros; apply no_patch_ret].
    destruct (opt_debug O); [apply no_patch_debug|apply no_patch_ret].
Qed.

Lemma no_patch_construct_or_empty exclude_re output :
  no_patch (if String.eqb output "" then ret []
            else _construct_changeset exclude_re output).
Proof.
  intros tr. rewrite construct_changeset_or_empty. simpl.
  rewrite patches_run_app. unfold excluded_log, patches_run at 2.
  induction (filter _ _) as [|c l IH]; [by rewrite app_nil_r|done].
Qed.

Lemma checkedout_loop_none (changeset : list (list string)) acc tr entries tr' :
  foldM checkedout_step changeset acc tr = (Ok entries, tr') →
  Forall (λ e : entry, no_exclusion e.2) acc →
  Forall (λ e : entry, no_exclusion e.2) entries.
Proof.
  revert acc tr. induction changeset as [|change cs IH]; intros acc tr.
  - by intros [<- _]%ret_ok.
  - intros (acc1 & tr1 & Hstep & Hrest)%foldM_cons_ok Hacc.
    apply (IH _ _ Hrest). unfold checkedout_step in Hstep.
    destruct change as [|path [|prev [|cur [|]]]]; try done.
    apply ret_ok in Hstep as [<- _]. apply Forall_app. split; [done|].
    constructor; [by left|done].
Qed.

(** Without the exclusion option no fragment is ever collected. *)
Lemma branch_raw_loop_no_fragments E O (changeset : list (list string)) cl xl tr cl' xl' tr' :
  xmerge O = false →
  foldM (branch_step_raw E O) changeset (cl, xl) tr = (Ok (cl', xl'), tr') →
  xl' = xl.
Proof.
  intros Hx. revert cl xl tr. induction changeset as [|change cs IH]; intros cl xl tr.
  - by intros [[= _ <-] _]%ret_ok.
  - intros ([cl1 xl1] & tr1 & Hstep & Hrest)%foldM_cons_ok.
    rewrite (IH _ _ _ Hrest). unfold branch_step_raw in Hstep.
    destruct change as [|a [|b [|c [|d [|]]]]]; try done.
    apply branch_step_ok in Hstep as (v & _ & _ & [->|[Htrue _]]); [done|congruence].
Qed.

Lemma sanitize_branch_records_plain E O changeset tr entries tr' :
  xmerge O = false →
  sanitize_branch_records E O changeset tr = (Ok entries, tr') →
  Forall (λ e : entry, no_exclusion e.2) entries.
Proof.
  intros Hx. unfold sanitize_branch_records.
  intros ([cl xl] & tr1 & Hloop & Hemit)%bind_ok.
  apply (branch_raw_loop_no_fragments _ _ _ _ _ _ _ _ _ Hx) in Hloop as ->.
  destruct (emit_loop_ok O ∅ (map_to_list cl) [] tr1) as [tr2 Heq].
  rewrite Heq in Hemit. injection Hemit as <- _.
  apply Forall_forall. intros e ([path t] & <- & _)%list_elem_of_In%in_map_iff.
  right. simpl. unfold xpatches_of. by rewrite lookup_empty.
Qed.

(** X4. In checkout mode, and in branch mode when the option to exclude
    merges is off, [diff] never runs the patch mechanism, whatever the query
    printed and whatever the outcome. *)
Theorem diff_never_patches E O exclude_re tracking output tr
    (Hmode : tracking = "" ∨ xmerge O = false) :
  patches_run (diff E O exclude_re tracking output tr).2 = patches_run tr.
Proof.
  revert tr. change (no_patch (diff E O exclude_re tracking output)).
  unfold diff. apply no_patch_bind_post.
  - destruct (negb (String.eqb tracking "")).
    + unfold get_branch_changeset.
      apply no_patch_bind; [apply no_patch_construct_or_empty|].
      intros; apply no_patch_sanitize_branch_records.
    + unfold get_checkedout_changeset.
      apply no_patch_bind; [apply no_patch_construct_or_empty|].
      intros cs. apply no_patch_foldM, Forall_forall. intros change _ acc.
      unfold checkedout_step.
      destruct change as [|a [|b [|c [|]]]];
        first [apply no_patch_raise | apply no_patch_ret].
  - intros tr entries tr' Hq. apply no_patch_do_diff.
    destruct (String.eqb_spec tracking "") as [->|Hne]; simpl in Hq.
    + unfold get_checkedout_changeset in Hq.
      apply bind_ok in Hq as (cs & tr1 & _ & Hloop).
      by apply checkedout_loop_none in Hloop.
    + destruct Hmode as [?|Hx]; [done|]. unfold get_branch_changeset in Hq.
      apply bind_ok in Hq as (cs & tr1 & _ & Hloop).
      by eapply sanitize_branch_records_plain.
Qed.

Lemma diff_never_patches_witness :
  patches_run (diff world_checkout merge_options exclude_objects "" out_checkouts []).2
  = patches_run [].
Proof.
  apply (diff_never_patches world_checkout merge_options exclude_objects ""
           out_checkouts []).
  left. reflexivity.
Defined.

(** Scenario C of the specification: the excluded file is in no line of the
    assembled diff and no command is run on it. *)
Example scenario_c :
  diff world_checkout no_options exclude_objects "" out_checkouts []
  = (Ok (nl ("--- foo.c@@/main/3" +:+ TAB) +:+ nl ("+++ foo.c" +:+ TAB) +:+
         nl "==== oid:foo.c@@/main/3 oid:foo.c ====" +:+
         nl "@@ -1 +1 @@" +:+ nl "-x" +:+ nl "+y" +:+
         nl "==== oid:dir/baz.h@@/main/br/2 oid:dir/baz.h ====" +:+
         nl "File dir/baz.h in your changeset is unmodified", None),
     [Debug "excluding bar.o from diff";
      Exec (CmdDescribe "foo.c@@/main/3"); Exec (CmdDescribe "foo.c");
      Exec (CmdDiff true (nl "x") (nl "y"));
      Exec (CmdDescribe "dir/baz.h@@/main/br/2"); Exec (CmdDescribe "dir/baz.h");
      Exec (CmdDiff true (nl "x") (nl "x"))]).
Proof. vm_compute. reflexivity. Qed.

(** ** [diff_between_revisions] *)

Lemma str_split_go_no_sep sep cur s :
  Py.contains sep s = false → str_split_go sep cur s = [cur +:+ s].
Proof.
  revert cur. induction s as [|c r IH]; intros cur; simpl.
  - by rewrite str_app_nil_r.
  - destruct (Ascii.eqb c sep); [done|]. intros Hr. by rewrite IH, str_app_snoc.
Qed.

Lemma str_split_go_cons sep cur s : ∃ a l, str_split_go sep cur s = a :: l.
Proof.
  revert cur. induction s as [|c r IH]; intros cur; simpl; [by eauto|].
  destruct (Ascii.eqb c sep); by eauto.
Qed.

Lemma str_split_go_sep sep cur s :
  Py.contains sep s = true → ∃ a b l, str_split_go sep cur s = a :: b :: l.
Proof.
  revert cur. induction s as [|c r IH]; intros cur; simpl; [done|].
  destruct (Ascii.eqb c sep); [|by auto]. intros _.
  destruct (str_split_go_cons sep "" r) as (b & l & ->). by eauto.
Qed.

(** X5. [diff_between_revisions] never produces a diff: for a range with a
    semicolon the loop of [do_diff] meets a pair where it unpacks three
    values and raises [ValueError] before any command is run; for a range
    without one the changeset is empty and the diff is the empty text. *)
Theorem diff_between_revisions_never_diffs revision_range tr :
  diff_between_revisions revision_range tr
  = (if Py.contains ";"%char revision_range
     then Raise (ValueError "need more than 2 values to unpack")
     else Ok ("", None), tr).
Proof.
  unfold diff_between_revisions, str_split.
  destruct (Py.contains ";"%char revision_range) eqn:Hc.
  - destruct (str_split_go_sep _ "" _ Hc) as (a & b & l & ->). done.
  - by rewrite (str_split_go_no_sep _ "" _ Hc).
Qed.

(** ** [do_diff] on a changeset in two parts *)

Lemma concat_app (l1 l2 : list string) :
  Py.concat (l1 ++ l2) = Py.concat l1 +:+ Py.concat l2.
Proof.
  induction l1 as [|x l1 IH]; [done|]. unfold Py.concat in *. simpl.
  by rewrite IH, str_app_assoc.
Qed.

Lemma do_diff_loop_acc E changeset acc tr acc' tr' :
  foldM (do_diff_step E) changeset acc tr = (Ok acc', tr') ↔
  ∃ rs, foldM (do_diff_step E) changeset [] tr = (Ok rs, tr') ∧ acc' = acc ++ rs.
Proof.
  revert acc tr acc'. induction changeset as [|[[old_file new_file] xps] cs IH];
    intros acc tr acc'.
  - simpl. rewrite ret_ok. split.
    + intros [<- <-]. exists []. by rewrite app_nil_r.
    + intros (rs & [<- <-]%ret_ok & ->). by rewrite app_nil_r.
  - rewrite !foldM_cons_ok. split.
    + intros (acc1 & tr1 & Hstep & Hrest).
      apply do_diff_step_ok in Hstep as (oo & on & dl & Ho & Hn & Hd & ->).
      apply IH in Hrest as (rs & Hrs & ->). eexists (_ :: rs).
      split; [|by rewrite <-app_assoc]. apply foldM_cons_ok.
      eexists [_], tr1. split.
      * apply do_diff_step_ok. by exists oo, on, dl.
      * apply IH. by exists rs.
    + intros (rs & (acc1 & tr1 & Hstep & Hrest)%foldM_cons_ok & ->).
      apply do_diff_step_ok in Hstep as (oo & on & dl & Ho & Hn & Hd & ->).
      apply IH in Hrest as (rs' & Hrs' & ->). eexists _, tr1. split.
      * apply do_diff_step_ok. by exists oo, on, dl.
      * apply IH. exists rs'. split; [done|]. by rewrite <-!app_assoc.
Qed.

Lemma do_diff_ok E changeset tr text parent tr' :
  do_diff E changeset tr = (Ok (text, parent), tr') ↔
  ∃ rs, foldM (do_diff_step E) changeset [] tr = (Ok rs, tr')
        ∧ text = Py.concat rs ∧ parent = None.
Proof.
  unfold do_diff. rewrite bind_ok. split.
  - intros (rs & tr1 & Hloop & [[= <- <-] <-]%ret_ok). by exists rs.
  - intros (rs & Hloop & -> & ->). by exists rs, tr'.
Qed.

(** X6. The diff of a changeset in two parts is the diff of the first part
    followed by the diff of the second part, the second computed after the
    first. *)
Theorem do_diff_app E cs1 cs2 tr text parent tr' :
  do_diff E (cs1 ++ cs2) tr = (Ok (text, parent), tr') ↔
  ∃ t1 t2 tr1,
    do_diff E cs1 tr = (Ok (t1, None), tr1)
    ∧ do_diff E cs2 tr1 = (Ok (t2, None), tr')
    ∧ text = t1 +:+ t2 ∧ parent = None.
Proof.
  rewrite do_diff_ok. split.
  - intros (rs & (rs1 & tr1 & H1 & H2)%foldM_app_ok & -> & ->).
    apply do_diff_loop_acc in H2 as (rs2 & H2 & ->).
    exists (Py.concat rs1), (Py.concat rs2), tr1.
    split; [apply do_diff_ok; by exists rs1|].
    split; [apply do_diff_ok; by exists rs2|]. by rewrite concat_app.
  - intros (t1 & t2 & tr1 & (rs1 & H1 & -> & _)%do_diff_ok
            & (rs2 & H2 & -> & _)%do_diff_ok & -> & ->).
    exists (rs1 ++ rs2). split; [|by rewrite concat_app].
    apply foldM_app_ok. exists rs1, tr1. split; [done|].
    apply do_diff_loop_acc. by exists rs2.
Qed.

Lemma foldM_app_raise {A S} (body : S → A → M S) l1 l2 s tr e tr' :
  foldM body l1 s tr = (Raise e, tr') → foldM body (l1 ++ l2) s tr = (Raise e, tr').
Proof.
  revert s tr. induction l1 as [|x l1 IH]; intros s tr; [done|]. simpl.
  unfold bind. destruct (body s x tr) as [[s1|e1] tr1]; [apply IH|done].
Qed.

(** X7. An exception in one part of a changeset ends [do_diff] on the whole:
    no text is returned and the entries after it are not touched. *)
Theorem do_diff_aborts E cs1 cs2 tr e tr1
    (Hraise : do_diff E cs1 tr = (Raise e, tr1)) :
  do_diff E (cs1 ++ cs2) tr = (Raise e, tr1).
Proof.
  unfold do_diff, bind in *.
  destruct (foldM (do_diff_step E) cs1 [] tr) as [[rs|e1] tr2] eqn:Hloop; [done|].
  injection Hraise as -> ->. by rewrite (foldM_app_raise _ _ _ _ _ _ _ Hloop).
Qed.

Lemma do_diff_aborts_witness :
  do_diff world_files ([("gone.txt", "a.txt", None)] ++ [("a.txt", "c.txt", None)]) []
  = (Raise (IOError "gone.txt"),
     [Exec (CmdDescribe "gone.txt"); Exec (CmdDescribe "a.txt")]).
Proof.
  apply (do_diff_aborts world_files [("gone.txt", "a.txt", None)]
           [("a.txt", "c.txt", None)] []).
  vm_compute. reflexivity.
Defined.

(** ** More on [read_text_file] *)

Lemma str_app_cons_ne s a t : s +:+ String a t ≠ "".
Proof. by destruct s. Qed.

Lemma concat_cons x (l : list string) : Py.concat (x :: l) = x +:+ Py.concat l.
Proof. done. Qed.

(** With [keepends] the lines are not empty and add up to the text. *)
Lemma splitlines_keep_concat n s cur :
  (String.length s ≤ n)%nat →
  Py.concat (Py.splitlines_go true cur s) = cur +:+ s
  ∧ Forall (λ line, line ≠ "") (Py.splitlines_go true cur s).
Proof.
  revert s cur. induction n as [|n IH]; intros s cur Hn.
  { destruct s; [|simpl in Hn; lia]. simpl.
    destruct (String.eqb_spec cur "") as [->|Hne]; [done|].
    split; [by rewrite concat_cons|by repeat constructor]. }
  destruct s as [|c r].
  { simpl. destruct (String.eqb_spec cur "") as [->|Hne]; [done|].
    split; [by rewrite concat_cons|by repeat constructor]. }
  simpl in Hn. cbn [Py.splitlines_go].
  destruct (Ascii.eqb_spec c Py.LF) as [->|Hc1].
  - destruct (IH r "" ltac:(lia)) as [Hcat Hne]. rewrite concat_cons, Hcat.
    split; [by rewrite str_app_snoc|]. constructor; [apply str_app_cons_ne|done].
  - destruct (Ascii.eqb_spec c Py.CR) as [->|Hc2].
    + destruct r as [|c' r'].
      { split; [by rewrite concat_cons, !str_app_nil_r|].
        repeat constructor. apply str_app_cons_ne. }
      destruct (Ascii.eqb_spec c' Py.LF) as [->|Hc3].
      * simpl in Hn. destruct (IH r' "" ltac:(lia)) as [Hcat Hne].
        rewrite concat_cons, Hcat.
        split; [by rewrite str_app_assoc|]. constructor; [apply str_app_cons_ne|done].
      * destruct (IH (String c' r') "" ltac:(simpl in Hn |- *; lia)) as [Hcat Hne].
        rewrite concat_cons, Hcat.
        split; [by rewrite str_app_snoc|]. constructor; [apply str_app_cons_ne|done].
    + destruct (IH r (cur +:+ String c "") ltac:(lia)) as [Hcat Hne].
      by rewrite Hcat, str_app_snoc.
Qed.

(** X8. Reading a text file with [keepends] loses nothing: the lines
    returned are not empty and, put one after the other, they are the data
    of the file. *)
Theorem read_text_file_keepends_roundtrip E file data tr
    (Hfile : fs E file = File data)
    (Htext : Py.contains Py.NUL data = false) :
  ∃ lines,
    read_text_file E file true tr = (Ok (Some lines), tr)
    ∧ Py.concat lines = data
    ∧ Forall (λ line, line ≠ "") lines.
Proof.
  exists (Py.splitlines true data). unfold read_text_file.
  rewrite Hfile, read_loop_chunks, Htext. split; [done|].
  apply (splitlines_keep_concat (String.length data)). done.
Qed.

Lemma read_text_file_keepends_roundtrip_witness :
  ∃ lines,
    read_text_file world_files "a.txt" true [] = (Ok (Some lines), [])
    ∧ Py.concat lines = nl "x"
    ∧ Forall (λ line, line ≠ "") lines.
Proof.
  apply (read_text_file_keepends_roundtrip world_files "a.txt" (nl "x") []);
    reflexivity.
Defined.

(** Without [keepends] no line holds a terminator. *)
Lemma splitlines_go_clean n s cur :
  (String.length s ≤ n)%nat → no_eol cur →
  Forall no_eol (Py.splitlines_go false cur s).
Proof.
  revert s cur. induction n as [|n IH]; intros s cur Hn Hcur.
  { destruct s; [|simpl in Hn; lia]. simpl.
    destruct (String.eqb cur ""); [constructor|by constructor]. }
  destruct s as [|c r].
  { simpl. destruct (String.eqb cur ""); [constructor|by constructor]. }
  simpl in Hn. cbn [Py.splitlines_go]. rewrite !str_app_nil_r.
  assert (no_eol "") as Hnil by done.
  destruct (Ascii.eqb_spec c Py.LF) as [->|Hc1].
  - constructor; [done|]. apply IH; [lia|done].
  - destruct (Ascii.eqb_spec c Py.CR) as [->|Hc2].
    + destruct r as [|c' r']; [by constructor|].
      destruct (Ascii.eqb_spec c' Py.LF) as [->|Hc3].
      * constructor; [done|]. apply IH; [simpl in Hn; lia|done].
      * constructor; [done|]. apply IH; [simpl in Hn |- *; lia|done].
    + apply IH; [lia|]. destruct Hcur as [H1 H2]. unfold no_eol.
      rewrite !contains_app, H1, H2. simpl.
      apply Ascii.eqb_neq in Hc1, Hc2. by rewrite Hc1, Hc2.
Qed.

Lemma lines_eof_clean raw : Forall no_eol (Py.lines_eof raw).
Proof.
  unfold Py.lines_eof, Py.splitlines.
  pose proof (splitlines_go_clean (String.length raw) raw "" ltac:(done) ltac:(done)).
  destruct (Py.endswith raw _); [|done]. apply Forall_app. split; [done|by constructor].
Qed.

(** X9. The lines of a text file read without [keepends], and the lines
    [_patch] returns, hold neither a line feed nor a carriage return. *)
Theorem lines_hold_no_terminator E :
  (∀ file lines tr tr',
     read_text_file E file false tr = (Ok (Some lines), tr') → Forall no_eol lines)
  ∧ (∀ content patch lines tr tr',
       _patch E content patch tr = (Ok lines, tr') → Forall no_eol lines).
Proof.
  split.
  - intros file lines tr tr'. unfold read_text_file.
    destruct (fs E file) as [| | |data]; try done.
    rewrite read_loop_chunks. destruct (Py.contains Py.NUL data); [done|].
    intros [[= <-] _]%ret_ok. apply lines_eof_clean.
  - intros content patch lines tr tr' (output & raw & _ & ->)%patch_ok.
    apply lines_eof_clean.
Qed.

Lemma lines_hold_no_terminator_witness :
  Forall no_eol ["x"; ""] ∧ Forall no_eol ["a"; ""].
Proof.
  split.
  - apply (proj1 (lines_hold_no_terminator world_files) "a.txt" ["x"; ""] [] []).
    reflexivity.
  - apply (proj2 (lines_hold_no_terminator world_cr) ["a"] ["p"] ["a"; ""] []
             [Exec (CmdPatch "a" "p")]).
    reflexivity.
Defined.

(** ** Line terminators are not compared *)

Lemma to_crlf_nil s : to_crlf s = "" ↔ s = "".
Proof. destruct s as [|c r]; simpl; [done|]. by destruct (Ascii.eqb c Py.LF). Qed.

Lemma to_crlf_splitlines s cur :
  Py.contains Py.CR s = false →
  Py.splitlines_go false cur (to_crlf s) = Py.splitlines_go false cur s.
Proof.
  revert cur. induction s as [|c r IH]; intros cur Hcr; [done|].
  simpl in Hcr. destruct (Ascii.eqb_spec c Py.CR) as [->|Hc2]; [done|].
  cbn [to_crlf]. destruct (Ascii.eqb_spec c Py.LF) as [->|Hc1].
  - cbn. by rewrite IH.
  - cbn [Py.splitlines_go].
    apply Ascii.eqb_neq in Hc1, Hc2. rewrite Hc1, Hc2. by apply IH.
Qed.

Lemma to_crlf_endswith s :
  Py.endswith (to_crlf s) (String Py.LF "") = Py.endswith s (String Py.LF "").
Proof.
  induction s as [|c r IH]; [done|]. cbn [to_crlf].
  destruct (Ascii.eqb_spec c Py.LF) as [->|Hc1].
  - rewrite (ends_in_cons Py.LF Py.CR), (ends_in_cons Py.LF Py.LF (to_crlf r)),
      (ends_in_cons Py.LF Py.LF r).
    change (String.eqb (String Py.LF (to_crlf r)) "") with false. cbv iota.
    rewrite <-IH. destruct r as [|a r]; [done|].
    destruct (to_crlf (String a r)) eqn:Hr; [by pose proof (proj1 (to_crlf_nil _) Hr)|done].
  - rewrite (ends_in_cons Py.LF c (to_crlf r)), (ends_in_cons Py.LF c r).
    rewrite <-IH. destruct r as [|a r]; [done|].
    destruct (to_crlf (String a r)) eqn:Hr; [by pose proof (proj1 (to_crlf_nil _) Hr)|done].
Qed.

Lemma to_crlf_contains c s :
  c ≠ Py.CR → Py.contains c (to_crlf s) = Py.contains c s.
Proof.
  intros Hc. induction s as [|a r IH]; [done|]. cbn [to_crlf].
  destruct (Ascii.eqb_spec a Py.LF) as [->|Ha]; cbn [Py.contains]; rewrite IH; [|done].
  by destruct (Ascii.eqb_spec Py.CR c) as [<-|_].
Qed.

Lemma to_crlf_lines_eof s :
  Py.contains Py.CR s = false → Py.lines_eof (to_crlf s) = Py.lines_eof s.
Proof.
  intros Hcr. unfold Py.lines_eof, Py.splitlines.
  by rewrite (to_crlf_endswith s), to_crlf_splitlines.
Qed.

(** X10. Two text files that differ only in that one ends its lines with a
    line feed and the other with a carriage return and a line feed are read
    as the same lines, so that [_diff] hands two equal texts to the diff
    mechanism and, when that prints nothing for equal texts, answers the
    empty list of lines. *)
Theorem line_terminators_not_compared E old_file new_file data xpatches unified tr
    (Hold : fs E old_file = File data)
    (Hnew : fs E new_file = File (to_crlf data))
    (Hcr : Py.contains Py.CR data = false)
    (Hnul : Py.contains Py.NUL data = false)
    (Hx : no_exclusion xpatches)
    (Hrefl : diff_tool E unified (Py.join Py.linesep (Py.lines_eof data))
               (Py.join Py.linesep (Py.lines_eof data)) = Some "") :
  read_text_file E new_file false tr = read_text_file E old_file false tr
  ∧ _diff E old_file new_file xpatches unified tr
    = (Ok (DLines []),
       tr ++ [Exec (CmdDiff unified (Py.join Py.linesep (Py.lines_eof data))
                      (Py.join Py.linesep (Py.lines_eof data)))]).
Proof.
  assert (Py.contains Py.NUL (to_crlf data) = false) as Hnul'.
  { by rewrite to_crlf_contains. }
  split.
  - rewrite (read_text_file_ok _ _ _ _ Hold), (read_text_file_ok _ _ _ _ Hnew).
    by rewrite Hnul, Hnul', to_crlf_lines_eof.
  - rewrite (diff_text _ _ _ _ _ _ _ _ Hold Hnew Hnul Hnul').
    rewrite (bind_step _ _ _ _ _ (apply_xpatches_none _ _ _ _ Hx)).
    rewrite to_crlf_lines_eof by done.
    apply bind_ok. eexists _, _. split.
    + apply content_diff_ok. exists "". by split; [|split].
    + by destruct unified.
Qed.

Lemma line_terminators_not_compared_witness :
  read_text_file world_eol "dos.txt" false [] = read_text_file world_eol "unix.txt" false []
  ∧ _diff world_eol "unix.txt" "dos.txt" None true []
    = (Ok (DLines []),
       [Exec (CmdDiff true (Py.join Py.linesep (Py.lines_eof (nl "x" +:+ nl "y")))
                (Py.join Py.linesep (Py.lines_eof (nl "x" +:+ nl "y"))))]).
Proof.
  apply (line_terminators_not_compared world_eol "unix.txt" "dos.txt"
           (nl "x" +:+ nl "y") None true []); try reflexivity.
  left. reflexivity.
Defined.

(** ** More on the version model *)

Lemma split_go_no_slash s head cur :
  Py.contains "/"%char s = false → Py.split_go s head cur = (head, cur +:+ s).
Proof.
  revert cur. induction s as [|c r IH]; intros cur; simpl.
  - by rewrite str_app_nil_r.
  - destruct (Ascii.eqb c "/"); [done|]. intros Hr. by rewrite IH, str_app_snoc.
Qed.

Lemma split_go_leaf a leaf head cur :
  Py.contains "/"%char leaf = false →
  Py.split_go (a +:+ String "/" leaf) head cur = (head +:+ cur +:+ a +:+ "/", leaf).
Proof.
  intros Hleaf. revert head cur. induction a as [|c a IH]; intros head cur.
  - change (Py.split_go (String "/" leaf) head cur = (head +:+ cur +:+ "/", leaf)).
    simpl. by rewrite split_go_no_slash.
  - change (Py.split_go (String c (a +:+ String "/" leaf)) head cur
            = (head +:+ cur +:+ String c (a +:+ "/"), leaf)).
    simpl. destruct (Ascii.eqb_spec c "/") as [->|_]; rewrite IH.
    + by rewrite !str_app_assoc.
    + by rewrite str_app_snoc.
Qed.

Lemma determine_version_leaf_eq branch leaf :
  Py.contains "/"%char leaf = false →
  _determine_version (branch +:+ "/" +:+ leaf)
  = (if String.eqb leaf CHECKEDOUT then Some Inf else Num <$> Py.int leaf).
Proof.
  intros Hleaf. unfold _determine_version, Py.path_split.
  change (branch +:+ "/" +:+ leaf) with (branch +:+ String "/" leaf).
  by rewrite split_go_leaf.
Qed.

(** X11. For a version that names a branch and, after the last slash, a
    leaf, [_determine_version] looks at the leaf only: it is infinity
    exactly for the leaf [CHECKEDOUT], and otherwise the integer the leaf
    spells, or [ValueError] when it spells none. *)
Theorem determine_version_leaf branch leaf
    (Hleaf : Py.contains "/"%char leaf = false) :
  _determine_version (branch +:+ "/" +:+ leaf)
  = (if String.eqb leaf CHECKEDOUT then Some Inf else Num <$> Py.int leaf)
  ∧ (_determine_version (branch +:+ "/" +:+ leaf) = Some Inf ↔ leaf = CHECKEDOUT).
Proof.
  pose proof (determine_version_leaf_eq branch leaf Hleaf) as Heq.
  split; [done|]. rewrite Heq.
  destruct (String.eqb_spec leaf CHECKEDOUT) as [->|Hne]; [done|].
  split; [|done]. by destruct (Py.int leaf).
Qed.

Lemma determine_version_leaf_witness :
  _determine_version ("/main/br" +:+ "/" +:+ "12")
  = (if String.eqb "12" CHECKEDOUT then Some Inf else Num <$> Py.int "12")
  ∧ (_determine_version ("/main/br" +:+ "/" +:+ "12") = Some Inf ↔ "12" = CHECKEDOUT).
Proof. apply (determine_version_leaf "/main/br" "12"). reflexivity. Defined.

Lemma dec_all_digits d : all_digits (dec d).
Proof.
  induction d as [|d IH|d IH|d IH|d IH|d IH|d IH|d IH|d IH|d IH|d IH];
    intros c Hc; [done|..]; cbn [dec DecimalString.NilEmpty.string_of_uint Py.contains] in Hc;
    (match type of Hc with
     | (if Ascii.eqb ?a ?b then _ else _) = _ =>
         destruct (Ascii.eqb_spec a b) as [Heq|_];
           [rewrite <-Heq; by eexists|by apply IH]
     end).
Qed.

Lemma digits_go_dec d acc :
  0 ≤ acc →
  Py.digits_go acc (dec d) = Some (Z.of_nat (Nat.of_uint_acc d (Z.to_nat acc))).
Proof.
  revert acc.
  induction d as [|d IH|d IH|d IH|d IH|d IH|d IH|d IH|d IH|d IH|d IH];
    intros acc Hacc;
    [simpl; f_equal; lia|..];
    cbn [dec DecimalString.NilEmpty.string_of_uint Py.digits_go Py.digit
         Ascii.is_nat fmap option_fmap option_map];
    (rewrite IH by lia); do 2 f_equal;
    cbn [Nat.of_uint_acc]; f_equal; rewrite Nat.tail_mul_spec; lia.
Qed.

Lemma str_of_nat_dec n :
  str_of_nat n = dec (Nat.to_uint n) ∧ dec (Nat.to_uint n) ≠ "".
Proof.
  unfold str_of_nat, DecimalString.NilZero.string_of_uint.
  destruct (Nat.to_uint n) as [|d|d|d|d|d|d|d|d|d|d] eqn:Hn; try done.
  pose proof (DecimalNat.Unsigned.of_to n) as Hof. rewrite Hn in Hof. simpl in Hof.
  subst n. done.
Qed.

Lemma int_str_of_nat n : Py.int (str_of_nat n) = Some (Z.of_nat n).
Proof.
  destruct (str_of_nat_dec n) as [-> Hne].
  pose proof (dec_all_digits (Nat.to_uint n)) as Hdig.
  pose proof (digits_go_dec (Nat.to_uint n) 0 ltac:(done)) as Hgo.
  change (Nat.of_uint_acc (Nat.to_uint n) (Z.to_nat 0)) with (Nat.of_uint (Nat.to_uint n)) in Hgo.
  rewrite DecimalNat.Unsigned.of_to in Hgo.
  destruct (dec (Nat.to_uint n)) as [|c r] eqn:Hd; [done|].
  destruct (Hdig c) as [k Hk]; [simpl; by rewrite Ascii.eqb_refl|].
  assert (Ascii.is_space c = false ∧ c ≠ "+"%char ∧ c ≠ "-"%char) as (Hsp & Hplus & Hminus).
  { repeat split; try (intros ->; by vm_compute in Hk).
    destruct (Ascii.is_space c) eqn:Hs; [|done].
    revert Hk Hs. unfold Py.digit, Ascii.is_space, Ascii.is_nat.
    by repeat case_match. }
  unfold Py.int. cbn [Py.lstrip]. rewrite Hsp.
  assert (Py.digits (String c r) = Some (Z.of_nat n)) as Hdigits.
  { unfold Py.digits. by rewrite Hk. }
  destruct c as [[] [] [] [] [] [] [] []]; try done.
Qed.

(** X12. The version numbered [n] on a branch has the number [n]: what
    [str] prints for a natural number, [_determine_version] reads back. *)
Theorem determine_version_number branch n :
  _determine_version (branch +:+ "/" +:+ str_of_nat n) = Some (Num (Z.of_nat n)).
Proof.
  destruct (str_of_nat_dec n) as [Hdec Hne].
  pose proof (dec_all_digits (Nat.to_uint n)) as Hdig. rewrite <-Hdec in Hdig, Hne.
  rewrite determine_version_leaf_eq.
  2: { destruct (Py.contains "/"%char (str_of_nat n)) eqn:Hc; [|done].
    destruct (Hdig _ Hc) as [k Hk]. by vm_compute in Hk. }
  destruct (String.eqb_spec (str_of_nat n) CHECKEDOUT) as [Heq|_].
  - destruct (Hdig "C"%char) as [k Hk]; [by rewrite Heq|]. by vm_compute in Hk.
  - by rewrite int_str_of_nat.
Qed.

(** ** Directories *)

Lemma sorted_str_perm (l1 l2 : list string) :
  l1 ≡ₚ l2 → sorted_str l1 = sorted_str l2.
Proof.
  intros Hperm. unfold sorted_str.
  apply (StronglySorted_unique String.le).
  - apply StronglySorted_merge_sort; apply _.
  - apply StronglySorted_merge_sort; apply _.
  - by rewrite !merge_sort_Permutation.
Qed.

(** X13. The diff of two directories does not depend on the order in which
    the system lists their entries: the listings are sorted before they are
    compared. *)
Theorem directory_diff_ignores_listing_order fs1 fs2 diff_tool patch_tool
    describe1 describe2 old_file new_file old1 old2 new1 new2 xpatches unified tr
    (Hold1 : fs1 old_file = Dir old1) (Hnew1 : fs1 new_file = Dir new1)
    (Hold2 : fs2 old_file = Dir old2) (Hnew2 : fs2 new_file = Dir new2)
    (Hold : old1 ≡ₚ old2) (Hnew : new1 ≡ₚ new2) :
  _diff (Env fs1 diff_tool patch_tool describe1) old_file new_file xpatches unified tr
  = _diff (Env fs2 diff_tool patch_tool describe2) old_file new_file xpatches unified tr.
Proof.
  unfold _diff, read_contents, isdir, listdir. simpl.
  rewrite Hold1, Hnew1, Hold2, Hnew2. unfold bind at 1 2 3 5 6 7, ret at 1 2.
  by rewrite (sorted_str_perm _ _ Hold), (sorted_str_perm _ _ Hnew).
Qed.

Lemma directory_diff_ignores_listing_order_witness :
  _diff (Env fs_listing_a (diff_tool world_files) (patch_tool world_files) oid_of)
    "old_dir" "new_dir" None true []
  = _diff (Env fs_listing_b (diff_tool world_files) (patch_tool world_files) oid_of)
      "old_dir" "new_dir" None true [].
Proof.
  apply (directory_diff_ignores_listing_order fs_listing_a fs_listing_b _ _ _ _
           "old_dir" "new_dir" ["b.c"; "a.c"] ["a.c"; "b.c"]
           ["c.c"; "a.c"; "b.c"] ["b.c"; "c.c"; "a.c"]); try reflexivity.
  - apply Permutation_swap.
  - change (["c.c"; "a.c"; "b.c"] ≡ₚ ["b.c"] ++ ["c.c"; "a.c"]).
    rewrite (Permutation_app_comm ["b.c"]). reflexivity.
Defined.

(** ** More on the branch reducer *)

Lemma foldM_app_eq {A S} (body : S → A → M S) l1 l2 s tr :
  foldM body (l1 ++ l2) s tr = bind (foldM body l1 s) (foldM body l2) tr.
Proof.
  revert s tr. induction l1 as [|x l1 IH]; intros s tr.
  - unfold bind. simpl. by unfold ret.
  - simpl. unfold bind in *. destruct (body s x tr) as [[s1|e] tr1]; [apply IH|done].
Qed.

Lemma ord_le_inf a : ord_le Inf a → a = Inf.
Proof. by destruct a. Qed.

(** X14. When a record of a path is a checked-out version (and no version
    number is negative), the entry the branch reducer emits for the path has
    the bare path as its new address: the file is compared with the working
    copy, wherever in the changeset that record stands. *)
Theorem checkedout_record_gives_working_copy E O changeset tr out tr' r
    (Hrun : _sanitize_branch_changeset E O changeset tr = (Ok out, tr'))
    (Hnonneg : versions_nonneg changeset)
    (Hin : r ∈ changeset)
    (Hco : ord_of r = Some Inf) :
  ∃ old_file xpatches, (old_file, c_path r, xpatches) ∈ out.
Proof.
  apply sanitize_branch_ok in Hrun as (xl & tr1 & _ & Hparsed & ->).
  set (path := c_path r).
  destruct (step_path_fold (records_of path changeset))
    as (t & r_tip & Hfold & Hmax & Htip & Hcur & _).
  { apply records_of_nonempty, list_elem_of_fmap. by exists r. }
  { unfold records_of. apply Forall_forall. intros r0 [_ Hr0]%list_elem_of_filter.
    unfold versions_nonneg in Hnonneg. rewrite Forall_forall in Hparsed, Hnonneg.
    destruct (Hparsed r0 Hr0) as [o Ho]. exists o. split; [done|].
    by apply (Hnonneg r0 Hr0). }
  pose proof (first_max_bound _ _ _ Hmax Htip) as Hbound.
  rewrite Forall_forall in Hbound. destruct (Hbound r) as (o & Ho & Hle).
  { apply list_elem_of_filter. by split. }
  assert (o = Inf) as -> by congruence. apply ord_le_inf in Hle.
  exists (_construct_extended_path path (previous t)), (Some (xpatches_of xl path)).
  apply list_elem_of_In, in_map_iff. exists (path, t). split.
  - simpl. f_equal. f_equal. rewrite Hcur. apply construct_extended_path_checkedout.
    unfold ord_of in Htip. by rewrite Htip, Hle.
  - apply list_elem_of_In, elem_of_map_to_list.
    by rewrite foldl_track_lookup, lookup_empty.
Qed.

Lemma checkedout_record_gives_working_copy_witness :
  ∃ old_file xpatches,
    (old_file, "foo.c", xpatches)
    ∈ [("foo.c@@/main/0", "foo.c", Some ([] : list (list string)))].
Proof.
  apply (checkedout_record_gives_working_copy (world_with []) no_options
           cs_checkedout [] _ []
           (Change "foo.c" "/main/br/1" "/main/br/CHECKEDOUT" "")).
  - vm_compute. reflexivity.
  - unfold versions_nonneg, cs_checkedout.
    repeat constructor; intros o [= <-]; reflexivity.
  - right. left.
  - reflexivity.
Defined.

Lemma records_of_idem path changeset :
  records_of path (records_of path changeset) = records_of path changeset.
Proof.
  unfold records_of. induction changeset as [|r cs IH]; [done|].
  rewrite filter_cons. case_decide; [|done]. rewrite filter_cons, decide_True by done.
  by rewrite IH.
Qed.

Lemma records_of_other path other changeset :
  other ≠ path → records_of other (records_of path changeset) = [].
Proof.
  intros Hne. unfold records_of. induction changeset as [|r cs IH]; [done|].
  rewrite filter_cons. case_decide as Hp; [|done].
  rewrite filter_cons, decide_False; [done|congruence].
Qed.

(** X15. With the option to exclude merges off, the entry the branch
    reducer emits for a path is the one it emits for the records of that
    path alone: the records of other paths, and how they are interleaved,
    have no part in it. *)
Theorem branch_entry_depends_on_own_records E O changeset tr path
    (Hplain : xmerge O = false)
    (Hparsed : Forall (λ r, is_Some (ord_of r)) changeset)
    (Hpath : path ∈ map c_path changeset) :
  ∃ e out tr1 tr2,
    _sanitize_branch_changeset E O changeset tr = (Ok out, tr1)
    ∧ e ∈ out
    ∧ _sanitize_branch_changeset E O (records_of path changeset) tr = (Ok [e], tr2).
Proof.
  destruct (sanitize_branch_total E O changeset tr Hplain Hparsed) as [tr1 Hall].
  assert (Forall (λ r, is_Some (ord_of r)) (records_of path changeset)) as Hparsed'.
  { apply Forall_forall. intros r [_ Hr]%list_elem_of_filter.
    rewrite Forall_forall in Hparsed. by apply Hparsed. }
  destruct (sanitize_branch_total E O _ tr Hplain Hparsed') as [tr2 Hown].
  assert (is_Some (foldl track ∅ changeset !! path)) as [t Ht].
  { apply elem_of_dom. rewrite (foldl_track_dom _ _ Hparsed).
    apply elem_of_union. right. by apply elem_of_list_to_set. }
  assert (foldl track ∅ (records_of path changeset) = {[path := t]}) as Hsingle.
  { apply map_eq. intros q. rewrite foldl_track_lookup, lookup_empty.
    destruct (decide (q = path)) as [->|Hne].
    - rewrite records_of_idem, lookup_singleton_eq, <-Ht.
      by rewrite foldl_track_lookup, lookup_empty.
    - by rewrite records_of_other, lookup_singleton_ne. }
  rewrite Hsingle, map_to_list_singleton in Hown.
  exists (entry_of ∅ (path, t)),
    (map (entry_of ∅) (map_to_list (foldl track ∅ changeset))), tr1, tr2.
  split; [done|]. split; [|done].
  apply list_elem_of_In, in_map_iff. exists (path, t). split; [done|].
  by apply list_elem_of_In, elem_of_map_to_list.
Qed.

Lemma branch_entry_depends_on_own_records_witness :
  ∃ e out tr1 tr2,
    _sanitize_branch_changeset (world_with []) no_options cs_two_paths [] = (Ok out, tr1)
    ∧ e ∈ out
    ∧ _sanitize_branch_changeset (world_with []) no_options
        (records_of "bar.c" cs_two_paths) [] = (Ok [e], tr2).
Proof.
  apply (branch_entry_depends_on_own_records (world_with []) no_options
           cs_two_paths [] "bar.c").
  - reflexivity.
  - repeat constructor; by eexists.
  - right. left.
Defined.

(** X16. A record whose version ends in neither [CHECKEDOUT] nor an integer
    makes the branch reducer raise [ValueError] on that version; with the
    option to exclude merges off nothing has been run or logged by then,
    and the records after it are not looked at. *)
Theorem unreadable_version_raises E O pre bad post tr
    (Hplain : xmerge O = false)
    (Hpre : Forall (λ r, is_Some (ord_of r)) pre)
    (Hbad : ord_of bad = None) :
  _sanitize_branch_changeset E O (pre ++ bad :: post) tr
  = (Raise (ValueError (c_current bad)), tr).
Proof.
  unfold _sanitize_branch_changeset. apply bind_raise.
  rewrite foldM_app_eq.
  rewrite (bind_step _ _ _ _ _ (branch_loop_plain E O pre ∅ ∅ tr Hplain Hpre)).
  simpl. apply bind_raise. destruct bad as [path prev cur hlinks].
  unfold branch_step, ord_of in *. simpl in *. by rewrite Hbad.
Qed.

Lemma unreadable_version_raises_witness :
  _sanitize_branch_changeset (world_with []) no_options cs_bad_version []
  = (Raise (ValueError "/main/br/LATEST"), []).
Proof.
  apply (unreadable_version_raises (world_with []) no_options
           [Change "foo.c" "/main/0" "/main/br/0" ""]
           (Change "foo.c" "/main/br/0" "/main/br/LATEST" "")
           [Change "bar.c" "/main/4" "/main/br/1" ""] []).
  - reflexivity.
  - repeat constructor. by eexists.
  - reflexivity.
Defined.

(** * The helpers of the file system module *)

(** ** [get_config_value] *)

(** X17. [get_config_value] gives the configurations precedence in their
    order: its answer is the lookup in the union of the configurations in
    which an earlier one wins over a later one, and [None] when the union
    has not the name.  So the first configuration that has the name
    decides, [None] is the answer when no configuration has the name, and
    an answer other than [None] is held by a configuration. *)
Theorem get_config_value_union {V} (none : V) (configs : list (gmap string V)) name :
  get_config_value none configs name = default none ((⋃ configs) !! name)
  ∧ (Forall (λ c, c !! name = None) configs →
     get_config_value none configs name = none)
  ∧ (∀ c pre post v,
       configs = pre ++ c :: post → Forall (λ c, c !! name = None) pre →
       c !! name = Some v → get_config_value none configs name = v)
  ∧ (get_config_value none configs name ≠ none →
     ∃ c, c ∈ configs ∧ c !! name = Some (get_config_value none configs name)).
Proof.
  split; [|split; [|split]].
  - induction configs as [|c configs IH]; simpl; [by rewrite lookup_empty|].
    rewrite lookup_union, IH.
    by destruct (c !! name), ((⋃ configs) !! name).
  - induction 1 as [|c configs Hc _ IH]; simpl; [done|]. by rewrite Hc.
  - intros c pre post v -> Hpre Hc. induction Hpre as [|c0 pre Hc0 _ IH]; simpl.
    + by rewrite Hc.
    + by rewrite Hc0.
  - induction configs as [|c configs IH]; simpl; [done|].
    destruct (c !! name) as [v|] eqn:Hc.
    + intros _. exists c. split; [by left|done].
    + intros (c' & Hin & Hc')%IH. exists c'. split; [by right|done].
Qed.

Lemma get_config_value_union_witness :
  get_config_value PyNone configs_sample "REPOSITORY" = PyStr "vob".
Proof.
  apply (proj1 (proj2 (proj2 (get_config_value_union PyNone configs_sample "REPOSITORY")))
           {[ "REVIEWBOARD_URL" := PyStr "http://parent"; "REPOSITORY" := PyStr "vob" ]}
           [ {[ "REVIEWBOARD_URL" := PyStr "http://here" ]} ] [] (PyStr "vob")).
  - reflexivity.
  - constructor; [reflexivity|constructor].
  - reflexivity.
Defined.

(** ** Prefixes and [posixpath.dirname] *)

Lemma str_app_cons c s t : String c s +:+ t = String c (s +:+ t).
Proof. done. Qed.

Lemma startswith_nil s : Py.startswith s "" = true.
Proof. by destruct s. Qed.

Lemma startswith_cons a p b s :
  Py.startswith (String b s) (String a p)
  = if Ascii.eqb a b then Py.startswith s p else false.
Proof. done. Qed.

Lemma startswith_of_nil p : Py.startswith "" p = true → p = "".
Proof. by destruct p. Qed.

Lemma startswith_refl s : Py.startswith s s = true.
Proof. induction s as [|a s IH]; [done|]. by rewrite startswith_cons, Ascii.eqb_refl. Qed.

Lemma startswith_app s t : Py.startswith (s +:+ t) s = true.
Proof.
  induction s as [|a s IH]; [apply startswith_nil|].
  by rewrite str_app_cons, startswith_cons, Ascii.eqb_refl.
Qed.

Lemma startswith_trans a b c :
  Py.startswith a b = true → Py.startswith b c = true → Py.startswith a c = true.
Proof.
  revert a b. induction c as [|x c IH]; intros a b; [intros _ _; apply startswith_nil|].
  destruct b as [|y b]; [done|]. destruct a as [|z a]; [done|].
  rewrite !startswith_cons.
  destruct (Ascii.eqb_spec y z) as [->|]; [|done].
  destruct (Ascii.eqb_spec x z) as [->|]; [|done]. apply IH.
Qed.

Lemma startswith_length s p :
  Py.startswith s p = true → (String.length p ≤ String.length s)%nat.
Proof.
  revert s. induction p as [|a p IH]; intros s; [simpl; lia|].
  destruct s as [|b s]; [done|]. rewrite startswith_cons.
  destruct (Ascii.eqb a b); [|done]. intros ?%IH. simpl. lia.
Qed.

Lemma rstrip_slash_cons c r :
  Py.rstrip_slash (String c r)
  = if String.eqb (Py.rstrip_slash r) ""
    then (if Ascii.eqb c "/" then "" else String c "")
    else String c (Py.rstrip_slash r).
Proof. done. Qed.

Lemma rstrip_slash_prefix s : Py.startswith s (Py.rstrip_slash s) = true.
Proof.
  induction s as [|c r IH]; [done|]. rewrite rstrip_slash_cons.
  destruct (String.eqb (Py.rstrip_slash r) "").
  - destruct (Ascii.eqb c "/"); [done|].
    by rewrite startswith_cons, Ascii.eqb_refl, startswith_nil.
  - by rewrite startswith_cons, Ascii.eqb_refl.
Qed.

Lemma rstrip_slash_shorter s :
  Py.endswith s "/" = true →
  (String.length (Py.rstrip_slash s) < String.length s)%nat.
Proof.
  induction s as [|c r IH]; [done|].
  rewrite ends_in_cons, rstrip_slash_cons.
  destruct (String.eqb_spec r "") as [->|Hr].
  - intros ->%Ascii.eqb_eq. simpl. lia.
  - intros Hends%IH. destruct (String.eqb (Py.rstrip_slash r) "").
    + destruct r; [done|]. destruct (Ascii.eqb c "/"); simpl; lia.
    + simpl. lia.
Qed.

Lemma split_go_head s head cur :
  Py.startswith (Py.split_go s head cur).1 head = true.
Proof.
  revert head cur. induction s as [|c r IH]; intros head cur; simpl.
  - apply startswith_refl.
  - destruct (Ascii.eqb c "/"); [|apply IH].
    eapply startswith_trans; [apply IH|apply startswith_app].
Qed.

Lemma split_go_slash s head cur :
  Py.contains "/"%char s = true → (Py.split_go s head cur).1 ≠ "".
Proof.
  revert head cur. induction s as [|c r IH]; intros head cur; simpl; [done|].
  destruct (Ascii.eqb c "/"); [|apply IH]. intros _ Hnil.
  pose proof (split_go_head r (head +:+ cur +:+ "/") "") as Hpre.
  rewrite Hnil in Hpre. apply startswith_of_nil in Hpre.
  rewrite <-str_app_assoc in Hpre. by apply str_app_cons_ne in Hpre.
Qed.

Lemma split_go_app s head cur :
  (Py.split_go s head cur).1 +:+ (Py.split_go s head cur).2 = head +:+ cur +:+ s.
Proof.
  revert head cur. induction s as [|c r IH]; intros head cur; simpl;
    [by rewrite str_app_nil_r|].
  destruct (Ascii.eqb_spec c "/") as [->|_]; rewrite IH.
  - by rewrite !str_app_assoc.
  - by rewrite str_app_snoc.
Qed.

Lemma split_go_ends s head cur :
  (Py.split_go s head cur).1 = head ∨ Py.endswith (Py.split_go s head cur).1 "/" = true.
Proof.
  revert head cur. induction s as [|c r IH]; intros head cur; simpl; [by left|].
  destruct (Ascii.eqb c "/"); [|apply IH]. right.
  destruct (IH (head +:+ cur +:+ "/") "") as [->|?]; [|done].
  rewrite <-str_app_assoc. apply endswith_app.
Qed.

Lemma dirname_eq p :
  dirname p
  = if String.eqb (Py.rstrip_slash (Py.split_go p "" "").1) ""
    then (Py.split_go p "" "").1
    else Py.rstrip_slash (Py.split_go p "" "").1.
Proof. unfold dirname, Py.path_split. by destruct (Py.split_go p "" ""). Qed.

Lemma dirname_head_prefix p : Py.startswith (Py.split_go p "" "").1 (dirname p) = true.
Proof.
  rewrite dirname_eq. destruct (String.eqb _ ""); [apply startswith_refl|].
  apply rstrip_slash_prefix.
Qed.

Lemma dirname_prefix p : path_prefix (dirname p) p.
Proof.
  unfold path_prefix. eapply startswith_trans; [|apply dirname_head_prefix].
  pose proof (split_go_app p "" "") as Happ.
  change ("" +:+ "" +:+ p) with p in Happ. rewrite <-Happ at 1. apply startswith_app.
Qed.

Lemma dirname_nonempty p : Py.contains "/"%char p = true → dirname p ≠ "".
Proof.
  intros Hp. pose proof (split_go_slash p "" "" Hp) as Hh. rewrite dirname_eq.
  destruct (String.eqb_spec (Py.rstrip_slash (Py.split_go p "" "").1) ""); done.
Qed.

Lemma startswith_slash r :
  Py.startswith r "/" = match r with String b _ => Ascii.eqb "/" b | "" => false end.
Proof.
  destruct r as [|b r]; [done|]. rewrite startswith_cons, startswith_nil.
  by destruct (Ascii.eqb "/" b).
Qed.

Lemma rooted_cons a r :
  rooted (String a r) = Ascii.eqb "/" a && negb (Py.startswith r "/").
Proof.
  unfold rooted. rewrite !startswith_cons, startswith_nil.
  by destruct (Ascii.eqb "/" a).
Qed.

Lemma rooted_inv p :
  rooted p = true →
  p = "/" ∨ ∃ c r, p = String "/" (String c r) ∧ c ≠ "/"%char.
Proof.
  destruct p as [|a r]; [done|]. rewrite rooted_cons, startswith_slash.
  destruct (Ascii.eqb_spec "/" a) as [<-|]; [|done].
  destruct r as [|c r]; [by left|].
  destruct (Ascii.eqb_spec "/" c) as [<-|Hc]; [done|]. intros _. right.
  exists c, r. split; [done|congruence].
Qed.

Lemma rooted_prefix p d :
  rooted p = true → path_prefix d p → d ≠ "" → rooted d = true.
Proof.
  destruct d as [|x d]; [done|]. intros Hp Hpre _.
  rewrite rooted_cons, startswith_slash. unfold path_prefix in Hpre.
  destruct (rooted_inv p Hp) as [->|(c & r & -> & Hc)];
    rewrite startswith_cons in Hpre;
    destruct (Ascii.eqb_spec x "/") as [->|]; try done.
  - by apply startswith_of_nil in Hpre as ->.
  - destruct d as [|y d]; [done|]. rewrite startswith_cons in Hpre.
    destruct (Ascii.eqb_spec y c) as [->|]; [|done].
    by destruct (Ascii.eqb_spec "/" c) as [<-|].
Qed.

Lemma dirname_rooted p : rooted p = true → rooted (dirname p) = true.
Proof.
  intros Hp. apply (rooted_prefix p); [done|apply dirname_prefix|].
  apply dirname_nonempty. by destruct (rooted_inv p Hp) as [->|(c & r & -> & _)].
Qed.

Lemma dirname_shorter p :
  rooted p = true → p ≠ "/" →
  (String.length (dirname p) < String.length p)%nat.
Proof.
  intros Hp Hne.
  destruct (rooted_inv p Hp) as [->|(c & r & Hpeq & Hc)]; [done|].
  pose proof (split_go_app p "" "") as Happ.
  change ("" +:+ "" +:+ p) with p in Happ.
  pose proof (startswith_length _ _ (dirname_head_prefix p)) as Hlen.
  assert (String.length p
          = (String.length (Py.split_go p "" "").1
             + String.length (Py.split_go p "" "").2)%nat) as Hsum.
  { by rewrite <-str_app_length, Happ. }
  destruct ((Py.split_go p "" "").2) as [|a t] eqn:Ht; [|simpl in Hsum; lia].
  rewrite str_app_nil_r in Happ.
  destruct (split_go_ends p "" "") as [Hnil|Hends].
  { rewrite Hnil in Happ. by rewrite <-Happ in Hpeq. }
  rewrite dirname_eq, Happ in *.
  pose proof (rstrip_slash_shorter p Hends) as Hshort.
  destruct (String.eqb_spec (Py.rstrip_slash p) "") as [Hall|_]; [|done].
  exfalso. rewrite Hpeq in Hall. rewrite !rstrip_slash_cons in Hall.
  destruct (String.eqb (Py.rstrip_slash r) "");
    by destruct (Ascii.eqb_spec c "/").
Qed.

Lemma dirname_unrooted p : rooted p = false → rooted (dirname p) = false.
Proof.
  intros Hp. pose proof (dirname_prefix p) as Hpre. unfold path_prefix in Hpre.
  destruct p as [|a r]; [done|].
  rewrite rooted_cons, startswith_slash in Hp.
  destruct (Ascii.eqb_spec "/" a) as [<-|Ha].
  - destruct r as [|b r]; [done|].
    destruct (Ascii.eqb_spec "/" b) as [<-|]; [|done]. clear Hp Hpre.
    pose proof (split_go_head r "//" "") as Hh.
    rewrite dirname_eq.
    change (Py.split_go (String "/" (String "/" r)) "" "")
      with (Py.split_go r "//" "").
    destruct ((Py.split_go r "//" "").1) as [|x [|y h]]; [done| |].
    { rewrite startswith_cons in Hh. by destruct (Ascii.eqb "/" x). }
    rewrite !startswith_cons, startswith_nil in Hh.
    destruct (Ascii.eqb_spec "/" x) as [<-|]; [|done].
    destruct (Ascii.eqb_spec "/" y) as [<-|]; [|done].
    assert ((if String.eqb (Py.rstrip_slash (String "/" (String "/" h))) ""
             then String "/" (String "/" h)
             else Py.rstrip_slash (String "/" (String "/" h)))
            = String "/" (String "/" (if String.eqb (Py.rstrip_slash h) ""
                                      then h else Py.rstrip_slash h))) as ->.
    { rewrite !rstrip_slash_cons. by destruct (String.eqb (Py.rstrip_slash h) ""). }
    by rewrite rooted_cons, startswith_slash.
  - destruct (dirname (String a r)) as [|x d]; [done|].
    rewrite startswith_cons in Hpre.
    destruct (Ascii.eqb_spec x a) as [->|]; [|done].
    rewrite rooted_cons. by destruct (Ascii.eqb_spec "/" a).
Qed.

(** ** [walk_parents] *)

Lemma walk_parents_rooted_aux n :
  ∀ path, (String.length path ≤ n)%nat → rooted path = true →
  ∃ l, (∀ fuel, (String.length path < fuel)%nat → walk_parents fuel path = Some l)
       ∧ Forall (λ p, rooted p = true ∧ p ≠ "/" ∧ path_prefix p path) l
       ∧ (length l < String.length path)%nat
       ∧ (path ≠ "/" → head l = Some path).
Proof.
  induction n as [|n IH]; intros path Hlen Hrooted.
  { destruct path; [done|simpl in Hlen; lia]. }
  destruct (String.eqb_spec path "/") as [->|Hne].
  - exists []. split; [|split; [done|split; [simpl; lia|done]]].
    intros [|fuel] ?; [lia|done].
  - pose proof (dirname_shorter path Hrooted Hne) as Hshort.
    destruct (IH (dirname path) ltac:(lia) (dirname_rooted path Hrooted))
      as (l & Hrun & Hall & Hl & _).
    exists (path :: l). split; [|split; [|split; [simpl; lia|done]]].
    + intros [|fuel] Hfuel; [lia|]. simpl. unfold sep.
      rewrite (str_eqb_false _ _ Hne). simpl. by rewrite Hrun by lia.
    + constructor.
      * split; [done|]. split; [done|]. apply startswith_refl.
      * eapply Forall_impl; [exact Hall|]. intros p (? & ? & Hp).
        split; [done|]. split; [done|].
        exact (startswith_trans _ _ _ (dirname_prefix path) Hp).
Qed.

(** X18. On a path that starts with one slash, and not with two,
    [walk_parents] comes to an end after at most as many rounds as the path
    has characters.  It yields the path itself first (unless the path is the
    root), and every path it yields starts the given path, starts with one
    slash and is not the root. *)
Theorem walk_parents_rooted path (Hrooted : rooted path = true) :
  ∃ l, (∀ fuel, (String.length path < fuel)%nat → walk_parents fuel path = Some l)
       ∧ Forall (λ p, rooted p = true ∧ p ≠ "/" ∧ path_prefix p path) l
       ∧ (length l < String.length path)%nat
       ∧ (path ≠ "/" → head l = Some path).
Proof. by apply (walk_parents_rooted_aux (String.length path)). Qed.

Lemma walk_parents_rooted_witness :
  ∃ l, (∀ fuel, (String.length "/view/vob/src" < fuel)%nat →
          walk_parents fuel "/view/vob/src" = Some l)
       ∧ Forall (λ p, rooted p = true ∧ p ≠ "/" ∧ path_prefix p "/view/vob/src") l
       ∧ (length l < String.length "/view/vob/src")%nat
       ∧ ("/view/vob/src" ≠ "/" → head l = Some "/view/vob/src").
Proof. apply (walk_parents_rooted "/view/vob/src"). reflexivity. Defined.

(** X19. On any other path (a relative path, the empty path, a path that
    starts with two slashes) [walk_parents] never comes to an end: no
    number of rounds suffices. *)
Theorem walk_parents_unrooted path fuel (Hunrooted : rooted path = false) :
  walk_parents fuel path = None.
Proof.
  revert path Hunrooted. induction fuel as [|fuel IH]; intros path Hp; [done|].
  simpl. unfold sep. destruct (String.eqb_spec path "/") as [->|_]; [done|].
  simpl. by rewrite (IH _ (dirname_unrooted path Hp)).
Qed.

Lemma walk_parents_unrooted_witness : walk_parents 1000 "src/lib" = None.
Proof. apply (walk_parents_unrooted "src/lib" 1000). reflexivity. Defined.

(** ** [diff_stats] *)

Lemma diff_stats_step_bound f i d line :
  f ≤ (diff_stats_step (f, i, d) line).1.1
  ∧ i ≤ (diff_stats_step (f, i, d) line).1.2
  ∧ d ≤ (diff_stats_step (f, i, d) line).2
  ∧ (diff_stats_step (f, i, d) line).1.1 + (diff_stats_step (f, i, d) line).1.2
    + (diff_stats_step (f, i, d) line).2 ≤ f + i + d + 1.
Proof.
  unfold diff_stats_step. cbn [fst snd].
  destruct line as [|a [|b r]]; [simpl; lia| |].
  - rewrite !startswith_cons.
    destruct (Ascii.eqb_spec "+" a) as [<-|]; [simpl; lia|].
    destruct (Ascii.eqb "-" a); simpl; lia.
  - rewrite !startswith_cons, startswith_nil.
    destruct (Ascii.eqb_spec "+" a) as [<-|].
    + destruct (Ascii.eqb_spec "+" b) as [<-|].
      * destruct (Py.startswith r "+ "); simpl; lia.
      * destruct (Ascii.eqb " " b); simpl; lia.
    + destruct (Ascii.eqb "-" a); [|simpl; lia].
      destruct (Ascii.eqb " " b); simpl; lia.
Qed.

Lemma diff_stats_loop_bound lines : ∀ f i d,
  f ≤ (foldl diff_stats_step (f, i, d) lines).1.1
  ∧ i ≤ (foldl diff_stats_step (f, i, d) lines).1.2
  ∧ d ≤ (foldl diff_stats_step (f, i, d) lines).2
  ∧ (foldl diff_stats_step (f, i, d) lines).1.1
    + (foldl diff_stats_step (f, i, d) lines).1.2
    + (foldl diff_stats_step (f, i, d) lines).2 ≤ f + i + d + Z.of_nat (length lines).
Proof.
  induction lines as [|line lines IH]; intros f i d; [simpl; lia|].
  pose proof (diff_stats_step_bound f i d line) as Hstep.
  cbn [foldl length]. destruct (diff_stats_step (f, i, d) line) as [[f1 i1] d1].
  cbn [fst snd] in Hstep. specialize (IH f1 i1 d1). lia.
Qed.

(** X20. The three counts of [diff_stats] are not negative and every line
    of the text is counted at most once: a line cannot be a file header, an
    insertion and a deletion at a time, so the counts add up to at most the
    number of lines. *)
Theorem diff_stats_counts_lines_once diff :
  0 ≤ (diff_stats diff).1.1 ∧ 0 ≤ (diff_stats diff).1.2 ∧ 0 ≤ (diff_stats diff).2
  ∧ (diff_stats diff).1.1 + (diff_stats diff).1.2 + (diff_stats diff).2
    ≤ Z.of_nat (length (Py.splitlines false diff)).
Proof.
  pose proof (diff_stats_loop_bound (Py.splitlines false diff) 0 0 0).
  unfold diff_stats. lia.
Qed.

Lemma splitlines_go_app_aux keepends b n : ∀ a cur,
  (String.length a ≤ n)%nat →
  Py.splitlines_go keepends cur (a +:+ String Py.LF b)
  = Py.splitlines_go keepends cur (a +:+ String Py.LF "")
    ++ Py.splitlines_go keepends "" b.
Proof.
  induction n as [|n IH]; intros a cur Hn.
  { destruct a; [done|simpl in Hn; lia]. }
  destruct a as [|c r]; [done|]. simpl in Hn.
  rewrite !str_app_cons. cbn [Py.splitlines_go].
  destruct (Ascii.eqb c Py.LF); [by rewrite IH by lia|].
  destruct (Ascii.eqb c Py.CR); [|by rewrite IH by lia].
  destruct r as [|c' r']; [done|]. simpl in Hn.
  rewrite !str_app_cons. destruct (Ascii.eqb c' Py.LF).
  - by rewrite IH by lia.
  - rewrite <-!str_app_cons. by rewrite IH by (simpl; lia).
Qed.

Lemma diff_stats_step_add acc x line :
  diff_stats_step (add_stats acc x) line = add_stats acc (diff_stats_step x line).
Proof.
  destruct acc as [[f i] d], x as [[f' i'] d']. unfold diff_stats_step, add_stats.
  cbn [fst snd]. f_equal; [f_equal|]; lia.
Qed.

Lemma diff_stats_loop_add lines : ∀ acc x,
  foldl diff_stats_step (add_stats acc x) lines
  = add_stats acc (foldl diff_stats_step x lines).
Proof.
  induction lines as [|line lines IH]; intros acc x; [done|].
  cbn [foldl]. by rewrite diff_stats_step_add, IH.
Qed.

(** X21. The counts of a text in two parts, the first of which ends with a
    line feed, are the sums of the counts of the parts: statistics of diffs
    that are put one after the other add up. *)
Theorem diff_stats_app a b (Hends : Py.endswith a (String Py.LF "") = true) :
  diff_stats (a +:+ b) = add_stats (diff_stats a) (diff_stats b).
Proof.
  apply endswith_spec in Hends as [pre ->]. unfold diff_stats, Py.splitlines.
  rewrite str_app_assoc. change (String Py.LF "" +:+ b) with (String Py.LF b).
  rewrite (splitlines_go_app_aux false b (String.length pre)) by done.
  rewrite foldl_app.
  set (x := foldl diff_stats_step (0, 0, 0) _).
  rewrite <-diff_stats_loop_add. f_equal.
  destruct x as [[f i] d]. unfold add_stats. cbn [fst snd]. f_equal; [f_equal|]; lia.
Qed.

Lemma diff_stats_app_witness :
  diff_stats (("+++ new" +:+ String Py.LF "+ x" +:+ String Py.LF "") +:+ "- y")
  = add_stats (diff_stats ("+++ new" +:+ String Py.LF "+ x" +:+ String Py.LF ""))
      (diff_stats "- y").
Proof.
  apply (diff_stats_app ("+++ new" +:+ String Py.LF "+ x" +:+ String Py.LF "") "- y").
  reflexivity.
Defined.

(** * The line diff and the entry point, put together *)

Lemma fix_headers_body unified old_file new_file dl :
  length (fix_headers unified old_file new_file dl) = length dl
  ∧ drop 2 (fix_headers unified old_file new_file dl) = drop 2 dl
  ∧ (unified = false → fix_headers unified old_file new_file dl = dl)
  ∧ (fix_headers unified old_file new_file dl ≠ dl →
     take 2 (fix_headers unified old_file new_file dl)
     = ["--- " +:+ old_file +:+ TAB; "+++ " +:+ new_file +:+ TAB]).
Proof.
  unfold fix_headers. destruct unified; [|done].
  destruct dl as [|l0 [|l1 rest]]; [done|done|].
  destruct (true && nonempty _ && _); [|done].
  by destruct (Py.startswith l0 "---" && Py.startswith l1 "+++").
Qed.

(** X22. What [_content_diff] returns is the output of the diff mechanism
    split into lines, except that its first two lines may be rewritten into
    headers that name the two addresses: the number of lines and the lines
    from the third on are those of the mechanism, and without [unified]
    nothing is rewritten. *)
Theorem content_diff_keeps_body E old_content new_content old_file new_file
    unified tr dl tr'
    (Hrun : _content_diff E old_content new_content old_file new_file unified tr
            = (Ok dl, tr')) :
  ∃ raw,
    diff_tool E unified (Py.join Py.linesep old_content)
      (Py.join Py.linesep new_content) = Some raw
    ∧ length dl = length (Py.lines_eof raw)
    ∧ drop 2 dl = drop 2 (Py.lines_eof raw)
    ∧ (unified = false → dl = Py.lines_eof raw)
    ∧ (dl ≠ Py.lines_eof raw →
       take 2 dl = ["--- " +:+ old_file +:+ TAB; "+++ " +:+ new_file +:+ TAB]).
Proof.
  apply content_diff_ok in Hrun as (raw & Htool & _ & ->).
  exists raw. split; [done|]. apply fix_headers_body.
Qed.

Lemma content_diff_keeps_body_witness :
  ∃ raw,
    diff_tool world_files true (Py.join Py.linesep ["x"; ""])
      (Py.join Py.linesep ["y"; ""]) = Some raw
    ∧ length (fix_headers true "a.txt" "c.txt"
                (Py.lines_eof (unified_hunk (nl "x") (nl "y"))))
      = length (Py.lines_eof raw)
    ∧ drop 2 (fix_headers true "a.txt" "c.txt"
                (Py.lines_eof (unified_hunk (nl "x") (nl "y"))))
      = drop 2 (Py.lines_eof raw)
    ∧ (true = false →
       fix_headers true "a.txt" "c.txt"
         (Py.lines_eof (unified_hunk (nl "x") (nl "y"))) = Py.lines_eof raw)
    ∧ (fix_headers true "a.txt" "c.txt"
         (Py.lines_eof (unified_hunk (nl "x") (nl "y"))) ≠ Py.lines_eof raw →
       take 2 (fix_headers true "a.txt" "c.txt"
                 (Py.lines_eof (unified_hunk (nl "x") (nl "y"))))
       = ["--- " +:+ "a.txt" +:+ TAB; "+++ " +:+ "c.txt" +:+ TAB]).
Proof.
  apply (content_diff_keeps_body world_files ["x"; ""] ["y"; ""] "a.txt" "c.txt"
           true [] _ [Exec (CmdDiff true (nl "x") (nl "y"))]).
  reflexivity.
Defined.

(** X23. For two text files without carriage returns and no exclusion
    fragments, [_diff] runs the diff mechanism once, on exactly the data of
    the two files: splitting into lines and joining again loses nothing.
    Its answer is the output of the mechanism in lines, headers rewritten;
    a failure of the mechanism ends it. *)
Theorem diff_compares_file_data E old_file new_file old_data new_data xpatches
    unified tr
    (Hold : fs E old_file = File old_data) (Hnew : fs E new_file = File new_data)
    (Hold_text : Py.contains Py.NUL old_data = false)
    (Hnew_text : Py.contains Py.NUL new_data = false)
    (Hold_cr : Py.contains Py.CR old_data = false)
    (Hnew_cr : Py.contains Py.CR new_data = false)
    (Hx : no_exclusion xpatches) :
  _diff E old_file new_file xpatches unified tr
  = (match diff_tool E unified old_data new_data with
     | Some raw =>
         Ok (DLines (fix_headers unified old_file new_file (Py.lines_eof raw)))
     | None => Raise (Die (CmdDiff unified old_data new_data))
     end,
     tr ++ [Exec (CmdDiff unified old_data new_data)]).
Proof.
  rewrite (diff_text _ _ _ _ _ _ _ _ Hold Hnew Hold_text Hnew_text).
  rewrite (bind_step _ _ _ _ _ (apply_xpatches_none _ _ _ _ Hx)).
  unfold _content_diff. rewrite !lines_eof_join by done.
  unfold execute_diff, bind, emit, ret, raise.
  by destruct (diff_tool E unified old_data new_data).
Qed.

Lemma diff_compares_file_data_witness :
  _diff world_files "a.txt" "c.txt" None true []
  = (match diff_tool world_files true (nl "x") (nl "y") with
     | Some raw => Ok (DLines (fix_headers true "a.txt" "c.txt" (Py.lines_eof raw)))
     | None => Raise (Die (CmdDiff true (nl "x") (nl "y")))
     end,
     [] ++ [Exec (CmdDiff true (nl "x") (nl "y"))]).
Proof.
  apply (diff_compares_file_data world_files "a.txt" "c.txt" (nl "x") (nl "y")
           None true []); try reflexivity.
  left. reflexivity.
Defined.

(** X24. When the query prints nothing, or the pattern drops every line it
    prints, [diff] returns the empty diff in either mode: no command is run
    and nothing is logged but the dropped lines. *)
Theorem diff_nothing_kept E O exclude_re tracking output tr
    (Hnone : kept_lines exclude_re output = []) :
  diff E O exclude_re tracking output tr
  = (Ok ("", None), tr ++ excluded_log exclude_re output).
Proof.
  unfold diff, get_branch_changeset, get_checkedout_changeset.
  destruct (negb (String.eqb tracking ""));
    unfold bind at 1 2;
    rewrite (construct_changeset_or_empty exclude_re output tr), Hnone; done.
Qed.

Lemma diff_nothing_kept_witness :
  diff world_files no_options (Some (λ _, true)) "" out_checkouts []
  = (Ok ("", None), [] ++ excluded_log (Some (λ _, true)) out_checkouts).
Proof.
  apply (diff_nothing_kept world_files no_options (Some (λ _, true)) "" out_checkouts []).
  reflexivity.
Defined.

(** * The pattern of merge hyperlinks *)

Lemma substring_all s : String.substring 0 (String.length s) s = s.
Proof. induction s as [|c s IH]; [done|]. simpl. by rewrite IH. Qed.

Lemma str_app_inj p a b : p +:+ a = p +:+ b → a = b.
Proof.
  induction p as [|c p IH]; [done|]. rewrite !str_app_cons. intros [= ?]. by apply IH.
Qed.

Lemma startswith_split s p :
  Py.startswith s p = true →
  s = p +:+ String.substring (String.length p) (String.length s - String.length p) s.
Proof.
  revert s. induction p as [|a p IH]; intros s.
  - intros _. cbn [String.length]. by rewrite Nat.sub_0_r, substring_all.
  - destruct s as [|b s]; [done|]. rewrite startswith_cons.
    destruct (Ascii.eqb_spec a b) as [->|]; [|done]. intros Hs%IH.
    rewrite str_app_cons. cbn [String.length String.substring Nat.sub].
    by rewrite <-Hs.
Qed.

Lemma strip_prefix_Some p s rest : strip_prefix p s = Some rest ↔ s = p +:+ rest.
Proof.
  unfold strip_prefix. split.
  - destruct (Py.startswith s p) eqn:Hs; [|done]. intros [= <-].
    by apply startswith_split.
  - intros ->. rewrite startswith_app. f_equal.
    pose proof (startswith_split _ _ (startswith_app p rest)) as Heq.
    by apply str_app_inj in Heq.
Qed.

Lemma contains_cons c a s :
  Py.contains c (String a s) = if Ascii.eqb a c then true else Py.contains c s.
Proof. done. Qed.

Lemma quote_on_line_iff s :
  quote_on_line s = true ↔
  ∃ b rest, s = b +:+ String QUOTE rest ∧ Py.contains Py.LF b = false.
Proof.
  split.
  - induction s as [|c r IH]; [done|]. cbn [quote_on_line].
    destruct (Ascii.eqb_spec c QUOTE) as [->|_]; [intros _; by exists "", r|].
    destruct (Ascii.eqb c Py.LF) eqn:Hc; [done|].
    intros (b & rest & -> & Hb)%IH. exists (String c b), rest.
    split; [done|]. by rewrite contains_cons, Hc.
  - intros (b & rest & -> & Hb). induction b as [|c b IH].
    + change (quote_on_line (String QUOTE rest) = true). cbn [quote_on_line].
      by rewrite Ascii.eqb_refl.
    + rewrite contains_cons in Hb. destruct (Ascii.eqb c Py.LF) eqn:Hc; [done|].
      rewrite str_app_cons. cbn [quote_on_line]. rewrite Hc, (IH Hb).
      by destruct (Ascii.eqb c QUOTE).
Qed.

Lemma arrow_on_line_unfold s :
  arrow_on_line s
  = (match strip_prefix ARROW s with
     | Some rest => quote_on_line rest
     | None => false
     end)
    || match s with
       | "" => false
       | String c r => if Ascii.eqb c Py.LF then false else arrow_on_line r
       end.
Proof. by destruct s. Qed.

Lemma arrow_on_line_iff s :
  arrow_on_line s = true ↔
  ∃ a t, s = a +:+ ARROW +:+ t ∧ Py.contains Py.LF a = false ∧ quote_on_line t = true.
Proof.
  split.
  - induction s as [|c r IH]; rewrite arrow_on_line_unfold; intros [Hhere|Hlater]%orb_true_iff.
    + destruct (strip_prefix ARROW "") as [rest|] eqn:Hp; [|done].
      apply strip_prefix_Some in Hp. by exists "", rest.
    + done.
    + destruct (strip_prefix ARROW (String c r)) as [rest|] eqn:Hp; [|done].
      apply strip_prefix_Some in Hp. by exists "", rest.
    + destruct (Ascii.eqb c Py.LF) eqn:Hc; [done|].
      apply IH in Hlater as (a & t & -> & Ha & Ht). exists (String c a), t.
      split; [done|]. split; [|done]. by rewrite contains_cons, Hc.
  - intros (a & t & -> & Ha & Ht). induction a as [|c a IH].
    + rewrite arrow_on_line_unfold.
      change ("" +:+ ARROW +:+ t) with (ARROW +:+ t).
      by rewrite (proj2 (strip_prefix_Some ARROW (ARROW +:+ t) t) eq_refl), Ht.
    + rewrite contains_cons in Ha. destruct (Ascii.eqb c Py.LF) eqn:Hc; [done|].
      rewrite arrow_on_line_unfold, str_app_cons, Hc, (IH Ha). apply orb_true_r.
Qed.

(** X25. The pattern of merge hyperlinks matches a text exactly when the
    text starts with a double quote and [Merge@], and its first line goes on
    with some text, the arrow between two double quotes, some text and a
    double quote: the match is tied to the start of the text and to its
    first line. *)
Theorem hlink_merge_match_iff hlinks :
  hlink_merge_match hlinks = true ↔
  ∃ a b rest,
    hlinks = String QUOTE "Merge@" +:+ a +:+ ARROW +:+ b +:+ String QUOTE rest
    ∧ Py.contains Py.LF a = false ∧ Py.contains Py.LF b = false.
Proof.
  unfold hlink_merge_match. split.
  - destruct (strip_prefix (String QUOTE "Merge@") hlinks) as [s|] eqn:Hp; [|done].
    apply strip_prefix_Some in Hp as ->.
    intros (a & t & -> & Ha & (b & rest & -> & Hb)%quote_on_line_iff)%arrow_on_line_iff.
    by exists a, b, rest.
  - intros (a & b & rest & -> & Ha & Hb).
    rewrite (proj2 (strip_prefix_Some (String QUOTE "Merge@") _ _) eq_refl).
    apply arrow_on_line_iff. exists a, (b +:+ String QUOTE rest).
    split; [done|]. split; [done|]. apply quote_on_line_iff. by exists b, rest.
Qed.
